(** * The configuration pipeline of LinkTree Modern

    A shallow embedding of [src/utils/validation.ts] and
    [src/utils/config-loader.ts]: the validators, the HTML sanitizer, the
    schema validator, the deep merge and the loader, followed by the
    properties of the pipeline.  The rate limiter of [validation.ts], the
    theme applicators of [config-loader.ts] and the state handlers of
    [src/components/ThemeProvider.tsx], which call the loader and the
    applicators, are embedded as well.

    Modelling conventions.
    - A JavaScript string is a [string]; each character stands for one
      UTF-16 code unit, below 256.  The patterns of the source only name
      ASCII characters.
    - TypeScript types are erased at run time, and the loader feeds the
      pipeline with whatever [response.json()] returns.  A JavaScript
      value is therefore a [value]: the JSON values and [undefined], with
      the coercions that the source relies on ([ToBoolean], [ToString],
      property reads, [typeof]).  JSON numbers are integers below 10^21
      in magnitude, which [ToString] renders in decimal; the configuration
      has no numeric field.
    - A record is the list of its own enumerable properties in enumeration
      order.  The prototype chain is outside the model of the validators
      and of the merge: a property that a record does not own reads as
      [undefined], [to_string] converts every value, and the key
      [__proto__] is a key like any other.  The source differs on three
      kinds of input, and a statement that depends on one of them excludes
      it by a hypothesis: a key that names a member of [Object.prototype]
      ([plain], and [proto_free] for [__proto__] alone), a record that
      owns a property [toString], which cannot be converted to a string
      ([printable]), and a key made of digits, which may be enumerated
      before the keys inserted earlier ([ordinary_key]).  The theme
      applicators are embedded with [ToString], the conversion with its
      exception, and with the inherited members of their table of fonts.
    - Code that can throw returns a [result]; [try ... catch] is
      [try_catch].
    - The platform's [URL] class and its string-to-number coercion are the
      fields of the class [Platform].  Every general statement holds for
      all platforms; [Reference.platform] is a concrete one on which the
      pipeline can be run.
    - [Store] is a second embedding of [mergeConfig], over a store of
      objects, for the statements about object identity.
    - What a function reads from its environment is an argument: the clock
      of the rate limiter, the answer of the media query.  What it writes
      is returned: the map of the limiter, the calls made on the style of
      the root element, its class list.  [updateSEOMetadata] is not
      embedded; the provider records the arguments of its calls. *)

From Stdlib Require Import String Ascii List ZArith Lia Bool Arith.
Import ListNotations.
Local Open Scope string_scope.
Local Open Scope list_scope.
Local Open Scope nat_scope.

(** ** Strings and the regular expressions of the source *)

Module Str.

Definition is_upper (c : ascii) : bool :=
  let n := nat_of_ascii c in (65 <=? n) && (n <=? 90).

Definition is_lower (c : ascii) : bool :=
  let n := nat_of_ascii c in (97 <=? n) && (n <=? 122).

Definition is_digit (c : ascii) : bool :=
  let n := nat_of_ascii c in (48 <=? n) && (n <=? 57).

Definition is_alpha (c : ascii) : bool := is_upper c || is_lower c.

Definition is_hex (c : ascii) : bool :=
  let n := nat_of_ascii c in
  is_digit c || ((65 <=? n) && (n <=? 70)) || ((97 <=? n) && (n <=? 102)).

(** ASCII case folding: the only folding that the [i] flag performs
    between a pattern character below 128 and an input character. *)
Definition lower (c : ascii) : ascii :=
  if is_upper c then ascii_of_nat (nat_of_ascii c + 32) else c.

Fixpoint to_lower (s : string) : string :=
  match s with
  | EmptyString => EmptyString
  | String c r => String (lower c) (to_lower r)
  end.

Definition eqb_ci (a b : ascii) : bool := Ascii.eqb (lower a) (lower b).

(** [p] is a prefix of [s]. *)
Fixpoint starts_with (p s : string) : bool :=
  match p, s with
  | EmptyString, _ => true
  | String a p', String b s' => Ascii.eqb a b && starts_with p' s'
  | String _ _, EmptyString => false
  end.

(** [p] is a prefix of [s] up to ASCII case. *)
Fixpoint starts_with_ci (p s : string) : bool :=
  match p, s with
  | EmptyString, _ => true
  | String a p', String b s' => eqb_ci a b && starts_with_ci p' s'
  | String _ _, EmptyString => false
  end.

(** [/p/.test(s)] for a literal pattern [p]. *)
Fixpoint includes (p s : string) : bool :=
  starts_with p s ||
  match s with
  | EmptyString => false
  | String _ s' => includes p s'
  end.

(** [/p/i.test(s)] for a literal pattern [p]. *)
Fixpoint includes_ci (p s : string) : bool :=
  starts_with_ci p s ||
  match s with
  | EmptyString => false
  | String _ s' => includes_ci p s'
  end.

Fixpoint drop (n : nat) (s : string) : string :=
  match n, s with
  | O, _ => s
  | S n', String _ s' => drop n' s'
  | S _, EmptyString => EmptyString
  end.

Fixpoint forallb (f : ascii -> bool) (s : string) : bool :=
  match s with
  | EmptyString => true
  | String c r => f c && forallb f r
  end.

Fixpoint rev_acc (s acc : string) : string :=
  match s with
  | EmptyString => acc
  | String c r => rev_acc r (String c acc)
  end.

Definition rev (s : string) : string := rev_acc s EmptyString.

(** [s.replace(/c/g, rep)] for a single character [c]. *)
Fixpoint replace_all (c : ascii) (rep : string) (s : string) : string :=
  match s with
  | EmptyString => EmptyString
  | String a r =>
      if Ascii.eqb a c then (rep ++ replace_all c rep r)%string
      else String a (replace_all c rep r)
  end.

(** White space and line terminators removed by [String.prototype.trim]. *)
Definition is_space (c : ascii) : bool :=
  let n := nat_of_ascii c in
  ((9 <=? n) && (n <=? 13)) || (n =? 32) || (n =? 160).

Fixpoint trim_start (s : string) : string :=
  match s with
  | EmptyString => EmptyString
  | String c r => if is_space c then trim_start r else s
  end.

Definition trim (s : string) : string := rev (trim_start (rev (trim_start s))).

(** Characters matched by [.] (no [s] flag): all but line terminators. *)
Definition is_line_terminator (c : ascii) : bool :=
  let n := nat_of_ascii c in (n =? 10) || (n =? 13).

(** Decimal rendering of a natural number, as in a template literal. *)
Definition digit_char (n : nat) : ascii := ascii_of_nat (48 + n).

Fixpoint of_nat_fuel (fuel n : nat) (acc : string) : string :=
  match fuel with
  | O => acc
  | S f =>
      let acc' := String (digit_char (n mod 10)) acc in
      if n <? 10 then acc' else of_nat_fuel f (n / 10) acc'
  end.

Definition of_nat (n : nat) : string := of_nat_fuel (S n) n EmptyString.

Definition of_Z (z : Z) : string :=
  if (z <? 0)%Z then String "-"%char (of_nat (Z.to_nat (- z)))
  else of_nat (Z.to_nat z).

Fixpoint join (sep : string) (l : list string) : string :=
  match l with
  | [] => EmptyString
  | [x] => x
  | x :: r => (x ++ sep ++ join sep r)%string
  end.

Fixpoint chars (s : string) : list string :=
  match s with
  | EmptyString => []
  | String c r => String c EmptyString :: chars r
  end.

End Str.

(** ** Own properties

    The own enumerable properties of an object, in enumeration order. *)

Section Props.
Context {A : Type}.

Fixpoint lookup (k : string) (props : list (string * A)) : option A :=
  match props with
  | [] => None
  | (k', v) :: rest => if String.eqb k k' then Some v else lookup k rest
  end.

(** [obj[k] = v] on a record: overwrite in place or append. *)
Fixpoint set_prop (props : list (string * A)) (k : string) (v : A)
  : list (string * A) :=
  match props with
  | [] => [(k, v)]
  | (k', v') :: rest =>
      if String.eqb k k' then (k', v) :: rest else (k', v') :: set_prop rest k v
  end.

(** The index properties ["0"], ["1"], ... of an array or of a string. *)
Fixpoint indexed_from (i : nat) (l : list A) : list (string * A) :=
  match l with
  | [] => []
  | v :: rest => (Str.of_nat i, v) :: indexed_from (S i) rest
  end.

Definition indexed (l : list A) : list (string * A) := indexed_from 0 l.

End Props.

(** ** JavaScript values and the operations the pipeline performs on them *)

Module JS.

Unset Elimination Schemes.
Inductive value : Type :=
| VUndef
| VNull
| VBool (b : bool)
| VNum (n : Z)
| VStr (s : string)
| VArr (elems : list value)
| VObj (props : list (string * value)).
Set Elimination Schemes.

(** Induction on a value, with the hypothesis on every element of an
    array and on every property value of a record. *)
Definition value_ind' (Q : value -> Prop)
    (HUndef : Q VUndef) (HNull : Q VNull)
    (HBool : forall b, Q (VBool b)) (HNum : forall n, Q (VNum n))
    (HStr : forall s, Q (VStr s))
    (HArr : forall l, Forall Q l -> Q (VArr l))
    (HObj : forall ps, Forall (fun kv => Q (snd kv)) ps -> Q (VObj ps))
  : forall v, Q v :=
  fix F (v : value) : Q v :=
    match v with
    | VUndef => HUndef
    | VNull => HNull
    | VBool b => HBool b
    | VNum n => HNum n
    | VStr s => HStr s
    | VArr l =>
        HArr l ((fix G (l : list value) : Forall Q l :=
                   match l with
                   | [] => Forall_nil Q
                   | x :: r => Forall_cons x (F x) (G r)
                   end) l)
    | VObj ps =>
        HObj ps ((fix G (ps : list (string * value))
                    : Forall (fun kv => Q (snd kv)) ps :=
                    match ps with
                    | [] => Forall_nil _
                    | (k, x) :: r =>
                        Forall_cons (P := fun kv => Q (snd kv)) (k, x) (F x) (G r)
                    end) ps)
    end.

(** What a [throw] carries: the two error classes the pipeline raises
    itself, and any other thrown value. *)
Inductive exn : Type :=
| TypeError (msg : string)
| Error (msg : string)
| Thrown (v : value).

Inductive result (A : Type) : Type :=
| Ok (a : A)
| Throw (e : exn).
Arguments Ok {A} a.
Arguments Throw {A} e.

Definition bind {A B} (m : result A) (k : A -> result B) : result B :=
  match m with
  | Ok a => k a
  | Throw e => Throw e
  end.

(** [try { body } catch (e) { handler e }] *)
Definition try_catch {A} (body : result A) (handler : exn -> result A) : result A :=
  match body with
  | Ok a => Ok a
  | Throw e => handler e
  end.

(** [null] and [undefined]: the values whose properties cannot be read. *)
Definition nullish (v : value) : bool :=
  match v with VUndef | VNull => true | _ => false end.

(** ToBoolean *)
Definition truthy (v : value) : bool :=
  match v with
  | VUndef | VNull => false
  | VBool b => b
  | VNum n => negb (n =? 0)%Z
  | VStr s => negb (String.eqb s "")
  | VArr _ | VObj _ => true
  end.

Definition is_undefined (v : value) : bool :=
  match v with VUndef => true | _ => false end.

Definition is_string (v : value) : bool :=
  match v with VStr _ => true | _ => false end.

Definition is_boolean (v : value) : bool :=
  match v with VBool _ => true | _ => false end.

Definition is_array (v : value) : bool :=
  match v with VArr _ => true | _ => false end.

(** [typeof v === 'object'] *)
Definition typeof_object (v : value) : bool :=
  match v with VNull | VArr _ | VObj _ => true | _ => false end.

(** The own enumerable string-keyed properties of a value, in
    enumeration order: what [for ... in], [Object.entries] and object
    spread see. *)
Definition own_props (v : value) : list (string * value) :=
  match v with
  | VObj props => props
  | VArr l => indexed l
  | VStr s => indexed (map VStr (Str.chars s))
  | _ => []
  end.

(** [v[k]]: reading a property of [null] or [undefined] throws. *)
Definition get (v : value) (k : string) : result value :=
  match v with
  | VUndef | VNull => Throw (TypeError "Cannot read properties of null or undefined")
  | VObj props =>
      match lookup k props with Some x => Ok x | None => Ok VUndef end
  | VArr l =>
      if String.eqb k "length" then Ok (VNum (Z.of_nat (List.length l)))
      else match lookup k (indexed l) with Some x => Ok x | None => Ok VUndef end
  | VStr s =>
      if String.eqb k "length" then Ok (VNum (Z.of_nat (String.length s)))
      else match lookup k (own_props v) with Some x => Ok x | None => Ok VUndef end
  | VBool _ | VNum _ => Ok VUndef
  end.

(** ToString *)
Fixpoint to_string (v : value) : string :=
  match v with
  | VUndef => "undefined"
  | VNull => "null"
  | VBool true => "true"
  | VBool false => "false"
  | VNum n => Str.of_Z n
  | VStr s => s
  | VArr l =>
      Str.join ","
        (map (fun e => match e with
                       | VUndef | VNull => EmptyString
                       | _ => to_string e
                       end) l)
  | VObj _ => "[object Object]"
  end.

(** [v === 0] *)
Definition is_zero (v : value) : bool :=
  match v with VNum n => (n =? 0)%Z | _ => false end.

End JS.
Export JS.

Declare Scope js_scope.
Delimit Scope js_scope with js.
Notation "x <- m ;; k" := (JS.bind m (fun x => k))
  (at level 61, m at next level, right associativity) : js_scope.
Local Open Scope js_scope.

(** ** The platform *)

(** The two fields of a [URL] object that the source reads. *)
Record URLRecord : Type := {
  protocol : string;
  hostname : string
}.

Class Platform : Type := {
  (** [new URL(s)]: [None] when the constructor throws. *)
  url_parse : string -> option URLRecord;
  (** [s > n] for a string [s] and a number [n]: the comparison after the
      string-to-number coercion. *)
  str_gt : string -> Z -> bool
}.

(** [v > n] for a number literal [n]. *)
Definition js_gt `{P : Platform} (v : value) (n : Z) : bool :=
  match v with
  | VUndef => false
  | VNull => (0 >? n)%Z
  | VBool b => ((if b then 1 else 0) >? n)%Z
  | VNum z => (z >? n)%Z
  | VStr s => str_gt s n
  | VArr _ | VObj _ => str_gt (to_string v) n
  end.

(** ** [src/utils/validation.ts] *)

Record ConfigError : Type := {
  field : string;
  message : string
}.

Record ValidationResult : Type := {
  isValid : bool;
  errors : list ConfigError;
  warnings : list ConfigError
}.

Definition is_nil {A} (l : list A) : bool :=
  match l with [] => true | _ => false end.

Module Validation.
Section WithPlatform.
Context `{P : Platform}.

Definition allowedProtocols : list string := ["http:"; "https:"; "mailto:"; "tel:"].

Definition dangerousPatterns : list string :=
  ["javascript:"; "data:"; "vbscript:"; "file:"; "ftp:"].

(** [validateUrl]: the argument reaches [new URL] and [RegExp.test], both
    of which convert it to a string. *)
Definition validateUrl (url : value) : bool :=
  let s := to_string url in
  match url_parse s with
  | None => false
  | Some urlObj =>
      if negb (existsb (String.eqb (protocol urlObj)) allowedProtocols) then false
      else negb (existsb (fun pattern => Str.includes_ci pattern s) dangerousPatterns)
  end.

Definition image_extension_names : list string :=
  ["jpg"; "jpeg"; "png"; "gif"; "webp"; "svg"].

(** The tail of the image pattern: an optional [?] followed by any
    characters but line terminators, then the end of the input. *)
Definition query_tail (s : string) : bool :=
  match s with
  | EmptyString => true
  | String c q =>
      Ascii.eqb c "?" && Str.forallb (fun a => negb (Str.is_line_terminator a)) q
  end.

(** A dot, one of the extensions (case ignored) and the tail, matched at
    the start of [s]. *)
Definition image_extension_here (s : string) : bool :=
  match s with
  | EmptyString => false
  | String c r =>
      Ascii.eqb c "." &&
      existsb (fun e => Str.starts_with_ci e r && query_tail (Str.drop (String.length e) r))
              image_extension_names
  end.

(** The test of the pattern [imageExtensions]: the match may start at
    any position of [s]. *)
Fixpoint imageExtensions (s : string) : bool :=
  image_extension_here s ||
  match s with
  | EmptyString => false
  | String _ r => imageExtensions r
  end.

(** [validateImageUrl]: after [validateUrl] the argument's [startsWith]
    method is called, which only a string has. *)
Definition validateImageUrl (url : value) : result bool :=
  if negb (validateUrl url) then Ok false
  else match url with
       | VStr s =>
           if negb (Str.starts_with "http://" s) && negb (Str.starts_with "https://" s)
           then Ok false
           else Ok (imageExtensions s)
       | _ => Throw (TypeError "url.startsWith is not a function")
       end.

Definition amp : ascii := ascii_of_nat 38.
Definition quot : ascii := ascii_of_nat 34.
Definition apos : ascii := ascii_of_nat 39.

Definition escape_html (s : string) : string :=
  Str.replace_all "/" "&#x2F;"
    (Str.replace_all apos "&#x27;"
       (Str.replace_all quot "&quot;"
          (Str.replace_all ">" "&gt;"
             (Str.replace_all "<" "&lt;"
                (Str.replace_all amp "&amp;" s))))).

(** [sanitizeText]: a falsy argument gives the empty string; otherwise
    the argument's [replace] method is called, which only a string has. *)
Definition sanitizeText (text : value) : result string :=
  if negb (truthy text) then Ok EmptyString
  else match text with
       | VStr s => Ok (Str.trim (escape_html s))
       | _ => Throw (TypeError "text.replace is not a function")
       end.

Definition is_upper_alnum (c : ascii) : bool := Str.is_upper c || Str.is_digit c.

(** [/^G-[A-Z0-9]{10}$/] *)
Definition validateGoogleAnalyticsId (id : value) : bool :=
  let s := to_string id in
  Str.starts_with "G-" s &&
  (String.length (Str.drop 2 s) =? 10) && Str.forallb is_upper_alnum (Str.drop 2 s).

(** [/^[0-9]{15,16}$/] *)
Definition validateFacebookPixelId (id : value) : bool :=
  let s := to_string id in
  (15 <=? String.length s) && (String.length s <=? 16) && Str.forallb Str.is_digit s.

(** [/^[cls]{lo,hi}$/] *)
Definition class_between (cls : ascii -> bool) (lo hi : nat) (s : string) : bool :=
  (lo <=? String.length s) && (String.length s <=? hi) && Str.forallb cls s.

Definition is_word (c : ascii) : bool :=
  Str.is_alpha c || Str.is_digit c || Ascii.eqb c "_".
Definition is_word_dot (c : ascii) : bool := is_word c || Ascii.eqb c ".".
Definition is_alnum_dash (c : ascii) : bool :=
  Str.is_alpha c || Str.is_digit c || Ascii.eqb c "-".

Definition patterns (platform : string) : option (string -> bool) :=
  if String.eqb platform "twitter" then Some (class_between is_word 1 15)
  else if String.eqb platform "instagram" then Some (class_between is_word_dot 1 30)
  else if String.eqb platform "github" then Some (class_between is_alnum_dash 1 39)
  else if String.eqb platform "linkedin" then Some (class_between is_alnum_dash 3 100)
  else if String.eqb platform "tiktok" then Some (class_between is_word_dot 1 24)
  else if String.eqb platform "twitch" then Some (class_between is_word 4 25)
  else None.

Definition validateSocialMediaUsername (platform : string) (username : value) : bool :=
  if negb (truthy username) then true
  else match patterns platform with
       | Some pattern => pattern (to_string username)
       | None => true
       end.

(** [/^#[0-9A-Fa-f]{6}$/] *)
Definition validateHexColor (color : value) : bool :=
  match to_string color with
  | EmptyString => false
  | String c r => Ascii.eqb c "#" && (String.length r =? 6) && Str.forallb Str.is_hex r
  end.

(** *** The schema validator *)

Definition get2 (v : value) (a b : string) : result value :=
  x <- get v a ;; get x b.

(** [a || b] and [a && b] as conditions, [b] evaluated only if needed. *)
Definition or_else (a : bool) (b : result bool) : result bool :=
  if a then Ok true else b.
Definition and_then (a : bool) (b : result bool) : result bool :=
  if a then b else Ok false.

(** [v.length === 0] and [v.length > n] *)
Definition length_is_zero (v : value) : result bool :=
  l <- get v "length" ;; Ok (is_zero l).
Definition length_gt (v : value) (n : Z) : result bool :=
  l <- get v "length" ;; Ok (js_gt l n).

(** [v && v.length > n] *)
Definition too_long (v : value) (n : Z) : result bool :=
  and_then (truthy v) (length_gt v n).

(** [v && !validateImageUrl(v)] *)
Definition bad_image (v : value) : result bool :=
  and_then (truthy v) (b <- validateImageUrl v ;; Ok (negb b)).

(** [if (c) list.push({ field, message })] *)
Definition push_if (c : bool) (f m : string) : list ConfigError :=
  if c then [{| field := f; message := m |}] else [].

(** The body of the callback of [config.links.forEach]. *)
Definition validateLink (index : nat) (link : value) : result (list ConfigError) :=
  let prefix := ("links[" ++ Str.of_nat index ++ "]")%string in
  title <- get link "title" ;;
  c1 <- or_else (negb (truthy title)) (length_is_zero title) ;;
  c2 <- too_long title 50 ;;
  url <- get link "url" ;;
  c3 <- or_else (negb (truthy url)) (Ok (negb (validateUrl url))) ;;
  c4 <- too_long url 2048 ;;
  description <- get link "description" ;;
  c5 <- too_long description 100 ;;
  Ok (push_if c1 (prefix ++ ".title") "Link title is required"
      ++ push_if c2 (prefix ++ ".title") "Link title must be 50 characters or less"
      ++ push_if c3 (prefix ++ ".url") "Invalid URL format"
      ++ push_if c4 (prefix ++ ".url") "URL too long (max 2048 characters)"
      ++ push_if c5 (prefix ++ ".description")
                 "Description must be 100 characters or less").

Fixpoint validateLinksFrom (index : nat) (links : list value)
  : result (list ConfigError) :=
  match links with
  | [] => Ok []
  | link :: rest =>
      e <- validateLink index link ;;
      es <- validateLinksFrom (S index) rest ;;
      Ok (e ++ es)
  end.

(** [config.links.forEach(...)]: only an array has the method. *)
Definition validateLinks (links : value) : result (list ConfigError) :=
  match links with
  | VArr l => validateLinksFrom 0 l
  | _ => Throw (TypeError "config.links.forEach is not a function")
  end.

(** The body of the callback over [Object.entries(config.socialMedia)]. *)
Definition validateSocial (entry : string * value) : list ConfigError :=
  let (platform, username) := entry in
  push_if (truthy username && negb (validateSocialMediaUsername platform username))
          ("socialMedia." ++ platform)
          ("Invalid " ++ platform ++ " username format").

(** [Object.entries(v)] throws on [null] and [undefined]. *)
Definition object_entries (v : value) : result (list (string * value)) :=
  match v with
  | VUndef | VNull => Throw (TypeError "Cannot convert undefined or null to object")
  | _ => Ok (own_props v)
  end.

Definition validateConfig (config : value) : result ValidationResult :=
  (* Validate profile *)
  name <- get2 config "profile" "name" ;;
  p1 <- or_else (negb (truthy name)) (length_is_zero name) ;;
  p2 <- too_long name 50 ;;
  bio <- get2 config "profile" "bio" ;;
  p3 <- too_long bio 160 ;;
  avatar <- get2 config "profile" "avatar" ;;
  p4 <- bad_image avatar ;;
  location <- get2 config "profile" "location" ;;
  p5 <- too_long location 50 ;;
  (* Validate links *)
  links <- get config "links" ;;
  l1 <- length_gt links 20 ;;
  l2 <- validateLinks links ;;
  (* Validate social media *)
  socialMedia <- get config "socialMedia" ;;
  entries <- object_entries socialMedia ;;
  (* Validate theme *)
  primaryColor <- get2 config "theme" "primaryColor" ;;
  backgroundImage <- get2 config "theme" "backgroundImage" ;;
  t2 <- bad_image backgroundImage ;;
  (* Validate SEO *)
  title <- get2 config "seo" "title" ;;
  w1 <- too_long title 60 ;;
  description <- get2 config "seo" "description" ;;
  w2 <- too_long description 160 ;;
  favicon <- get2 config "seo" "favicon" ;;
  s3 <- bad_image favicon ;;
  (* Validate analytics *)
  googleAnalyticsId <- get2 config "analytics" "googleAnalyticsId" ;;
  facebookPixelId <- get2 config "analytics" "facebookPixelId" ;;
  let errors :=
    push_if p1 "profile.name" "Name is required"
    ++ push_if p2 "profile.name" "Name must be 50 characters or less"
    ++ push_if p3 "profile.bio" "Bio must be 160 characters or less"
    ++ push_if p4 "profile.avatar" "Invalid avatar URL format"
    ++ push_if p5 "profile.location" "Location must be 50 characters or less"
    ++ push_if l1 "links" "Maximum 20 links allowed"
    ++ l2
    ++ flat_map validateSocial entries
    ++ push_if (negb (validateHexColor primaryColor))
               "theme.primaryColor" "Invalid hex color format"
    ++ push_if t2 "theme.backgroundImage" "Invalid background image URL"
    ++ push_if s3 "seo.favicon" "Invalid favicon URL format"
    ++ push_if (truthy googleAnalyticsId
                && negb (validateGoogleAnalyticsId googleAnalyticsId))
               "analytics.googleAnalyticsId"
               "Invalid Google Analytics ID format (should be G-XXXXXXXXXX)"
    ++ push_if (truthy facebookPixelId
                && negb (validateFacebookPixelId facebookPixelId))
               "analytics.facebookPixelId" "Invalid Facebook Pixel ID format" in
  let warnings :=
    push_if w1 "seo.title"
            "Title longer than 60 characters may be truncated in search results"
    ++ push_if w2 "seo.description"
               "Description longer than 160 characters may be truncated" in
  Ok {| isValid := is_nil errors; errors := errors; warnings := warnings |}.

(** *** The sanitizer of a whole configuration *)

(** [v ? sanitizeText(v) : undefined] *)
Definition sanitizeOptional (v : value) : result value :=
  if truthy v then (t <- sanitizeText v ;; Ok (VStr t)) else Ok VUndef.

(** The callback of [config.links.map]: a copy of the link with its
    title and description replaced. *)
Definition sanitizeLink (link : value) : result value :=
  title <- get link "title" ;;
  title' <- sanitizeText title ;;
  description <- get link "description" ;;
  description' <- sanitizeOptional description ;;
  Ok (VObj (set_prop (set_prop (own_props link) "title" (VStr title'))
                     "description" description')).

Fixpoint map_result {A B} (f : A -> result B) (l : list A) : result (list B) :=
  match l with
  | [] => Ok []
  | a :: rest => b <- f a ;; bs <- map_result f rest ;; Ok (b :: bs)
  end.

(** [config.links.map(...)]: only an array has the method. *)
Definition sanitizeLinks (links : value) : result value :=
  match links with
  | VArr l => (l' <- map_result sanitizeLink l ;; Ok (VArr l'))
  | _ => Throw (TypeError "config.links.map is not a function")
  end.

Definition sanitizeConfig (config : value) : result value :=
  name <- get2 config "profile" "name" ;;
  name' <- sanitizeText name ;;
  bio <- get2 config "profile" "bio" ;;
  bio' <- sanitizeText bio ;;
  avatar <- get2 config "profile" "avatar" ;;
  location <- get2 config "profile" "location" ;;
  location' <- sanitizeOptional location ;;
  links <- get config "links" ;;
  links' <- sanitizeLinks links ;;
  socialMedia <- get config "socialMedia" ;;
  theme <- get config "theme" ;;
  layout <- get config "layout" ;;
  title <- get2 config "seo" "title" ;;
  title' <- sanitizeText title ;;
  description <- get2 config "seo" "description" ;;
  description' <- sanitizeText description ;;
  keywords <- get2 config "seo" "keywords" ;;
  keywords' <- sanitizeText keywords ;;
  favicon <- get2 config "seo" "favicon" ;;
  analytics <- get config "analytics" ;;
  advanced <- get config "advanced" ;;
  Ok (VObj
        [ ("profile", VObj [ ("name", VStr name');
                             ("bio", VStr bio');
                             ("avatar", avatar);
                             ("location", location') ]);
          ("links", links');
          ("socialMedia", socialMedia);
          ("theme", theme);
          ("layout", layout);
          ("seo", VObj [ ("title", VStr title');
                         ("description", VStr description');
                         ("keywords", VStr keywords');
                         ("favicon", favicon) ]);
          ("analytics", analytics);
          ("advanced", advanced) ]).

(** *** The guard on internal addresses *)

(** [/^172\.(1[6-9]|2[0-9]|3[0-1])\./] *)
Definition private_172 (h : string) : bool :=
  Str.starts_with "172." h &&
  match Str.drop 4 h with
  | String a (String b (String c _)) =>
      let nb := nat_of_ascii b in
      ((Ascii.eqb a "1" && (54 <=? nb) && (nb <=? 57))
       || (Ascii.eqb a "2" && (48 <=? nb) && (nb <=? 57))
       || (Ascii.eqb a "3" && (48 <=? nb) && (nb <=? 49)))
      && Ascii.eqb c "."
  | _ => false
  end.

Definition privateIpPatterns : list (string -> bool) :=
  [ String.eqb "localhost";
    Str.starts_with "127.";
    Str.starts_with "192.168.";
    Str.starts_with "10.";
    private_172;
    String.eqb "::1";
    Str.starts_with "fc00:";
    Str.starts_with "fe80:" ].

Definition isSafeExternalUrl (url : value) : bool :=
  if negb (validateUrl url) then false
  else match url_parse (to_string url) with
       | None => false
       | Some urlObj =>
           let hostname := Str.to_lower (hostname urlObj) in
           negb (existsb (fun pattern => pattern hostname) privateIpPatterns)
       end.

End WithPlatform.
End Validation.

(** ** [src/utils/config-loader.ts] *)

(** What the request for [/src/config.json] can do. *)
Inductive fetch_behaviour : Type :=
| FetchRejects (e : exn)        (* [fetch] itself throws *)
| FetchNotOk (status : Z)       (* a response whose [ok] is false *)
| FetchBodyRejects (e : exn)    (* [response.json()] throws *)
| FetchJson (doc : value).      (* a response whose body parses to [doc] *)

Module ConfigLoader.

Definition link (title url description icon : string) (enabled newTab featured : bool)
  : value :=
  VObj [ ("title", VStr title); ("url", VStr url); ("description", VStr description);
         ("icon", VStr icon); ("enabled", VBool enabled); ("newTab", VBool newTab);
         ("featured", VBool featured) ].

Definition DEFAULT_CONFIG : value :=
  VObj
    [ ("profile",
        VObj [ ("name", VStr "Your Name");
               ("bio", VStr "Welcome to my links! Find all my important stuff here.");
               ("avatar",
                 VStr "https://via.placeholder.com/400x400/6366f1/ffffff?text=You");
               ("location", VStr "") ]);
      ("links",
        VArr [ link "My Website" "https://example.com" "Check out my main website"
                    "globe" true true false;
               link "Contact Me" "mailto:hello@example.com" "Get in touch via email"
                    "mail" true false true ]);
      ("socialMedia",
        VObj [ ("twitter", VStr ""); ("instagram", VStr ""); ("github", VStr "");
               ("linkedin", VStr ""); ("youtube", VStr ""); ("tiktok", VStr "");
               ("discord", VStr ""); ("twitch", VStr "") ]);
      ("theme",
        VObj [ ("colorScheme", VStr "auto"); ("primaryColor", VStr "#6366f1");
               ("backgroundStyle", VStr "gradient"); ("backgroundImage", VStr "");
               ("fontFamily", VStr "inter"); ("buttonStyle", VStr "rounded");
               ("buttonAnimation", VStr "scale"); ("showBorder", VBool true) ]);
      ("layout",
        VObj [ ("maxWidth", VStr "md"); ("alignment", VStr "center");
               ("spacing", VStr "normal"); ("showProfileFirst", VBool true);
               ("showSocialMedia", VBool true);
               ("socialMediaPosition", VStr "bottom") ]);
      ("seo",
        VObj [ ("title", VStr "My Links");
               ("description", VStr "Find all my important links in one place");
               ("keywords", VStr "links, profile, bio, social media");
               ("favicon", VStr "") ]);
      ("analytics",
        VObj [ ("googleAnalyticsId", VStr ""); ("facebookPixelId", VStr "");
               ("trackClicks", VBool true); ("trackSocialClicks", VBool true) ]);
      ("advanced",
        VObj [ ("enablePWA", VBool false); ("enableDarkMode", VBool true);
               ("enableAnimations", VBool true); ("preloadImages", VBool true) ]) ].

(** [item && typeof item === 'object' && !Array.isArray(item)] *)
Definition isObject (item : value) : bool :=
  truthy item && typeof_object item && negb (is_array item).

(** One turn of the loop of [mergeConfig], on the key [key] of the
    override; [recurse] is the recursive call on the override's value. *)
Definition merge_step (base : value) (key : string) (overrideValue : value)
    (recurse : value -> result value) (result : list (string * value))
  : JS.result (list (string * value)) :=
  baseValue <- get base key ;;
  if is_undefined overrideValue then Ok result
  else if isObject overrideValue && isObject baseValue && negb (is_array overrideValue)
  then (merged <- recurse baseValue ;; Ok (set_prop result key merged))
  else Ok (set_prop result key overrideValue).

(** The loop of [mergeConfig] over the keys of a record override, and
    over the indices of an array override; [merge] is [mergeConfig]
    itself. *)
Definition merge_props (merge : value -> value -> result value) (base : value) :=
  fix loop (ps : list (string * value)) (result : list (string * value))
    {struct ps} : JS.result (list (string * value)) :=
    match ps with
    | [] => Ok result
    | (key, overrideValue) :: rest =>
        result' <- merge_step base key overrideValue
                     (fun baseValue => merge baseValue overrideValue) result ;;
        loop rest result'
    end.

Definition merge_elems (merge : value -> value -> result value) (base : value) :=
  fix loop (index : nat) (es : list value) (result : list (string * value))
    {struct es} : JS.result (list (string * value)) :=
    match es with
    | [] => Ok result
    | overrideValue :: rest =>
        result' <- merge_step base (Str.of_nat index) overrideValue
                     (fun baseValue => merge baseValue overrideValue) result ;;
        loop (S index) rest result'
    end.

(** [mergeConfig]: [result] starts as a copy of the own properties of
    [base], and the loop visits the enumerable keys of [override]. *)
Fixpoint mergeConfig (base override : value) {struct override} : result value :=
  match override with
  | VObj props =>
      r <- merge_props mergeConfig base props (own_props base) ;;
      Ok (VObj r)
  | VArr elems =>
      r <- merge_elems mergeConfig base 0 elems (own_props base) ;;
      Ok (VObj r)
  | VStr _ =>
      (* the keys of a string are its indices and the values are
         one-character strings, on which [isObject] fails: no recursive
         call is made *)
      r <- merge_props (fun _ v => Ok v) base (own_props override) (own_props base) ;;
      Ok (VObj r)
  | _ => Ok (VObj (own_props base))
  end.

Section WithPlatform.
Context `{P : Platform}.

Definition isValidUrl (url : value) : bool := Validation.validateUrl url.

Definition isValidHexColor (color : value) : bool := Validation.validateHexColor color.

Definition validColorSchemes : list string := ["light"; "dark"; "auto"].

(** [validColorSchemes.includes(v)] *)
Definition is_color_scheme (v : value) : bool :=
  match v with
  | VStr s => existsb (String.eqb s) validColorSchemes
  | _ => false
  end.

(** [!v || typeof v !== 'string'] *)
Definition missing_string (v : value) : bool := negb (truthy v) || negb (is_string v).

Definition push_if := Validation.push_if.

(** The loader's own structural validator (exported, not called by
    [loadConfig]). *)
Definition validateLoaderLink (index : nat) (link : value)
  : result (list ConfigError * list ConfigError) :=
  let prefix := ("links[" ++ Str.of_nat index ++ "]")%string in
  title <- get link "title" ;;
  url <- get link "url" ;;
  enabled <- get link "enabled" ;;
  Ok (push_if (missing_string title) (prefix ++ ".title")
              "Link title is required and must be a string"
      ++ (if missing_string url
          then push_if true (prefix ++ ".url") "Link URL is required and must be a string"
          else push_if (negb (isValidUrl url)) (prefix ++ ".url")
                       "Link URL must be a valid URL"),
      push_if (negb (is_boolean enabled)) (prefix ++ ".enabled")
              "Link enabled should be a boolean").

Fixpoint validateLoaderLinks (index : nat) (links : list value)
  : result (list ConfigError * list ConfigError) :=
  match links with
  | [] => Ok ([], [])
  | link :: rest =>
      ew <- validateLoaderLink index link ;;
      ews <- validateLoaderLinks (S index) rest ;;
      Ok (fst ew ++ fst ews, snd ew ++ snd ews)
  end.

Definition validateConfig (config : value) : result ValidationResult :=
  (* Validate profile section *)
  profile <- get config "profile" ;;
  pe <- (if negb (truthy profile)
         then Ok (push_if true "profile" "Profile section is required", [])
         else
           name <- get profile "name" ;;
           bio <- get profile "bio" ;;
           avatar <- get profile "avatar" ;;
           Ok (push_if (missing_string name) "profile.name"
                       "Profile name is required and must be a string"
               ++ push_if (missing_string bio) "profile.bio"
                          "Profile bio is required and must be a string"
               ++ push_if (missing_string avatar) "profile.avatar"
                          "Profile avatar URL is required and must be a string",
               push_if (negb (missing_string avatar) && negb (isValidUrl avatar))
                       "profile.avatar" "Profile avatar should be a valid URL")) ;;
  (* Validate links array *)
  links <- get config "links" ;;
  le <- (match links with
         | VArr l => validateLoaderLinks 0 l
         | _ => Ok (push_if true "links" "Links must be an array", [])
         end) ;;
  (* Validate theme section *)
  theme <- get config "theme" ;;
  te <- (if negb (truthy theme)
         then Ok (push_if true "theme" "Theme section is required")
         else
           colorScheme <- get theme "colorScheme" ;;
           primaryColor <- get theme "primaryColor" ;;
           Ok (push_if (negb (is_color_scheme colorScheme)) "theme.colorScheme"
                       "Color scheme must be one of: light, dark, auto"
               ++ push_if (negb (isValidHexColor primaryColor)) "theme.primaryColor"
                          "Primary color must be a valid hex color")) ;;
  (* Validate layout and SEO sections *)
  layout <- get config "layout" ;;
  seo <- get config "seo" ;;
  let errors :=
    fst pe ++ fst le ++ te
    ++ push_if (negb (truthy layout)) "layout" "Layout section is required"
    ++ push_if (negb (truthy seo)) "seo" "SEO section is required" in
  let warnings := snd pe ++ snd le in
  Ok {| isValid := is_nil errors; errors := errors; warnings := warnings |}.

(** The loader's own field filter (declared after [mergeConfig] in the
    source, and called nowhere). *)
Definition copy_if_string (source : value) (key : string)
    (target : list (string * value)) : result (list (string * value)) :=
  v <- get source key ;;
  Ok (if is_string v then set_prop target key v else target).

Definition or_default (test : value -> bool) (v fallback : value) : value :=
  if test v then v else fallback.

(** The test of [filter]: a record whose title and url are strings. *)
Definition keep_link (link : value) : bool :=
  truthy link && typeof_object link &&
  match get link "title", get link "url" with
  | Ok title, Ok url => is_string title && is_string url
  | _, _ => false
  end.

(** The callback of [map]. *)
Definition rebuild_link (link : value) : result value :=
  title <- get link "title" ;;
  url <- get link "url" ;;
  description <- get link "description" ;;
  icon <- get link "icon" ;;
  enabled <- get link "enabled" ;;
  newTab <- get link "newTab" ;;
  featured <- get link "featured" ;;
  Ok (VObj [ ("title", title);
             ("url", url);
             ("description", or_default is_string description (VStr ""));
             ("icon", or_default is_string icon (VStr "link"));
             ("enabled", or_default is_boolean enabled (VBool true));
             ("newTab", or_default is_boolean newTab (VBool true));
             ("featured", or_default is_boolean featured (VBool false)) ]).

Definition sanitizeConfig (config : value) : result value :=
  if negb (truthy config) || negb (typeof_object config) then Ok (VObj [])
  else
    (* Sanitize profile *)
    profile <- get config "profile" ;;
    s1 <- (if truthy profile && typeof_object profile then
             p1 <- copy_if_string profile "name" [] ;;
             p2 <- copy_if_string profile "bio" p1 ;;
             p3 <- copy_if_string profile "avatar" p2 ;;
             p4 <- copy_if_string profile "location" p3 ;;
             Ok [ ("profile", VObj p4) ]
           else Ok []) ;;
    (* Sanitize links *)
    links <- get config "links" ;;
    s2 <- (match links with
           | VArr l =>
               l' <- Validation.map_result rebuild_link (filter keep_link l) ;;
               Ok (set_prop s1 "links" (VArr l'))
           | _ => Ok s1
           end) ;;
    (* Sanitize theme *)
    theme <- get config "theme" ;;
    s3 <- (if truthy theme && typeof_object theme then
             colorScheme <- get theme "colorScheme" ;;
             primaryColor <- get theme "primaryColor" ;;
             let t1 := if is_color_scheme colorScheme
                       then [ ("colorScheme", colorScheme) ] else [] in
             let t2 := if isValidHexColor primaryColor
                       then set_prop t1 "primaryColor" primaryColor else t1 in
             Ok (set_prop s2 "theme" (VObj t2))
           else Ok s2) ;;
    Ok (VObj s3).

(** [loadUserConfig]: every failure of the request is caught and replaced
    by the empty record. *)
Definition loadUserConfig (f : fetch_behaviour) : result value :=
  try_catch
    (match f with
     | FetchRejects e => Throw e
     | FetchNotOk status => Throw (Error ("Failed to load config: " ++ Str.of_Z status))
     | FetchBodyRejects e => Throw e
     | FetchJson doc => Ok doc
     end)
    (fun _ => Ok (VObj [])).

(** The body of the [try] block of [loadConfig]. *)
Definition loadConfig_try (f : fetch_behaviour) : result value :=
  userConfig <- loadUserConfig f ;;
  mergedConfig <- mergeConfig DEFAULT_CONFIG userConfig ;;
  validation <- Validation.validateConfig mergedConfig ;;
  if negb (isValid validation) then
    (sanitized <- Validation.sanitizeConfig mergedConfig ;;
     mergeConfig DEFAULT_CONFIG sanitized)
  else Validation.sanitizeConfig mergedConfig.

Definition loadConfig (f : fetch_behaviour) : result value :=
  try_catch (loadConfig_try f) (fun _ => Ok DEFAULT_CONFIG).

End WithPlatform.

End ConfigLoader.

(** ** A reference platform

    A model of the URL parser of the platform on the URLs
    [scheme ":" rest] of these shapes, where it agrees with the URL
    standard; on any other input it answers [None].
    - [http], [https], [ws], [wss], [ftp]: any run of slashes, then
      [userinfo "@"] (optional), a host, [":" port] (optional), then the end
      or one of [/ \ ? #].  The host is a name made of ASCII letters,
      digits, [-], [_] and [.] whose last label is not a number, or four
      decimal numbers up to 255 separated by dots, or an IPv6 address
      between brackets without an embedded IPv4 address.
    - any other scheme except [file], when [rest] does not start with two
      slashes: the URL has no host.
    The coercion of a string to a number is modelled on decimal integers. *)

Module Reference.

Definition is_c0_or_space (c : ascii) : bool := nat_of_ascii c <=? 32.

Fixpoint trim_c0_start (s : string) : string :=
  match s with
  | EmptyString => EmptyString
  | String c r => if is_c0_or_space c then trim_c0_start r else s
  end.

Definition is_tab_or_newline (c : ascii) : bool :=
  let n := nat_of_ascii c in (n =? 9) || (n =? 10) || (n =? 13).

Fixpoint remove_tab_newline (s : string) : string :=
  match s with
  | EmptyString => EmptyString
  | String c r =>
      if is_tab_or_newline c then remove_tab_newline r
      else String c (remove_tab_newline r)
  end.

Definition preprocess (s : string) : string :=
  remove_tab_newline (Str.rev (trim_c0_start (Str.rev (trim_c0_start s)))).

Definition is_scheme_char (c : ascii) : bool :=
  Str.is_alpha c || Str.is_digit c
  || Ascii.eqb c "+" || Ascii.eqb c "-" || Ascii.eqb c ".".

(** Splits [s] at the first character that fails [keep]. *)
Fixpoint span (keep : ascii -> bool) (s : string) : string * string :=
  match s with
  | EmptyString => (EmptyString, EmptyString)
  | String c r =>
      if keep c then let (a, b) := span keep r in (String c a, b)
      else (EmptyString, s)
  end.

(** The scheme, in lower case, and what follows the colon. *)
Definition split_scheme (s : string) : option (string * string) :=
  match s with
  | EmptyString => None
  | String c _ =>
      if Str.is_alpha c then
        match span is_scheme_char s with
        | (scheme, String d rest) =>
            if Ascii.eqb d ":" then Some (Str.to_lower scheme, rest) else None
        | _ => None
        end
      else None
  end.

Definition is_slash (c : ascii) : bool := Ascii.eqb c "/" || Ascii.eqb c "\".

Definition ends_authority (c : ascii) : bool :=
  is_slash c || Ascii.eqb c "?" || Ascii.eqb c "#".

(** What follows the last [@] of [s], or [s] itself. *)
Fixpoint after_last_at (s : string) : string :=
  match s with
  | EmptyString => EmptyString
  | String c r =>
      if Str.includes "@" r then after_last_at r
      else if Ascii.eqb c "@" then r else s
  end.

(** Host and port of [host ":" port], the colon searched outside
    brackets. *)
Fixpoint split_port (in_brackets : bool) (s : string) : string * option string :=
  match s with
  | EmptyString => (EmptyString, None)
  | String c r =>
      if Ascii.eqb c ":" && negb in_brackets then (EmptyString, Some r)
      else
        let inb := if Ascii.eqb c "[" then true
                   else if Ascii.eqb c "]" then false else in_brackets in
        let (h, p) := split_port inb r in (String c h, p)
  end.

Fixpoint decimal_acc (s : string) (acc : Z) : Z :=
  match s with
  | EmptyString => acc
  | String c r => decimal_acc r (10 * acc + (Z.of_nat (nat_of_ascii c) - 48))%Z
  end.

Definition port_ok (p : string) : bool :=
  Str.forallb Str.is_digit p && (decimal_acc p 0 <=? 65535)%Z.

Fixpoint split_on (sep : ascii) (s : string) : list string :=
  match s with
  | EmptyString => [EmptyString]
  | String c r =>
      if Ascii.eqb c sep then EmptyString :: split_on sep r
      else match split_on sep r with
           | [] => [String c EmptyString]
           | x :: xs => String c x :: xs
           end
  end.

Definition is_name_char (c : ascii) : bool :=
  Str.is_alpha c || Str.is_digit c
  || Ascii.eqb c "-" || Ascii.eqb c "_" || Ascii.eqb c ".".

Definition is_number_label (l : string) : bool :=
  negb (String.eqb l "") && Str.forallb Str.is_digit l.

(** A decimal number up to 255 written without a leading zero. *)
Definition is_octet (l : string) : bool :=
  is_number_label l && (decimal_acc l 0 <=? 255)%Z
  && (String.eqb l "0" || negb (Str.starts_with "0" l)).

Definition last_label (labels : list string) : string :=
  match List.rev labels with
  | l :: l' :: _ => if String.eqb l "" then l' else l
  | [l] => l
  | [] => EmptyString
  end.

Definition hex_like_label (l : string) : bool :=
  Str.starts_with_ci "0x" l.

(** The host of a special URL, inside the fragment described above,
    brackets apart. *)
Definition parse_name_host (h : string) : option string :=
  if String.eqb h "" then None
  else if negb (Str.forallb is_name_char h) then None
  else if Str.includes_ci "xn--" h then None
  else
    let labels := split_on "." h in
    let l := last_label labels in
    if is_number_label l || hex_like_label l then
      if (List.length labels =? 4) && List.forallb is_octet labels then Some h else None
    else Some (Str.to_lower h).

(** *** IPv6 literals *)

Definition hex_value (c : ascii) : Z :=
  let n := Z.of_nat (nat_of_ascii (Str.lower c)) in
  if Str.is_digit c then (n - 48)%Z else (n - 87)%Z.

Fixpoint hex_acc (s : string) (acc : Z) : Z :=
  match s with
  | EmptyString => acc
  | String c r => hex_acc r (16 * acc + hex_value c)%Z
  end.

(** One to four hexadecimal digits. *)
Definition parse_piece (g : string) : option Z :=
  if (1 <=? String.length g) && (String.length g <=? 4) && Str.forallb Str.is_hex g
  then Some (hex_acc g 0) else None.

Fixpoint all_some {A} (l : list (option A)) : option (list A) :=
  match l with
  | [] => Some []
  | None :: _ => None
  | Some a :: r => match all_some r with Some r' => Some (a :: r') | None => None end
  end.

(** Pieces separated by single colons; no piece at all for the empty
    string. *)
Definition parse_pieces (s : string) : option (list Z) :=
  if String.eqb s "" then Some []
  else all_some (map parse_piece (split_on ":" s)).

(** The text before and after the first [::] of [s]. *)
Fixpoint split_compress (s : string) : option (string * string) :=
  match s with
  | EmptyString => None
  | String c r =>
      if Str.starts_with "::" s then Some (EmptyString, Str.drop 2 s)
      else match split_compress r with
           | Some (a, b) => Some (String c a, b)
           | None => None
           end
  end.

Definition parse_ipv6 (s : string) : option (list Z) :=
  match split_compress s with
  | None =>
      match parse_pieces s with
      | Some ps => if List.length ps =? 8 then Some ps else None
      | None => None
      end
  | Some (l, r) =>
      match parse_pieces l, parse_pieces r with
      | Some pl, Some pr =>
          let n := List.length pl + List.length pr in
          if n <=? 7 then Some (pl ++ repeat 0%Z (8 - n) ++ pr) else None
      | _, _ => None
      end
  end.

Definition hex_digit (n : Z) : ascii :=
  if (n <? 10)%Z then ascii_of_nat (Z.to_nat (48 + n)) else ascii_of_nat (Z.to_nat (87 + n)).

(** Lower-case hexadecimal, shortest form, of a number below 65536. *)
Definition hex_of_piece (p : Z) : string :=
  let d3 := (p / 4096)%Z in
  let d2 := ((p / 256) mod 16)%Z in
  let d1 := ((p / 16) mod 16)%Z in
  let d0 := (p mod 16)%Z in
  let s0 := String (hex_digit d0) EmptyString in
  if (0 <? d3)%Z then String (hex_digit d3) (String (hex_digit d2) (String (hex_digit d1) s0))
  else if (0 <? d2)%Z then String (hex_digit d2) (String (hex_digit d1) s0)
  else if (0 <? d1)%Z then String (hex_digit d1) s0
  else s0.

Fixpoint zero_run (l : list Z) : nat :=
  match l with
  | z :: r => if (z =? 0)%Z then S (zero_run r) else 0
  | [] => 0
  end.

(** Start and length of the first longest run of at least two zero
    pieces. *)
Fixpoint find_compress (l : list Z) (i : nat) (best : option (nat * nat))
  : option (nat * nat) :=
  match l with
  | [] => best
  | _ :: r =>
      let n := zero_run l in
      let longer := match best with Some (_, m) => m <? n | None => true end in
      find_compress r (S i) (if (2 <=? n) && longer then Some (i, n) else best)
  end.

Definition serialize_ipv6 (ps : list Z) : string :=
  match find_compress ps 0 None with
  | None => Str.join ":" (map hex_of_piece ps)
  | Some (start, len) =>
      (Str.join ":" (map hex_of_piece (firstn start ps)) ++ "::"
       ++ Str.join ":" (map hex_of_piece (skipn (start + len) ps)))%string
  end.

(** *** The parser *)

Definition parse_host (h : string) : option string :=
  match h with
  | String c r =>
      if Ascii.eqb c "[" then
        match Str.rev r with
        | String d inner_rev =>
            if Ascii.eqb d "]" then
              match parse_ipv6 (Str.rev inner_rev) with
              | Some ps => Some ("[" ++ serialize_ipv6 ps ++ "]")%string
              | None => None
              end
            else None
        | EmptyString => None
        end
      else parse_name_host h
  | EmptyString => None
  end.

Definition special_schemes : list string := ["http"; "https"; "ws"; "wss"; "ftp"].

Definition parse_special (scheme rest : string) : option URLRecord :=
  let (_, after_slashes) := span is_slash rest in
  let (authority, _) := span (fun c => negb (ends_authority c)) after_slashes in
  let (h, port) := split_port false (after_last_at authority) in
  if match port with Some p => port_ok p | None => true end then
    match parse_host h with
    | Some host => Some {| protocol := (scheme ++ ":")%string; hostname := host |}
    | None => None
    end
  else None.

Definition parse (input : string) : option URLRecord :=
  match split_scheme (preprocess input) with
  | None => None
  | Some (scheme, rest) =>
      if existsb (String.eqb scheme) special_schemes then parse_special scheme rest
      else if String.eqb scheme "file" || Str.starts_with "//" rest then None
      else Some {| protocol := (scheme ++ ":")%string; hostname := EmptyString |}
  end.

(** [s > n] on the decimal integers. *)
Definition gt (s : string) (n : Z) : bool :=
  let t := Str.trim s in
  match t with
  | EmptyString => (0 >? n)%Z
  | String c r =>
      if Str.forallb Str.is_digit t then (decimal_acc t 0 >? n)%Z
      else if negb (String.eqb r "") && Str.forallb Str.is_digit r then
        if Ascii.eqb c "-" then (- decimal_acc r 0 >? n)%Z
        else if Ascii.eqb c "+" then (decimal_acc r 0 >? n)%Z
        else false
      else false
  end.

Definition platform : Platform := {| url_parse := parse; str_gt := gt |}.

End Reference.

(** ** [mergeConfig] over a store

    The same function with object identity: records and arrays live in a
    store and a value refers to them by location, so that sharing between
    the arguments and the result can be stated. *)

Module Store.

Definition loc := nat.

Inductive sval : Type :=
| SUndef
| SNull
| SBool (b : bool)
| SNum (n : Z)
| SStr (s : string)
| SRef (l : loc).

Inductive cell : Type :=
| Record (props : list (string * sval))
| Array (elems : list sval).

Definition store := list cell.

Definition read (h : store) (l : loc) : option cell := nth_error h l.

(** A new object is placed at the first free location. *)
Definition alloc (h : store) (c : cell) : store * loc := (h ++ [c], List.length h).

Fixpoint write (h : store) (l : loc) (c : cell) : store :=
  match h, l with
  | [], _ => []
  | _ :: rest, O => c :: rest
  | x :: rest, S l' => x :: write rest l' c
  end.

Inductive outcome : Type :=
| Done (h : store) (v : sval)
| Raised
| OutOfFuel.

Definition own_props (h : store) (v : sval) : list (string * sval) :=
  match v with
  | SRef l =>
      match read h l with
      | Some (Record props) => props
      | Some (Array elems) => indexed elems
      | None => []
      end
  | SStr s => indexed (map SStr (Str.chars s))
  | _ => []
  end.

(** [v[k]]; [None] when the read throws. *)
Definition get (h : store) (v : sval) (k : string) : option sval :=
  match v with
  | SUndef | SNull => None
  | SBool _ | SNum _ => Some SUndef
  | SStr s =>
      if String.eqb k "length" then Some (SNum (Z.of_nat (String.length s)))
      else Some (match lookup k (own_props h v) with Some x => x | None => SUndef end)
  | SRef l =>
      match read h l with
      | Some (Array elems) =>
          if String.eqb k "length" then Some (SNum (Z.of_nat (List.length elems)))
          else Some (match lookup k (indexed elems) with
                     | Some x => x
                     | None => SUndef
                     end)
      | Some (Record props) =>
          Some (match lookup k props with Some x => x | None => SUndef end)
      | None => Some SUndef
      end
  end.

Definition is_array (h : store) (v : sval) : bool :=
  match v with
  | SRef l => match read h l with Some (Array _) => true | _ => false end
  | _ => false
  end.

Definition isObject (h : store) (v : sval) : bool :=
  match v with
  | SRef l => match read h l with Some (Record _) => true | _ => false end
  | _ => false
  end.

Definition is_undefined (v : sval) : bool :=
  match v with SUndef => true | _ => false end.

(** [result[key] = v], where [result] is the record at [r]. *)
Definition assign (h : store) (r : loc) (key : string) (v : sval) : store :=
  match read h r with
  | Some (Record props) => write h r (Record (set_prop props key v))
  | _ => h
  end.

(** The loop of [mergeConfig] over the entries of the override; [r] is the
    location of [result] and [merge] is [mergeConfig] itself. *)
Definition merge_entries (merge : store -> sval -> sval -> outcome)
    (base : sval) (r : loc) :=
  fix loop (entries : list (string * sval)) (h1 : store) {struct entries} : outcome :=
    match entries with
    | [] => Done h1 (SRef r)
    | (key, overrideValue) :: rest =>
        match get h1 base key with
        | None => Raised
        | Some baseValue =>
            if is_undefined overrideValue then loop rest h1
            else if isObject h1 overrideValue && isObject h1 baseValue
                    && negb (is_array h1 overrideValue)
            then match merge h1 baseValue overrideValue with
                 | Done h2 merged => loop rest (assign h2 r key merged)
                 | Raised => Raised
                 | OutOfFuel => OutOfFuel
                 end
            else loop rest (assign h1 r key overrideValue)
        end
    end.

(** [mergeConfig]: the result is allocated first, as a copy of the own
    properties of [base]; the loop then assigns to it.  [fuel] bounds the
    depth of the recursion. *)
Fixpoint mergeConfig (fuel : nat) (h : store) (base override : sval) : outcome :=
  match fuel with
  | O => OutOfFuel
  | S fuel' =>
      let (h0, r) := alloc h (Record (own_props h base)) in
      merge_entries (mergeConfig fuel') base r (own_props h override) h0
  end.

Fixpoint map_option {A B} (f : A -> option B) (l : list A) : option (list B) :=
  match l with
  | [] => Some []
  | a :: rest =>
      match f a, map_option f rest with
      | Some b, Some bs => Some (b :: bs)
      | _, _ => None
      end
  end.

Definition on_value {A B} (f : A -> option B) (kv : string * A) : option (string * B) :=
  match f (snd kv) with
  | Some b => Some (fst kv, b)
  | None => None
  end.

(** The value that [v] denotes in the store [h], read through the
    locations below [n] and down to depth [d]. *)
Fixpoint reify (n d : nat) (h : store) (v : sval) : option value :=
  match v with
  | SUndef => Some VUndef
  | SNull => Some VNull
  | SBool b => Some (VBool b)
  | SNum z => Some (VNum z)
  | SStr s => Some (VStr s)
  | SRef l =>
      match d with
      | O => None
      | S d' =>
          if l <? n then
            match read h l with
            | Some (Record props) =>
                option_map VObj (map_option (on_value (reify n d' h)) props)
            | Some (Array elems) =>
                option_map VArr (map_option (reify n d' h) elems)
            | None => None
            end
          else None
      end
  end.

(** Agreement of two stores below [n]. *)
Definition agree (n : nat) (h h' : store) : Prop :=
  forall l, l < n -> read h' l = read h l.

(** The value that [v] denotes in [h]: a finite tree, [None] when [v]
    reaches a location that holds nothing or lies deeper than [d]. *)
Definition denote (d : nat) (h : store) (v : sval) : option value :=
  reify (List.length h) d h v.

(** Two property lists with the same keys and related values. *)
Definition related {A B} (R : A -> B -> Prop) (skv : string * A) (kv : string * B) : Prop :=
  fst skv = fst kv /\ R (snd skv) (snd kv).

(** In the loop of a call started in the store [h] on inputs that live
    below [n0]: [sx] denotes [x] in every store that agrees with [h] on
    the inputs and with [hc] on the objects allocated after the result. *)
Definition robust (n0 depth : nat) (h hc : store) (sx : sval) (x : value) : Prop :=
  forall h'',
    agree n0 h h'' ->
    (forall l, List.length h < l -> l < List.length hc -> read h'' l = read hc l) ->
    reify (List.length hc) depth h'' sx = Some x.

(** The invariant of the loop of [mergeConfig] started in the store [h]
    with its result at [r]: the objects of [h] are as they were, and [r]
    holds a record. *)
Definition loop_inv (h : store) (r : loc) (h1 : store) : Prop :=
  (forall l, l < List.length h -> read h1 l = read h l)
  /\ exists ps, read h1 r = Some (Record ps).

End Store.

(** ** The rate limiter of [src/utils/validation.ts]

    The [Map] of the limiter is the list of its entries in insertion
    order, and the clock [Date.now()] is the argument [now] of
    [isAllowed].  Times and counts are integers. *)

Module RateLimiter.

Record attempt : Type := {
  count : Z;
  resetTime : Z
}.

Definition attempts : Type := list (string * attempt).

(** [Map.prototype.delete] *)
Fixpoint delete (key : string) (m : attempts) : attempts :=
  match m with
  | [] => []
  | (k, record) :: rest =>
      if String.eqb key k then delete key rest else (k, record) :: delete key rest
  end.

(** A parameter with a default value: [None] is an argument left out. *)
Definition or_default (arg : option Z) (d : Z) : Z :=
  match arg with
  | Some z => z
  | None => d
  end.

(** [isAllowed]: the answer, and the map after the call.  [record.count++]
    changes the entry in place. *)
Definition isAllowed (key : string) (maxAttempts windowMs : option Z) (now : Z)
    (m : attempts) : bool * attempts :=
  let maxAttempts := or_default maxAttempts 10 in
  let windowMs := or_default windowMs 60000 in
  let restart :=
    (true, set_prop m key {| count := 1; resetTime := (now + windowMs)%Z |}) in
  match lookup key m with
  | None => restart
  | Some record =>
      if (now >? resetTime record)%Z then restart
      else if (count record >=? maxAttempts)%Z then (false, m)
      else (true, set_prop m key {| count := (count record + 1)%Z;
                                    resetTime := resetTime record |})
  end.

Definition reset (key : string) (m : attempts) : attempts := delete key m.

(** [new RateLimiter()] *)
Definition configUpdateRateLimit : attempts := [].

(** A caller: the answers to successive calls of [isAllowed] for one key
    at the times [times], and the map after the last call. *)
Fixpoint answers (key : string) (maxAttempts windowMs : option Z) (times : list Z)
    (m : attempts) : list bool * attempts :=
  match times with
  | [] => ([], m)
  | now :: rest =>
      let (a, m') := isAllowed key maxAttempts windowMs now m in
      let (l, m'') := answers key maxAttempts windowMs rest m' in
      (a :: l, m'')
  end.

End RateLimiter.

(** ** Records and their prototype

    Every record inherits the members of [Object.prototype].  A record
    made by [JSON.parse] holds no function, so an own property [toString]
    of such a record hides the inherited method with a value that cannot
    be called: the built-in operations that convert their argument to a
    string ([RegExp.prototype.test] and [exec], a computed property key, a
    template literal) then throw a [TypeError].  An array is converted
    with [join], which converts each element other than [null] and
    [undefined]. *)

Definition inherited_names : list string :=
  [ "constructor"; "hasOwnProperty"; "isPrototypeOf"; "propertyIsEnumerable";
    "toLocaleString"; "toString"; "valueOf"; "__proto__"; "__defineGetter__";
    "__defineSetter__"; "__lookupGetter__"; "__lookupSetter__" ].

(** The values that [ToString] converts without throwing. *)
Fixpoint printable (v : value) : bool :=
  match v with
  | VObj props =>
      match lookup "toString" props with
      | Some _ => false
      | None => true
      end
  | VArr elems => forallb printable elems
  | _ => true
  end.

(** [ToString], with its exception. *)
Definition ToString (v : value) : result string :=
  if printable v then Ok (to_string v)
  else Throw (TypeError "Cannot convert object to primitive value").

(** ** The theme applicators of [src/utils/config-loader.ts]

    The style of the root element is seen through the calls made on it,
    in order; its class list is the list of its tokens.  The answer of the
    media query [(prefers-color-scheme: dark)] is the argument
    [prefersDark]. *)

Module Theme.

(** A call on the style of the root element.  [SetInherited name member]
    is [setProperty(name, f)] where [f] is the member of
    [Object.prototype] called [member]. *)
Inductive style_call : Type :=
| SetProperty (name : string) (v : value)
| SetInherited (name : string) (member : string)
| RemoveProperty (name : string).

Definition hex_digit (c : ascii) : Z :=
  let n := Z.of_nat (nat_of_ascii c) in
  if Str.is_digit c then (n - 48)%Z
  else if Str.is_upper c then (n - 55)%Z
  else (n - 87)%Z.

(** [parseInt(s, 16)] on a string of hexadecimal digits. *)
Fixpoint parseInt16_acc (s : string) (acc : Z) : Z :=
  match s with
  | EmptyString => acc
  | String c rest => parseInt16_acc rest (16 * acc + hex_digit c)%Z
  end.

Definition parseInt16 (s : string) : Z := parseInt16_acc s 0.

Record rgb : Type := {
  r : Z;
  g : Z;
  b : Z
}.

(** The pattern of [hexToRgb] on a string: an optional [#], then three
    groups of two hexadecimal digits, of either case, up to the end of the
    string; each group is read by [parseInt]. *)
Definition hex_groups (s : string) : option rgb :=
  let digits :=
    match s with
    | String c rest => if Ascii.eqb c "#" then rest else s
    | EmptyString => s
    end in
  match digits with
  | String r1 (String r2 (String g1 (String g2 (String b1 (String b2 EmptyString))))) =>
      if Str.forallb Str.is_hex digits
      then Some {| r := parseInt16 (String r1 (String r2 EmptyString));
                   g := parseInt16 (String g1 (String g2 EmptyString));
                   b := parseInt16 (String b1 (String b2 EmptyString)) |}
      else None
  | _ => None
  end.

(** [hexToRgb]: [exec] converts its argument to a string first. *)
Definition hexToRgb (hex : value) : result (option rgb) :=
  s <- ToString hex ;; Ok (hex_groups s).

Definition fontFamilyMap : list (string * value) :=
  [ ("inter", VStr "Inter, system-ui, sans-serif");
    ("poppins", VStr "Poppins, system-ui, sans-serif");
    ("roboto", VStr "Roboto, system-ui, sans-serif");
    ("montserrat", VStr "Montserrat, system-ui, sans-serif");
    ("playfair", VStr "Playfair Display, serif") ].

(** [v === s] for a string literal [s]. *)
Definition is_the_string (v : value) (s : string) : bool :=
  match v with
  | VStr t => String.eqb t s
  | _ => false
  end.

(** The template literal that renders the three channels. *)
Definition rgb_text (c : rgb) : value :=
  VStr (Str.of_Z (r c) ++ ", " ++ Str.of_Z (g c) ++ ", " ++ Str.of_Z (b c))%string.

(** [setProperty('--font-family', fontFamilyMap[key])]: the table is a
    record, so a key that it does not own is looked up in
    [Object.prototype]. *)
Definition set_font (key : string) : style_call :=
  match lookup key fontFamilyMap with
  | Some font => SetProperty "--font-family" font
  | None =>
      if existsb (String.eqb key) inherited_names
      then SetInherited "--font-family" key
      else SetProperty "--font-family" VUndef
  end.

(** [applyThemeVariables]: the calls made on the style of the root
    element, in order, and the exception that ends the function, if any.
    The calls made before an exception stay made. *)
Definition applyThemeVariables (theme : value) : list style_call * option exn :=
  match (primaryColor <- get theme "primaryColor" ;;
         primaryRgb <- hexToRgb primaryColor ;;
         Ok (primaryColor, primaryRgb)) with
  | Throw e => ([], Some e)
  | Ok (primaryColor, primaryRgb) =>
      let colour :=
        [ SetProperty "--primary-color" primaryColor ]
        ++ match primaryRgb with
           | Some c => [ SetProperty "--primary-color-rgb" (rgb_text c) ]
           | None => []
           end in
      match (fontFamily <- get theme "fontFamily" ;; ToString fontFamily) with
      | Throw e => (colour, Some e)
      | Ok key =>
          let font := colour ++ [ set_font key ] in
          match (backgroundStyle <- get theme "backgroundStyle" ;;
                 backgroundImage <- get theme "backgroundImage" ;;
                 if is_the_string backgroundStyle "image" && truthy backgroundImage
                 then image <- ToString backgroundImage ;;
                      Ok (SetProperty "--background-image"
                            (VStr ("url(" ++ image ++ ")")%string))
                 else Ok (RemoveProperty "--background-image")) with
          | Throw e => (font, Some e)
          | Ok call => (font ++ [ call ], None)
          end
      end
  end.

Definition getEffectiveColorScheme (prefersDark : bool) (colorScheme : value) : value :=
  if is_the_string colorScheme "auto"
  then VStr (if prefersDark then "dark" else "light")
  else colorScheme.

(** [DOMTokenList.add] and [DOMTokenList.remove] *)
Definition add (token : string) (classList : list string) : list string :=
  if existsb (String.eqb token) classList then classList else classList ++ [token].

Definition remove (token : string) (classList : list string) : list string :=
  filter (fun t => negb (String.eqb token t)) classList.

Definition applyColorScheme (prefersDark : bool) (colorScheme : value)
    (classList : list string) : list string :=
  let isDark := is_the_string (getEffectiveColorScheme prefersDark colorScheme) "dark" in
  if isDark then add "dark" classList else remove "dark" classList.

End Theme.

(** ** [src/components/ThemeProvider.tsx]

    The state of the provider is the configuration it holds; the document
    is the style and the class list of the root element, and the list of
    the arguments of the calls of [updateSEOMetadata].  A handler is run
    on the values of the render in which it was created. *)

Module ThemeProvider.

(** [item && typeof item === 'object' && !Array.isArray(item)] *)
Definition isObject (item : value) : bool :=
  truthy item && typeof_object item && negb (is_array item).

(** One turn of the loop of [mergeDeep]. *)
Definition deep_step (target : value) (key : string) (sourceValue : value)
    (recurse : value -> result value) (result : list (string * value))
  : JS.result (list (string * value)) :=
  targetValue <- get target key ;;
  if is_undefined sourceValue then Ok result
  else if isObject sourceValue && isObject targetValue && negb (is_array sourceValue)
  then (merged <- recurse targetValue ;; Ok (set_prop result key merged))
  else Ok (set_prop result key sourceValue).

Definition deep_props (merge : value -> value -> result value) (target : value) :=
  fix loop (ps : list (string * value)) (result : list (string * value))
    {struct ps} : JS.result (list (string * value)) :=
    match ps with
    | [] => Ok result
    | (key, sourceValue) :: rest =>
        result' <- deep_step target key sourceValue
                     (fun targetValue => merge targetValue sourceValue) result ;;
        loop rest result'
    end.

Definition deep_elems (merge : value -> value -> result value) (target : value) :=
  fix loop (index : nat) (es : list value) (result : list (string * value))
    {struct es} : JS.result (list (string * value)) :=
    match es with
    | [] => Ok result
    | sourceValue :: rest =>
        result' <- deep_step target (Str.of_nat index) sourceValue
                     (fun targetValue => merge targetValue sourceValue) result ;;
        loop (S index) rest result'
    end.

(** [mergeDeep]: the private copy of the merge of the loader. *)
Fixpoint mergeDeep (target source : value) {struct source} : result value :=
  match source with
  | VObj props =>
      res <- deep_props mergeDeep target props (own_props target) ;;
      Ok (VObj res)
  | VArr elems =>
      res <- deep_elems mergeDeep target 0 elems (own_props target) ;;
      Ok (VObj res)
  | VStr _ =>
      res <- deep_props (fun _ v => Ok v) target (own_props source) (own_props target) ;;
      Ok (VObj res)
  | _ => Ok (VObj (own_props target))
  end.

Record document : Type := {
  style : list Theme.style_call;
  classList : list string;
  seo : list value
}.

Record provider : Type := {
  config : value;
  dom : document
}.

(** The value of [isDarkMode] computed by a render. *)
Definition isDarkMode (prefersDark : bool) (config : value) : result bool :=
  if negb (truthy config) then Ok false
  else
    theme <- get config "theme" ;;
    colorScheme <- get theme "colorScheme" ;;
    Ok (Theme.is_the_string (Theme.getEffectiveColorScheme prefersDark colorScheme) "dark").

(** [applyThemeVariables(newConfig.theme)] followed by
    [applyColorScheme(newConfig.theme.colorScheme)]: the document after
    the two calls, and the exception that interrupts them, if any. *)
Definition apply_theme (prefersDark : bool) (newConfig : value) (d : document)
  : document * option exn :=
  match get newConfig "theme" with
  | Throw e => (d, Some e)
  | Ok theme =>
      let (calls, raised) := Theme.applyThemeVariables theme in
      let d1 := {| style := style d ++ calls; classList := classList d; seo := seo d |} in
      match raised with
      | Some e => (d1, Some e)
      | None =>
          match get theme "colorScheme" with
          | Throw e => (d1, Some e)
          | Ok colorScheme =>
              ({| style := style d1;
                  classList :=
                    Theme.applyColorScheme prefersDark colorScheme (classList d1);
                  seo := seo d1 |}, None)
          end
      end
  end.

(** [updateSEOMetadata(newConfig.seo)] *)
Definition apply_seo (newConfig : value) (d : document) : document * option exn :=
  match get newConfig "seo" with
  | Throw e => (d, Some e)
  | Ok newSeo =>
      ({| style := style d; classList := classList d; seo := seo d ++ [ newSeo ] |},
       None)
  end.

(** What [updateConfig] does to the document once the state is set. *)
Definition apply_updates (prefersDark : bool) (newConfig updates : value) (d : document)
  : document * option exn :=
  match get updates "theme" with
  | Throw e => (d, Some e)
  | Ok updatesTheme =>
      let (d1, raised) :=
        if truthy updatesTheme then apply_theme prefersDark newConfig d else (d, None) in
      match raised with
      | Some e => (d1, Some e)
      | None =>
          match get updates "seo" with
          | Throw e => (d1, Some e)
          | Ok updatesSeo =>
              if truthy updatesSeo then apply_seo newConfig d1 else (d1, None)
          end
      end
  end.

(** [updateConfig]: the provider after the call, and the exception that
    leaves the handler, if any.  An exception raised after [setConfig]
    leaves the new configuration in place, and the document with the calls
    made before the exception. *)
Definition updateConfig (prefersDark : bool) (updates : value) (p : provider)
  : provider * option exn :=
  if negb (truthy (config p)) then (p, None)
  else match mergeDeep (config p) updates with
       | Throw e => (p, Some e)
       | Ok newConfig =>
           let (d, raised) := apply_updates prefersDark newConfig updates (dom p) in
           ({| config := newConfig; dom := d |}, raised)
       end.

(** [toggleDarkMode], with the value of [isDarkMode] it has captured. *)
Definition toggleDarkMode (prefersDark : bool) (isDarkMode : bool) (p : provider)
  : provider * option exn :=
  if negb (truthy (config p)) then (p, None)
  else
    let newColorScheme := if isDarkMode then "light" else "dark" in
    updateConfig prefersDark
      (VObj [ ("theme", VObj [ ("colorScheme", VStr newColorScheme) ]) ]) p.

End ThemeProvider.

(** ** Sample documents and stores *)

Import ConfigLoader.

Definition default_avatar : string :=
  "https://via.placeholder.com/400x400/6366f1/ffffff?text=You".

Definition avatar_error : ConfigError :=
  {| field := "profile.avatar"; message := "Invalid avatar URL format" |}.

(** The request failed: [fetch] threw, the response was not [ok], or its
    body was not JSON. *)
Definition fetch_throws (f : fetch_behaviour) : Prop :=
  match f with
  | FetchJson _ => False
  | _ => True
  end.

(** The defaults with another [profile]. *)
Definition config_with_profile (profile : value) : value :=
  VObj (set_prop (own_props DEFAULT_CONFIG) "profile" profile).

Definition valid_avatar : string := "https://example.com/me.png".

(** A user document that passes validation after the merge, and whose
    name grows beyond 50 characters when its ampersands are escaped. *)
Definition ampersand_name : string := "Rock & Roll & Rhythm & Blues & Soul & Funk & Jazz".

Definition ampersand_document : value :=
  VObj [ ("profile", VObj [ ("name", VStr ampersand_name);
                            ("avatar", VStr valid_avatar) ]) ].

Definition bad_link : value :=
  link "Bad" "javascript:alert(1)" "an unsafe link" "link" true true false.

Definition good_link : value :=
  link "Good" "https://example.com" "a safe link" "link" true true false.

Definition mixed_links_document : value :=
  VObj [ ("profile", VObj [ ("avatar", VStr valid_avatar) ]);
         ("links", VArr [ bad_link; good_link ]) ].

Definition profile_without_bio : value :=
  VObj [ ("name", VStr "Your Name"); ("bio", VStr "");
         ("avatar", VStr valid_avatar); ("location", VStr "") ].

Definition profile_bio_absent : value :=
  VObj [ ("name", VStr "Your Name"); ("avatar", VStr valid_avatar) ].

(** An override with a cleared name, an [undefined] theme and one link. *)
Definition sample_override : list (string * value) :=
  [ ("profile", VObj [ ("name", VStr "") ]);
    ("theme", VUndef);
    ("links", VArr [ good_link ]) ].

(** A store with a base at location 0 and an override at location 3. *)
Definition sample_store : Store.store :=
  [ Store.Record [ ("profile", Store.SRef 1); ("links", Store.SRef 2) ];
    Store.Record [ ("name", Store.SStr "Your Name") ];
    Store.Array [];
    Store.Record [ ("profile", Store.SRef 7); ("links", Store.SRef 4);
                   ("footer", Store.SRef 6) ];
    Store.Array [ Store.SRef 5 ];
    Store.Record [ ("title", Store.SStr "Blog") ];
    Store.Record [ ("text", Store.SStr "made with care") ];
    Store.Record [ ("name", Store.SStr "Ada") ] ].

(** The value [v] is a reference to a plain record of the store [h]. *)
Definition record_at (h : Store.store) (v : Store.sval) : bool :=
  match v with
  | Store.SRef l =>
      match nth_error h l with
      | Some (Store.Record _) => true
      | _ => false
      end
  | _ => false
  end.

(** C9 as the claim states it, at one base and one override: every object
    that the result holds under one of its keys is new. *)
Definition result_unshared (h : Store.store) (base override : Store.sval) : Prop :=
  forall fuel h' r props key l,
    Store.mergeConfig fuel h base override = Store.Done h' (Store.SRef r) ->
    Store.read h' r = Some (Store.Record props) ->
    lookup key props = Some (Store.SRef l) ->
    List.length h <= l.

(** ** Predicates of the statements *)

(** The text [s] has no occurrence of the character [c]. *)
Definition free_of (c : ascii) (s : string) : bool :=
  Str.forallb (fun a => negb (Ascii.eqb a c)) s.

(** The number of occurrences of [c] in [s]. *)
Fixpoint occurrences (c : ascii) (s : string) : nat :=
  match s with
  | EmptyString => 0
  | String a rest => (if Ascii.eqb a c then 1 else 0) + occurrences c rest
  end.

(** The characters that [sanitizeText] replaces, [&] apart. *)
Definition markup : list ascii :=
  [ "<"%char; ">"%char; Validation.quot; Validation.apos; "/"%char ].

(** A text without any of the five characters of [markup]. *)
Definition clean (s : string) : bool := forallb (fun c => free_of c s) markup.

(** The characters of the identifiers that the validators accept: the
    letters, the digits, [_], [.] and [-]. *)
Definition identifier_char (c : ascii) : bool :=
  Str.is_alpha c || Str.is_digit c || Ascii.eqb c "_" || Ascii.eqb c "."
  || Ascii.eqb c "-".

(** A link that the schema validator lets through. *)
Definition accepted_link `{P : Platform} (link : value) : Prop :=
  exists title url,
    get link "title" = Ok title /\ truthy title = true
    /\ get link "url" = Ok url /\ Validation.validateUrl url = true.

(** The shape of a configuration that the presentation reads. *)
Definition clean_field (v : value) (key : string) : Prop :=
  exists s, get v key = Ok (VStr s) /\ clean s = true.

(** The value under [key] is not [null] or [undefined]. *)
Definition present (v : value) (key : string) : Prop :=
  exists x, get v key = Ok x /\ nullish x = false.

Definition well_shaped (v : value) : Prop :=
  (exists profile,
     get v "profile" = Ok profile
     /\ clean_field profile "name" /\ clean_field profile "bio")
  /\ (exists links,
        get v "links" = Ok (VArr links)
        /\ Forall (fun link => clean_field link "title") links)
  /\ (exists seo,
        get v "seo" = Ok seo
        /\ clean_field seo "title" /\ clean_field seo "description"
        /\ clean_field seo "keywords")
  /\ present v "socialMedia" /\ present v "theme" /\ present v "analytics".

(** A link as the field filter of the loader rebuilds it. *)
Definition typed_link (v : value) : Prop :=
  exists title url description icon enabled newTab featured,
    v = link title url description icon enabled newTab featured.

(** The value under [key] is a string that is not empty. *)
Definition nonempty_string_field (v : value) (key : string) : Prop :=
  exists s, get v key = Ok (VStr s) /\ s <> "".

(** A link that the structural validator of the loader lets through. *)
Definition loader_accepted_link `{P : Platform} (link : value) : Prop :=
  nonempty_string_field link "title"
  /\ exists url, get link "url" = Ok (VStr url) /\ url <> ""
                 /\ Validation.validateUrl (VStr url) = true.

(** No window of [key] is open at the time [now]. *)
Definition window_closed (key : string) (now : Z) (m : RateLimiter.attempts) : Prop :=
  match lookup key m with
  | None => True
  | Some record => (RateLimiter.resetTime record < now)%Z
  end.

(** The two calls give the same answer for [key] and leave the same
    record of [key]. *)
Definition same_answer (key : string) (maxAttempts windowMs : option Z) (now : Z)
    (m m' : RateLimiter.attempts) : Prop :=
  fst (RateLimiter.isAllowed key maxAttempts windowMs now m')
  = fst (RateLimiter.isAllowed key maxAttempts windowMs now m)
  /\ lookup key (snd (RateLimiter.isAllowed key maxAttempts windowMs now m'))
     = lookup key (snd (RateLimiter.isAllowed key maxAttempts windowMs now m)).

(** A colour channel. *)
Definition channel (n : Z) : Prop := (0 <= n <= 255)%Z.

(** No key is repeated in a record, at any depth below [v]: what holds of
    every object of the language. *)
Fixpoint distinct (keys : list string) : bool :=
  match keys with
  | [] => true
  | k :: rest => negb (existsb (String.eqb k) rest) && distinct rest
  end.

Fixpoint unique_keys (v : value) : bool :=
  match v with
  | VObj props =>
      distinct (map fst props) && forallb (fun kv => unique_keys (snd kv)) props
  | _ => true
  end.

(** The properties whose value is not [undefined]. *)
Definition defined (props : list (string * value)) : list (string * value) :=
  filter (fun kv => negb (is_undefined (snd kv))) props.

(** A key that names no member of [Object.prototype].  Under the other
    keys the source reads or writes the inherited member, where the
    embedding sees an own property or [undefined]. *)
Definition own_name (key : string) : bool :=
  negb (existsb (String.eqb key) inherited_names).

(** No record at any depth below [v] has a key that names a member of
    [Object.prototype].  On such a value a property read finds an own
    property or nothing, and every conversion to a string or to a number
    returns. *)
Fixpoint plain (v : value) : bool :=
  match v with
  | VObj props => forallb (fun kv => own_name (fst kv) && plain (snd kv)) props
  | VArr elems => forallb plain elems
  | _ => true
  end.

(** No record at any depth below [v] has the key [__proto__].  Assigning
    under that key sets the prototype of a record that does not own the
    key, and reading it gives the prototype. *)
Fixpoint proto_free (v : value) : bool :=
  match v with
  | VObj props =>
      forallb (fun kv => negb (String.eqb (fst kv) "__proto__") && proto_free (snd kv))
        props
  | VArr elems => forallb proto_free elems
  | _ => true
  end.

(** A key that is enumerated where it was inserted: not [__proto__], and
    not a string of digits, which may be an array index and is then
    enumerated before the other keys. *)
Definition ordinary_key (key : string) : bool :=
  negb (String.eqb key "__proto__")
  && negb (negb (String.eqb key "") && Str.forallb Str.is_digit key).


(** The values that [applyThemeVariables] converts to a string can be
    converted. *)
Definition theme_printable (theme : value) : Prop :=
  forall key x,
    In key [ "primaryColor"; "fontFamily"; "backgroundImage" ] ->
    get theme key = Ok x -> printable x = true.

(** A configuration that the schema validator can read to the end: its
    sections are there, its links are not [null], and its image fields
    are strings or falsy. *)
Definition string_or_falsy (v : value) : Prop := truthy v = false \/ is_string v = true.

Definition readable (config : value) : Prop :=
  Forall (present config)
    [ "profile"; "links"; "socialMedia"; "theme"; "seo"; "analytics" ]
  /\ (exists links,
        get config "links" = Ok (VArr links)
        /\ Forall (fun link => nullish link = false) links)
  /\ Forall (fun path =>
               exists v, Validation.get2 config (fst path) (snd path) = Ok v
                         /\ string_or_falsy v)
       [ ("profile", "avatar"); ("theme", "backgroundImage"); ("seo", "favicon") ].

(** The error that the schema validator records for the URL of the link
    at position [index]. *)
Definition url_error (index : nat) : ConfigError :=
  {| field := ("links[" ++ Str.of_nat index ++ "]") ++ ".url";
     message := "Invalid URL format" |}.

(** The defaults with other links. *)
Definition with_links (links : list value) : value :=
  VObj (set_prop (own_props DEFAULT_CONFIG) "links" (VArr links)).

(** * Properties *)

(** ** Strings *)

Lemma eqb_ci_of_eqb (a b : ascii) : Ascii.eqb a b = true -> Str.eqb_ci a b = true.
Proof.
  intros E. apply Ascii.eqb_eq in E. subst b.
  unfold Str.eqb_ci. apply Ascii.eqb_refl.
Qed.

Lemma starts_with_ci_of_starts_with (p s : string) :
  Str.starts_with p s = true -> Str.starts_with_ci p s = true.
Proof.
  revert s. induction p as [|a p IH]; intros s; simpl; [reflexivity|].
  destruct s as [|b s]; [discriminate|].
  intros E. apply andb_true_iff in E. destruct E as [Eab Eps].
  rewrite (eqb_ci_of_eqb _ _ Eab), (IH _ Eps). reflexivity.
Qed.

Lemma includes_ci_of_includes (p s : string) :
  Str.includes p s = true -> Str.includes_ci p s = true.
Proof.
  induction s as [|c s IH]; simpl; intros E.
  - apply orb_true_iff in E. destruct E as [E|E]; [|discriminate].
    rewrite (starts_with_ci_of_starts_with _ _ E). reflexivity.
  - apply orb_true_iff in E. destruct E as [E|E].
    + rewrite (starts_with_ci_of_starts_with _ _ E). reflexivity.
    + rewrite (IH E). apply orb_true_r.
Qed.

(** ** The URL validator *)

Section UrlValidator.
Context `{P : Platform}.

(** The blocklist is tested on the whole string, whatever the parser
    made of it. *)
Lemma validateUrl_blocklist (s pattern : string) :
  In pattern Validation.dangerousPatterns ->
  Str.includes_ci pattern s = true ->
  Validation.validateUrl (VStr s) = false.
Proof.
  intros Hin Hinc. unfold Validation.validateUrl. simpl to_string.
  destruct (url_parse s) as [urlObj|]; [|reflexivity].
  destruct (negb _); [reflexivity|].
  apply negb_false_iff, existsb_exists.
  exists pattern. split; assumption.
Qed.

(** A URL that the parser rejects is not valid. *)
Lemma validateUrl_unparsable (s : string) :
  url_parse s = None -> Validation.validateUrl (VStr s) = false.
Proof. intros E. unfold Validation.validateUrl. simpl. rewrite E. reflexivity. Qed.

(** The image pattern, and so [validateImageUrl], rejects every string
    on which [imageExtensions] fails, whatever [validateUrl] says. *)
Lemma validateImageUrl_no_extension (s : string) :
  Validation.imageExtensions s = false ->
  Validation.validateImageUrl (VStr s) = Ok false.
Proof.
  intros E. unfold Validation.validateImageUrl.
  destruct (negb (Validation.validateUrl (VStr s))); [reflexivity|].
  destruct (_ && _); [reflexivity|]. rewrite E. reflexivity.
Qed.

End UrlValidator.

(** C10. The blocklist of [validateUrl] is matched against the whole URL
    string: a string that the parser accepts with an allowed scheme and
    that contains [javascript:], [data:], [vbscript:], [file:] or [ftp:]
    anywhere is rejected. *)
Theorem validateUrl_blocklist_whole_string `{P : Platform}
    (s pattern : string) (urlObj : URLRecord) :
  url_parse s = Some urlObj ->
  In (protocol urlObj) Validation.allowedProtocols ->
  In pattern Validation.dangerousPatterns ->
  Str.includes pattern s = true ->
  Validation.validateUrl (VStr s) = false.
Proof.
  intros _ _ Hin Hinc.
  apply (validateUrl_blocklist s pattern Hin).
  apply includes_ci_of_includes, Hinc.
Qed.

Lemma validateUrl_blocklist_whole_string_witness :
  url_parse (Platform := Reference.platform) "https://example.com/?next=data:1"
    = Some {| protocol := "https:"; hostname := "example.com" |}
  /\ Validation.validateUrl (P := Reference.platform)
       (VStr "https://example.com/?next=data:1") = false.
Proof.
  split; [reflexivity|].
  apply (validateUrl_blocklist_whole_string (P := Reference.platform)
           "https://example.com/?next=data:1" "data:"
           {| protocol := "https:"; hostname := "example.com" |}).
  - reflexivity.
  - simpl. auto.
  - simpl. auto.
  - reflexivity.
Defined.

(** ** The static defaults under the schema validator *)

(** Evaluates a closed pipeline term on an arbitrary platform: everything
    is computed except the calls of [validateUrl], which are then split
    into their two possible answers. *)
Ltac run_pipeline :=
  cbv -[Validation.validateUrl];
  repeat match goal with
         | |- context [Validation.validateUrl ?v] => destruct (Validation.validateUrl v)
         end.

Section Defaults.
Context `{P : Platform}.

Lemma default_avatar_is_the_default :
  Validation.get2 DEFAULT_CONFIG "profile" "avatar" = Ok (VStr default_avatar).
Proof. reflexivity. Qed.

Lemma default_avatar_no_extension : Validation.imageExtensions default_avatar = false.
Proof. reflexivity. Qed.

Lemma validateConfig_default :
  exists r, Validation.validateConfig DEFAULT_CONFIG = Ok r
            /\ isValid r = false /\ In avatar_error (errors r).
Proof.
  unfold Validation.validateConfig. run_pipeline.
  all: eexists; split; [reflexivity|]; split; [reflexivity|]; simpl; auto.
Qed.

(** With the empty record as user configuration the loader returns a
    configuration equal to the defaults. *)
Lemma loadConfig_try_empty :
  loadConfig_try (FetchJson (VObj [])) = Ok DEFAULT_CONFIG.
Proof. unfold loadConfig_try. run_pipeline. all: reflexivity. Qed.

Lemma loadConfig_empty : loadConfig (FetchJson (VObj [])) = Ok DEFAULT_CONFIG.
Proof. unfold loadConfig. rewrite loadConfig_try_empty. reflexivity. Qed.

End Defaults.

(** C3. [validateConfig(DEFAULT_CONFIG)] on the code: on every platform the
    avatar of the defaults fails [validateImageUrl], and the schema
    validator answers [isValid = false] with the error [profile.avatar]. *)
Theorem DEFAULT_CONFIG_fails_validation `{P : Platform} :
  Validation.validateImageUrl (VStr default_avatar) = Ok false
  /\ exists r, Validation.validateConfig DEFAULT_CONFIG = Ok r
               /\ isValid r = false /\ In avatar_error (errors r).
Proof.
  split.
  - apply validateImageUrl_no_extension, default_avatar_no_extension.
  - apply validateConfig_default.
Qed.

(** On the reference platform that error is the only one. *)
Lemma validateConfig_default_reference :
  Validation.validateConfig (P := Reference.platform) DEFAULT_CONFIG
  = Ok {| isValid := false; errors := [avatar_error]; warnings := [] |}.
Proof. reflexivity. Qed.

(** The loader's own structural validator accepts the defaults. *)
Lemma loader_validateConfig_default_reference :
  ConfigLoader.validateConfig (P := Reference.platform) DEFAULT_CONFIG
  = Ok {| isValid := true; errors := []; warnings := [] |}.
Proof. reflexivity. Qed.

(** ** The loader *)

Section Loader.
Context `{P : Platform}.

Lemma loadUserConfig_total (f : fetch_behaviour) :
  exists doc, loadUserConfig f = Ok doc.
Proof. unfold loadUserConfig, try_catch. destruct f; eauto. Qed.

Lemma loadUserConfig_fallback (f : fetch_behaviour) :
  fetch_throws f -> loadUserConfig f = Ok (VObj []).
Proof.
  unfold loadUserConfig, try_catch.
  destruct f; intros F; [reflexivity..|contradiction].
Qed.

Lemma loadConfig_try_fallback (f : fetch_behaviour) :
  fetch_throws f -> loadConfig_try f = loadConfig_try (FetchJson (VObj [])).
Proof.
  intros F. unfold loadConfig_try.
  rewrite (loadUserConfig_fallback f F). reflexivity.
Qed.

Lemma loadConfig_total (f : fetch_behaviour) : exists v, loadConfig f = Ok v.
Proof. unfold loadConfig. destruct (loadConfig_try f); simpl; eauto. Qed.

Lemma loadConfig_catches (f : fetch_behaviour) (e : exn) :
  loadConfig_try f = Throw e -> loadConfig f = Ok DEFAULT_CONFIG.
Proof. intros E. unfold loadConfig. rewrite E. reflexivity. Qed.

Lemma loadConfig_fetch_throws (f : fetch_behaviour) :
  fetch_throws f -> loadConfig f = Ok DEFAULT_CONFIG.
Proof.
  intros F. unfold loadConfig.
  rewrite (loadConfig_try_fallback f F), loadConfig_try_empty. reflexivity.
Qed.

End Loader.

(** C4. [loadConfig] never propagates an exception: whatever the request
    does it returns a value, and when a step of the pipeline throws (the
    request itself, or the merge, the validation or the sanitization after
    it) the value returned is [DEFAULT_CONFIG]. *)
Theorem loadConfig_never_throws `{P : Platform} (f : fetch_behaviour) :
  (exists v, loadConfig f = Ok v)
  /\ (fetch_throws f -> loadConfig f = Ok DEFAULT_CONFIG)
  /\ (forall e, loadConfig_try f = Throw e -> loadConfig f = Ok DEFAULT_CONFIG).
Proof.
  split; [apply loadConfig_total|].
  split; [apply loadConfig_fetch_throws|apply loadConfig_catches].
Qed.

(** A document whose [profile] is [null] makes the schema validator throw;
    a request that is rejected with a value that is no error object. *)
Lemma loadConfig_never_throws_witness :
  loadConfig (P := Reference.platform) (FetchJson (VObj [("profile", VNull)]))
    = Ok DEFAULT_CONFIG
  /\ loadConfig (P := Reference.platform) (FetchRejects (Thrown (VNum 42)))
    = Ok DEFAULT_CONFIG.
Proof.
  split.
  - apply (proj2 (proj2 (loadConfig_never_throws (P := Reference.platform)
                           (FetchJson (VObj [("profile", VNull)]))))
             (TypeError "Cannot read properties of null or undefined")).
    reflexivity.
  - apply (proj1 (proj2 (loadConfig_never_throws (P := Reference.platform)
                           (FetchRejects (Thrown (VNum 42)))))).
    exact I.
Defined.

(** C1. The configuration returned by [loadConfig] on the code: with the
    empty record as user configuration (and so also when the request
    fails) the loader returns the defaults, which the schema validator
    rejects on every platform. *)
Theorem loadConfig_output_fails_validation `{P : Platform} :
  exists v r,
    loadConfig (FetchJson (VObj [])) = Ok v
    /\ Validation.validateConfig v = Ok r
    /\ isValid r = false /\ In avatar_error (errors r).
Proof.
  destruct validateConfig_default as (r & Hr & Hv & He).
  exists DEFAULT_CONFIG, r. split; [apply loadConfig_empty|auto].
Qed.

(** On the ready path too the loader's output can fail validation: the
    merged document is valid, its sanitized form is returned and is not. *)
Lemma loadConfig_ready_output_fails_validation :
  (v <- mergeConfig DEFAULT_CONFIG ampersand_document ;;
   r <- Validation.validateConfig (P := Reference.platform) v ;; Ok (isValid r)) = Ok true
  /\ (v <- loadConfig (P := Reference.platform) (FetchJson ampersand_document) ;;
      r <- Validation.validateConfig (P := Reference.platform) v ;; Ok (errors r))
     = Ok [ {| field := "profile.name";
               message := "Name must be 50 characters or less" |} ].
Proof. split; reflexivity. Qed.

(** ** The degraded path *)

Lemma bad_link_url_invalid `{P : Platform} :
  Validation.validateUrl (VStr "javascript:alert(1)") = false.
Proof. apply (validateUrl_blocklist _ "javascript:"); [simpl; auto|reflexivity]. Qed.

(** The only validation error of the merged document is the URL of the
    first link. *)
Lemma mixed_links_errors :
  (v <- mergeConfig DEFAULT_CONFIG mixed_links_document ;;
   r <- Validation.validateConfig (P := Reference.platform) v ;; Ok (errors r))
  = Ok [ {| field := "links[0].url"; message := "Invalid URL format" |} ].
Proof. reflexivity. Qed.

(** The loader's own field filter, which [loadConfig] does not call,
    would keep the link as well: it tests that the URL is a string, not
    that it is valid. *)
Lemma unused_sanitizeConfig_keeps_invalid_link `{P : Platform} :
  (v <- mergeConfig DEFAULT_CONFIG mixed_links_document ;;
   s <- ConfigLoader.sanitizeConfig v ;; get s "links")
  = Ok (VArr [ bad_link; good_link ]).
Proof. reflexivity. Qed.

(** C2. The degraded path on the code: for a user document with one link
    whose URL fails [validateUrl] and one valid link, the configuration
    returned by [loadConfig] has both links, on every platform. *)
Theorem loadConfig_keeps_invalid_link `{P : Platform} :
  exists v,
    loadConfig (FetchJson mixed_links_document) = Ok v
    /\ get v "links" = Ok (VArr [ bad_link; good_link ]).
Proof.
  unfold loadConfig, loadConfig_try. run_pipeline.
  all: eexists; split; reflexivity.
Qed.

(** ** The guard on internal addresses *)

Section SafeUrl.
Context `{P : Platform}.

Lemma isSafeExternalUrl_unfold (s : string) (urlObj : URLRecord) :
  url_parse s = Some urlObj ->
  Validation.isSafeExternalUrl (VStr s)
  = Validation.validateUrl (VStr s)
    && negb (existsb (fun pattern => pattern (Str.to_lower (hostname urlObj)))
                     Validation.privateIpPatterns).
Proof.
  intros E. unfold Validation.isSafeExternalUrl. simpl to_string. rewrite E.
  destruct (Validation.validateUrl (VStr s)); reflexivity.
Qed.

(** A URL whose host matches one of the patterns is refused. *)
Lemma isSafeExternalUrl_blocks (s : string) (urlObj : URLRecord)
    (pattern : string -> bool) :
  url_parse s = Some urlObj ->
  In pattern Validation.privateIpPatterns ->
  pattern (Str.to_lower (hostname urlObj)) = true ->
  Validation.isSafeExternalUrl (VStr s) = false.
Proof.
  intros E Hin Hp. rewrite (isSafeExternalUrl_unfold s urlObj E).
  apply andb_false_iff. right. apply negb_false_iff, existsb_exists.
  exists pattern. split; assumption.
Qed.

(** No pattern matches the link-local metadata address, nor a host
    between brackets. *)
Lemma link_local_unmatched :
  existsb (fun pattern => pattern "169.254.169.254") Validation.privateIpPatterns = false.
Proof. reflexivity. Qed.

Lemma bracketed_unmatched (h : string) :
  existsb (fun pattern => pattern (String "[" h)) Validation.privateIpPatterns = false.
Proof. reflexivity. Qed.

End SafeUrl.

(** C5. The guard on the code, on the reference platform: the loopback
    address and [localhost] are refused and a public host is accepted, but
    the link-local address [169.254.169.254] is accepted, and so are the
    IPv6 loopback and link-local addresses, whose host name the URL parser
    gives between brackets. *)
Theorem isSafeExternalUrl_accepts_link_local :
  let safe := Validation.isSafeExternalUrl (P := Reference.platform) in
  safe (VStr "http://169.254.169.254/") = true
  /\ safe (VStr "http://[::1]/") = true
  /\ safe (VStr "http://[fe80::1]/") = true
  /\ safe (VStr "http://127.0.0.1/x") = false
  /\ safe (VStr "http://localhost/") = false
  /\ safe (VStr "https://example.com") = true.
Proof. repeat split; reflexivity. Qed.

(** ** Required fields *)

(** C6. [profile.bio] under the schema validator on the code: a candidate
    whose bio is empty, or absent, is valid and no error is recorded. *)
Theorem validateConfig_accepts_empty_bio :
  Validation.validateConfig (P := Reference.platform)
    (config_with_profile profile_without_bio)
  = Ok {| isValid := true; errors := []; warnings := [] |}
  /\ Validation.validateConfig (P := Reference.platform)
       (config_with_profile profile_bio_absent)
     = Ok {| isValid := true; errors := []; warnings := [] |}.
Proof. split; reflexivity. Qed.

(** The loader's structural validator does report the missing bio, and the
    schema validator does report a missing name. *)
Lemma loader_validateConfig_rejects_empty_bio :
  ConfigLoader.validateConfig (P := Reference.platform)
    (config_with_profile profile_without_bio)
  = Ok {| isValid := false;
          errors := [ {| field := "profile.bio";
                         message := "Profile bio is required and must be a string" |} ];
          warnings := [] |}.
Proof. reflexivity. Qed.

Lemma validateConfig_rejects_empty_name :
  Validation.validateConfig (P := Reference.platform)
    (config_with_profile
       (VObj [ ("name", VStr ""); ("bio", VStr "b"); ("avatar", VStr valid_avatar) ]))
  = Ok {| isValid := false;
          errors := [ {| field := "profile.name"; message := "Name is required" |} ];
          warnings := [] |}.
Proof. reflexivity. Qed.

(** ** The merge *)

Lemma lookup_set_prop_eq {A} (ps : list (string * A)) (k : string) (v : A) :
  lookup k (set_prop ps k v) = Some v.
Proof.
  induction ps as [|[k' v'] ps IH]; simpl.
  - rewrite String.eqb_refl. reflexivity.
  - destruct (String.eqb k k') eqn:E; simpl; rewrite E; [reflexivity|exact IH].
Qed.

Lemma lookup_set_prop_ne {A} (ps : list (string * A)) (k k' : string) (v : A) :
  k <> k' -> lookup k' (set_prop ps k v) = lookup k' ps.
Proof.
  intros Hne. induction ps as [|[k0 v0] ps IH]; simpl.
  - destruct (String.eqb k' k) eqn:E; [|reflexivity].
    apply String.eqb_eq in E. congruence.
  - destruct (String.eqb k k0) eqn:E; simpl.
    + apply String.eqb_eq in E. subst k0.
      destruct (String.eqb k' k) eqn:E'; [|reflexivity].
      apply String.eqb_eq in E'. congruence.
    + rewrite IH. reflexivity.
Qed.

Lemma lookup_not_in {A} (ps : list (string * A)) (k : string) :
  ~ In k (map fst ps) -> lookup k ps = None.
Proof.
  induction ps as [|[k' v'] ps IH]; simpl; intros Hn; [reflexivity|].
  destruct (String.eqb k k') eqn:E.
  - apply String.eqb_eq in E. subst k'. exfalso. apply Hn. left. reflexivity.
  - apply IH. intros Hin. apply Hn. right. exact Hin.
Qed.

Lemma get_not_nullish (b : value) (k : string) :
  nullish b = false -> exists x, get b k = Ok x.
Proof.
  destruct b; simpl; try discriminate; intros _; eauto.
  - destruct (String.eqb k "length"); eauto.
    destruct (lookup k _); eauto.
  - destruct (String.eqb k "length"); eauto.
    destruct (lookup k _); eauto.
  - destruct (lookup k props); eauto.
Qed.

Lemma isObject_record (v : value) : isObject v = true -> exists ps, v = VObj ps.
Proof.
  unfold isObject. destruct v as [| |b|n|s|l|ps]; simpl; try discriminate.
  - rewrite andb_false_r. discriminate.
  - rewrite andb_false_r. discriminate.
  - rewrite andb_false_r. discriminate.
  - eauto.
Qed.

Lemma isObject_not_nullish (v : value) : isObject v = true -> nullish v = false.
Proof. intros H. destruct (isObject_record v H) as [ps ->]. reflexivity. Qed.

(** C7. Merge identity: merging the empty record onto a configuration [A]
    returns a configuration equal to [A]. *)
Theorem mergeConfig_empty_override (A : value) :
  isObject A = true -> mergeConfig A (VObj []) = Ok A.
Proof. intros H. destruct (isObject_record A H) as [ps ->]. reflexivity. Qed.

Lemma mergeConfig_empty_override_witness :
  isObject DEFAULT_CONFIG = true /\ mergeConfig DEFAULT_CONFIG (VObj []) = Ok DEFAULT_CONFIG.
Proof.
  split; [reflexivity|].
  apply (mergeConfig_empty_override DEFAULT_CONFIG). reflexivity.
Defined.

(** One turn of the loop never throws on a base whose properties can be
    read, provided the recursive call on a record returns. *)
Lemma merge_step_total (base : value) (key : string) (ov : value)
    (recurse : value -> result value) (res : list (string * value)) :
  nullish base = false ->
  (forall bv, isObject bv = true -> exists m, recurse bv = Ok m) ->
  exists res', merge_step base key ov recurse res = Ok res'.
Proof.
  intros Hb Hrec. unfold merge_step.
  destruct (get_not_nullish base key Hb) as [bv ->]. simpl.
  destruct (is_undefined ov); [eauto|].
  destruct (isObject ov && isObject bv && negb (is_array ov)) eqn:E; [|eauto].
  apply andb_true_iff in E. destruct E as [E _].
  apply andb_true_iff in E. destruct E as [_ E].
  destruct (Hrec bv E) as [m ->]. simpl. eauto.
Qed.

Lemma merge_props_total (merge : value -> value -> result value) (base : value)
    (ps : list (string * value)) :
  nullish base = false ->
  Forall (fun kv => forall bv, isObject bv = true -> exists m, merge bv (snd kv) = Ok m) ps ->
  forall res, exists r, merge_props merge base ps res = Ok r.
Proof.
  intros Hb Hall. induction Hall as [|[k ov] ps Hov _ IH]; intros res; simpl.
  - eauto.
  - destruct (merge_step_total base k ov (fun bv => merge bv ov) res Hb Hov) as [res' ->].
    simpl. apply IH.
Qed.

Lemma merge_elems_total (merge : value -> value -> result value) (base : value)
    (es : list value) :
  nullish base = false ->
  Forall (fun ov => forall bv, isObject bv = true -> exists m, merge bv ov = Ok m) es ->
  forall i res, exists r, merge_elems merge base i es res = Ok r.
Proof.
  intros Hb Hall. induction Hall as [|ov es Hov _ IH]; intros i res; simpl.
  - eauto.
  - destruct (merge_step_total base (Str.of_nat i) ov (fun bv => merge bv ov) res Hb Hov)
      as [res' ->].
    simpl. apply IH.
Qed.

(** [mergeConfig] returns a record for every override, as soon as the
    properties of the base can be read. *)
Lemma mergeConfig_total (override base : value) :
  nullish base = false -> exists r, mergeConfig base override = Ok (VObj r).
Proof.
  revert base. induction override as [| | | | |l IH|ps IH] using value_ind';
    intros base Hb; cbn [mergeConfig]; eauto.
  - destruct (merge_props_total (fun _ v => Ok v) base (own_props (VStr s)) Hb) with
      (res := own_props base) as [r ->].
    + apply Forall_forall. intros kv _ bv _. eauto.
    + simpl. eauto.
  - destruct (merge_elems_total mergeConfig base l Hb) with (i := 0) (res := own_props base)
      as [r ->].
    + apply Forall_forall. intros ov Hin bv Hbv.
      rewrite Forall_forall in IH.
      destruct (IH ov Hin bv (isObject_not_nullish bv Hbv)) as [m ->]. eauto.
    + simpl. eauto.
  - destruct (merge_props_total mergeConfig base ps Hb) with (res := own_props base)
      as [r ->].
    + apply Forall_forall. intros kv Hin bv Hbv.
      rewrite Forall_forall in IH.
      destruct (IH kv Hin bv (isObject_not_nullish bv Hbv)) as [m ->]. eauto.
    + simpl. eauto.
Qed.

(** The loop of the merge runs over the own properties of the override,
    whatever the override is. *)

Lemma merge_elems_indexed (merge : value -> value -> result value) (base : value)
    (es : list value) :
  forall i res,
    merge_elems merge base i es res = merge_props merge base (indexed_from i es) res.
Proof.
  induction es as [|ov es IH]; intros i res; simpl; [reflexivity|].
  destruct (merge_step base (Str.of_nat i) ov (fun bv => merge bv ov) res); simpl;
    [apply IH|reflexivity].
Qed.

Lemma merge_props_no_record (merge merge' : value -> value -> result value) (base : value)
    (ps : list (string * value)) :
  Forall (fun kv => isObject (snd kv) = false) ps ->
  forall res, merge_props merge base ps res = merge_props merge' base ps res.
Proof.
  induction 1 as [|[k ov] ps Hov _ IH]; intros res; simpl; [reflexivity|].
  simpl in Hov. unfold merge_step. rewrite Hov. simpl.
  destruct (get base k); simpl; [|reflexivity].
  destruct (is_undefined ov); simpl; apply IH.
Qed.

Lemma mergeConfig_loop (base override : value) :
  mergeConfig base override
  = (r <- merge_props mergeConfig base (own_props override) (own_props base) ;;
     Ok (VObj r)).
Proof.
  destruct override as [| | | |s|es|ps]; try reflexivity.
  - cbn [mergeConfig]. f_equal. apply merge_props_no_record.
    simpl. unfold indexed. generalize 0.
    induction (Str.chars s) as [|c l IH]; intros i; simpl; constructor.
    + unfold isObject. simpl. rewrite andb_false_r. reflexivity.
    + apply IH.
  - cbn [mergeConfig]. rewrite merge_elems_indexed. reflexivity.
Qed.

(** What the loop leaves under each key, when no key of the override is
    repeated. *)
Lemma merge_props_key (merge : value -> value -> result value) (base : value)
    (ps : list (string * value)) :
  NoDup (map fst ps) ->
  forall res r, merge_props merge base ps res = Ok r ->
  forall k,
    match lookup k ps with
    | None => lookup k r = lookup k res
    | Some ov =>
        exists bv,
          get base k = Ok bv
          /\ if is_undefined ov then lookup k r = lookup k res
             else if isObject ov && isObject bv && negb (is_array ov)
                  then exists m, merge bv ov = Ok m /\ lookup k r = Some m
                  else lookup k r = Some ov
    end.
Proof.
  induction ps as [|[k0 ov0] ps IH]; intros Hnd res r Hr k.
  - simpl in *. congruence.
  - inversion Hnd as [|? ? Hnotin Hnd']; subst.
    cbn [merge_props] in Hr. fold (merge_props merge base) in Hr.
    destruct (merge_step base k0 ov0 (fun bv => merge bv ov0) res) as [res'|e] eqn:Es;
      [|discriminate].
    cbn [bind] in Hr. specialize (IH Hnd' res' r Hr).
    unfold merge_step in Es.
    destruct (get base k0) as [bv0|e] eqn:Eg; [|discriminate].
    cbn [bind] in Es.
    cbn [lookup]. destruct (String.eqb k k0) eqn:Ek.
    + apply String.eqb_eq in Ek. subst k0.
      specialize (IH k). simpl in Hnotin. rewrite (lookup_not_in ps k Hnotin) in IH.
      exists bv0. split; [exact Eg|].
      destruct (is_undefined ov0); [congruence|].
      destruct (isObject ov0 && isObject bv0 && negb (is_array ov0)).
      * destruct (merge bv0 ov0) as [m|e] eqn:Em; [|discriminate].
        cbn [bind] in Es. inversion Es; subst res'.
        exists m. split; [reflexivity|]. rewrite IH. apply lookup_set_prop_eq.
      * inversion Es; subst res'. rewrite IH. apply lookup_set_prop_eq.
    + assert (Hne : k0 <> k).
      { intros ->. rewrite String.eqb_refl in Ek. discriminate. }
      assert (Hres : lookup k res' = lookup k res).
      { destruct (is_undefined ov0); [congruence|].
        destruct (isObject ov0 && isObject bv0 && negb (is_array ov0)).
        - destruct (merge bv0 ov0) as [m|e]; [|discriminate].
          cbn [bind] in Es. inversion Es; subst res'.
          apply lookup_set_prop_ne, Hne.
        - inversion Es; subst res'. apply lookup_set_prop_ne, Hne. }
      specialize (IH k). rewrite Hres in IH. exact IH.
Qed.




(** ** The merge over a store *)

Lemma read_alloc_old (h : Store.store) (c : Store.cell) (l : Store.loc) :
  l < List.length h -> Store.read (h ++ [c]) l = Store.read h l.
Proof. intros Hl. unfold Store.read. apply nth_error_app1, Hl. Qed.

Lemma read_alloc_new (h : Store.store) (c : Store.cell) :
  Store.read (h ++ [c]) (List.length h) = Some c.
Proof.
  unfold Store.read. rewrite nth_error_app2 by lia.
  rewrite Nat.sub_diag. reflexivity.
Qed.

Lemma read_some_lt (h : Store.store) (l : Store.loc) (c : Store.cell) :
  Store.read h l = Some c -> l < List.length h.
Proof. intros E. apply nth_error_Some. unfold Store.read in E. congruence. Qed.

Lemma length_write (h : Store.store) (l : Store.loc) (c : Store.cell) :
  List.length (Store.write h l c) = List.length h.
Proof.
  revert l. induction h as [|x h IH]; intros l; simpl; [reflexivity|].
  destruct l; simpl; [reflexivity|]. rewrite IH. reflexivity.
Qed.

Lemma read_write_eq (h : Store.store) (l : Store.loc) (c : Store.cell) :
  l < List.length h -> Store.read (Store.write h l c) l = Some c.
Proof.
  revert l. induction h as [|x h IH]; intros l Hl; simpl in *; [lia|].
  destruct l; simpl; [reflexivity|]. apply IH. lia.
Qed.

Lemma read_write_ne (h : Store.store) (l l' : Store.loc) (c : Store.cell) :
  l <> l' -> Store.read (Store.write h l c) l' = Store.read h l'.
Proof.
  revert l l'. induction h as [|x h IH]; intros l l' Hne; simpl; [reflexivity|].
  destruct l, l'; simpl; try reflexivity; [congruence|].
  apply IH. congruence.
Qed.

Lemma length_assign (h : Store.store) (r : Store.loc) (k : string) (v : Store.sval) :
  List.length (Store.assign h r k v) = List.length h.
Proof.
  unfold Store.assign. destruct (Store.read h r) as [[ps|es]|]; try reflexivity.
  apply length_write.
Qed.

Lemma read_assign_ne (h : Store.store) (r l : Store.loc) (k : string) (v : Store.sval) :
  r <> l -> Store.read (Store.assign h r k v) l = Store.read h l.
Proof.
  intros Hne. unfold Store.assign.
  destruct (Store.read h r) as [[ps|es]|]; try reflexivity.
  apply read_write_ne, Hne.
Qed.

Lemma read_assign_eq (h : Store.store) (r : Store.loc) (k : string) (v : Store.sval)
    (ps : list (string * Store.sval)) :
  Store.read h r = Some (Store.Record ps) ->
  Store.read (Store.assign h r k v) r = Some (Store.Record (set_prop ps k v)).
Proof.
  intros E. unfold Store.assign. rewrite E.
  apply read_write_eq. apply (read_some_lt _ _ _ E).
Qed.

Section MergeEntries.
Variable merge : Store.store -> Store.sval -> Store.sval -> Store.outcome.
Variable h : Store.store.
Variable base : Store.sval.
Variable r : Store.loc.
Hypothesis r_fresh : List.length h <= r.

(** What the loop needs from the recursive call: it keeps the objects of
    the store it starts from and returns a new one. *)
Hypothesis merge_frame :
  forall h1 bv ov h2 m,
    merge h1 bv ov = Store.Done h2 m ->
    List.length h1 <= List.length h2
    /\ (forall l, l < List.length h1 -> Store.read h2 l = Store.read h1 l)
    /\ exists lm, m = Store.SRef lm /\ List.length h1 <= lm.

Local Abbreviation loop_inv := (Store.loop_inv h r).

Lemma isObject_stable (h1 : Store.store) (x : Store.sval) :
  loop_inv h1 -> Store.isObject h x = true -> Store.isObject h1 x = true.
Proof.
  intros [Hold _]. destruct x; simpl; try discriminate.
  destruct (Store.read h l) as [c|] eqn:E; [|discriminate].
  rewrite (Hold l (read_some_lt _ _ _ E)), E. trivial.
Qed.

Lemma is_array_stable (h1 : Store.store) (x : Store.sval) :
  loop_inv h1 -> Store.isObject h x = true -> Store.is_array h1 x = false.
Proof.
  intros [Hold _]. destruct x; simpl; try discriminate.
  destruct (Store.read h l) as [c|] eqn:E; [|discriminate].
  rewrite (Hold l (read_some_lt _ _ _ E)), E. destruct c; [reflexivity|discriminate].
Qed.

Lemma get_stable (h1 : Store.store) (key : string) (bv : Store.sval) :
  loop_inv h1 -> Store.get h base key = Some bv -> Store.isObject h bv = true ->
  Store.get h1 base key = Some bv.
Proof.
  intros [Hold _] Hg Hbv. destruct base; simpl in *; try exact Hg.
  destruct (Store.read h l) as [c|] eqn:E.
  - rewrite (Hold l (read_some_lt _ _ _ E)), E. exact Hg.
  - inversion Hg; subst bv. discriminate.
Qed.

Lemma loop_inv_assign (h1 : Store.store) (k : string) (v : Store.sval) :
  loop_inv h1 -> loop_inv (Store.assign h1 r k v).
Proof.
  intros [Hold [ps Hps]]. split.
  - intros l Hl. rewrite read_assign_ne by lia. apply Hold, Hl.
  - exists (set_prop ps k v). apply read_assign_eq, Hps.
Qed.

Lemma loop_inv_merge (h1 h2 : Store.store) (bv ov m : Store.sval) :
  loop_inv h1 -> merge h1 bv ov = Store.Done h2 m ->
  loop_inv h2 /\ Store.read h2 r = Store.read h1 r.
Proof.
  intros [Hold [ps Hps]] Hm.
  destruct (merge_frame _ _ _ _ _ Hm) as (Hlen & Hkeep & _).
  pose proof (read_some_lt _ _ _ Hps) as Hr.
  assert (Er : Store.read h2 r = Store.read h1 r) by (apply Hkeep, Hr).
  split; [split|exact Er].
  - intros l Hl. rewrite Hkeep by lia. apply Hold, Hl.
  - exists ps. rewrite Er. exact Hps.
Qed.

(** The loop: it returns [r], keeps the invariant, leaves a key that the
    entries lack as it was, and puts a new object under a key on which it
    recurses. *)
Lemma merge_entries_spec (entries : list (string * Store.sval)) :
  forall h1 h' v,
    loop_inv h1 ->
    Store.merge_entries merge base r entries h1 = Store.Done h' v ->
    v = Store.SRef r
    /\ loop_inv h'
    /\ forall ps ps',
         Store.read h1 r = Some (Store.Record ps) ->
         Store.read h' r = Some (Store.Record ps') ->
         (forall key, lookup key entries = None -> lookup key ps' = lookup key ps)
         /\ (NoDup (map fst entries) ->
             forall key ov bv,
               lookup key entries = Some ov ->
               Store.get h base key = Some bv ->
               Store.isObject h ov = true -> Store.isObject h bv = true ->
               exists l, lookup key ps' = Some (Store.SRef l) /\ List.length h <= l).
Proof.
  induction entries as [|[k ov] rest IH]; intros h1 h' v Hinv Hloop.
  - simpl in Hloop. inversion Hloop; subst h' v.
    split; [reflexivity|]. split; [exact Hinv|].
    intros ps ps' E1 E2. rewrite E1 in E2. inversion E2; subst ps'.
    split; [reflexivity|]. intros _ key ov bv Hk. discriminate.
  - cbn [Store.merge_entries] in Hloop.
    fold (Store.merge_entries merge base r) in Hloop.
    destruct (Store.get h1 base k) as [bv1|] eqn:Eg; [|discriminate].
    destruct (Store.is_undefined ov) eqn:Eu.
    { (* the key is skipped *)
      destruct (IH _ _ _ Hinv Hloop) as (Hv & Hinv' & Hps).
      split; [exact Hv|]. split; [exact Hinv'|].
      intros ps ps' E1 E2. destruct (Hps ps ps' E1 E2) as [Hnone Hnew].
      split.
      - intros key Hk. cbn [lookup] in Hk.
        destruct (String.eqb key k); [discriminate|]. apply Hnone, Hk.
      - intros Hnd key ov' bv Hk Hg Hov Hbv. inversion Hnd; subst.
        cbn [lookup] in Hk. destruct (String.eqb key k).
        + inversion Hk; subst ov'. destruct ov; discriminate.
        + apply (Hnew H2 key ov' bv Hk Hg Hov Hbv). }
    destruct (Store.isObject h1 ov && Store.isObject h1 bv1
              && negb (Store.is_array h1 ov)) eqn:Ec.
    { (* the merge recurses *)
      destruct (merge h1 bv1 ov) as [h2 m| |] eqn:Em; try discriminate.
      destruct (loop_inv_merge h1 h2 bv1 ov m Hinv Em) as [Hinv2 Er2].
      destruct (merge_frame _ _ _ _ _ Em) as (Hlen & _ & lm & -> & Hlm).
      pose proof (loop_inv_assign h2 k (Store.SRef lm) Hinv2) as Hinv3.
      destruct (IH _ _ _ Hinv3 Hloop) as (Hv & Hinv' & Hps).
      split; [exact Hv|]. split; [exact Hinv'|].
      intros ps ps' E1 E2.
      assert (E3 : Store.read (Store.assign h2 r k (Store.SRef lm)) r
                   = Some (Store.Record (set_prop ps k (Store.SRef lm)))).
      { apply read_assign_eq. rewrite Er2. exact E1. }
      destruct (Hps _ ps' E3 E2) as [Hnone Hnew].
      pose proof (read_some_lt _ _ _ E1) as Hr1.
      split.
      - intros key Hk. cbn [lookup] in Hk.
        destruct (String.eqb key k) eqn:Ek; [discriminate|].
        rewrite (Hnone key Hk). apply lookup_set_prop_ne.
        intros ->. rewrite String.eqb_refl in Ek. discriminate.
      - intros Hnd key ov' bv Hk Hg Hov Hbv. inversion Hnd; subst.
        cbn [lookup] in Hk. destruct (String.eqb key k) eqn:Ek.
        + apply String.eqb_eq in Ek. subst key.
          exists lm. split; [|lia].
          rewrite (Hnone k (lookup_not_in rest k H1)). apply lookup_set_prop_eq.
        + apply (Hnew H2 key ov' bv Hk Hg Hov Hbv). }
    { (* the override value is assigned *)
      pose proof (loop_inv_assign h1 k ov Hinv) as Hinv3.
      destruct (IH _ _ _ Hinv3 Hloop) as (Hv & Hinv' & Hps).
      split; [exact Hv|]. split; [exact Hinv'|].
      intros ps ps' E1 E2.
      destruct (Hps _ ps' (read_assign_eq h1 r k ov ps E1) E2) as [Hnone Hnew].
      split.
      - intros key Hk. cbn [lookup] in Hk.
        destruct (String.eqb key k) eqn:Ek; [discriminate|].
        rewrite (Hnone key Hk). apply lookup_set_prop_ne.
        intros ->. rewrite String.eqb_refl in Ek. discriminate.
      - intros Hnd key ov' bv Hk Hg Hov Hbv. inversion Hnd; subst.
        cbn [lookup] in Hk. destruct (String.eqb key k) eqn:Ek.
        + apply String.eqb_eq in Ek. subst key. inversion Hk; subst ov'.
          rewrite (get_stable h1 k bv Hinv Hg Hbv) in Eg. inversion Eg; subst bv1.
          rewrite (isObject_stable h1 ov Hinv Hov),
                  (isObject_stable h1 bv Hinv Hbv),
                  (is_array_stable h1 ov Hinv Hov) in Ec.
          discriminate.
        + apply (Hnew H2 key ov' bv Hk Hg Hov Hbv). }
Qed.

End MergeEntries.

Lemma loop_inv_alloc (h : Store.store) (ps : list (string * Store.sval)) :
  Store.loop_inv h (List.length h) (h ++ [Store.Record ps]).
Proof.
  split.
  - intros l Hl. apply read_alloc_old, Hl.
  - exists ps. apply read_alloc_new.
Qed.

(** A call keeps every object of the store it starts from and returns a
    new location. *)
Lemma mergeConfig_store_frame (fuel : nat) :
  forall h base override h' v,
    Store.mergeConfig fuel h base override = Store.Done h' v ->
    List.length h <= List.length h'
    /\ (forall l, l < List.length h -> Store.read h' l = Store.read h l)
    /\ exists r, v = Store.SRef r /\ List.length h <= r.
Proof.
  induction fuel as [|fuel IH]; intros h base override h' v Hm; [discriminate|].
  cbn [Store.mergeConfig Store.alloc] in Hm.
  destruct (merge_entries_spec (Store.mergeConfig fuel) h base (List.length h)
              (le_n _) IH _ _ _ _ (loop_inv_alloc h _) Hm) as (Hv & [Hold [ps Hps]] & _).
  split; [|split].
  - pose proof (read_some_lt _ _ _ Hps). lia.
  - exact Hold.
  - exists (List.length h). split; [exact Hv|lia].
Qed.

(** Whenever a call returns: it has mutated no object that existed when it
    was called, its result is a new record, and under a key where the base
    and the override both held a record the result holds a new object. *)
Lemma mergeConfig_store_returns (fuel : nat) (h h' : Store.store)
    (base override v : Store.sval) :
  Store.mergeConfig fuel h base override = Store.Done h' v ->
  (forall l, l < List.length h -> Store.read h' l = Store.read h l)
  /\ exists r props,
       v = Store.SRef r /\ List.length h <= r
       /\ Store.read h' r = Some (Store.Record props)
       /\ (NoDup (map fst (Store.own_props h override)) ->
           forall key overrideValue baseValue,
             lookup key (Store.own_props h override) = Some overrideValue ->
             Store.get h base key = Some baseValue ->
             Store.isObject h overrideValue = true ->
             Store.isObject h baseValue = true ->
             exists l, lookup key props = Some (Store.SRef l) /\ List.length h <= l).
Proof.
  intros Hm. destruct fuel as [|fuel]; [discriminate|].
  cbn [Store.mergeConfig Store.alloc] in Hm.
  destruct (merge_entries_spec (Store.mergeConfig fuel) h base (List.length h)
              (le_n _) (mergeConfig_store_frame fuel) _ _ _ _ (loop_inv_alloc h _) Hm)
    as (Hv & [Hold [ps Hps]] & Hkeys).
  split; [exact Hold|].
  exists (List.length h), ps. split; [exact Hv|]. split; [lia|]. split; [exact Hps|].
  intros Hnd. apply (Hkeys _ ps (read_alloc_new h _) Hps), Hnd.
Qed.

Lemma mergeConfig_sample_store :
  Store.mergeConfig 2 sample_store (Store.SRef 0) (Store.SRef 3)
  = Store.Done
      (sample_store
       ++ [ Store.Record [ ("profile", Store.SRef 9); ("links", Store.SRef 4);
                           ("footer", Store.SRef 6) ];
            Store.Record [ ("name", Store.SStr "Ada") ] ])
      (Store.SRef 8).
Proof. reflexivity. Qed.

(** The result holds the override's [footer] record and [links] array
    themselves, at locations 6 and 4. *)
Lemma mergeConfig_store_shares_override :
  ~ result_unshared sample_store (Store.SRef 0) (Store.SRef 3).
Proof.
  intros Hclaim.
  pose proof (Hclaim 2 _ 8 _ "footer" 6 mergeConfig_sample_store eq_refl eq_refl) as Hle.
  simpl in Hle. lia.
Qed.

(** With the empty override the result holds the base's [profile] record
    itself. *)
Lemma mergeConfig_store_shares_base :
  ~ result_unshared
      [ Store.Record [ ("profile", Store.SRef 1) ];
        Store.Record [ ("name", Store.SStr "Your Name") ];
        Store.Record [] ]
      (Store.SRef 0) (Store.SRef 2).
Proof.
  intros Hclaim.
  pose proof (Hclaim 1 _ 3 _ "profile" 1 eq_refl eq_refl eq_refl) as Hle.
  simpl in Hle. lia.
Qed.

(** *** The merge over the store and the merge of values *)

Lemma reify_ref (n d : nat) (h : Store.store) (l : Store.loc) :
  Store.reify n (S d) h (Store.SRef l)
  = if l <? n then
      match Store.read h l with
      | Some (Store.Record props) =>
          option_map VObj (Store.map_option (Store.on_value (Store.reify n d h)) props)
      | Some (Store.Array elems) =>
          option_map VArr (Store.map_option (Store.reify n d h) elems)
      | None => None
      end
    else None.
Proof. reflexivity. Qed.

Lemma map_option_ext {A B} (f g : A -> option B) (l : list A) :
  (forall a, In a l -> f a = g a) -> Store.map_option f l = Store.map_option g l.
Proof.
  induction l as [|a l IH]; intros Hfg; simpl; [reflexivity|].
  rewrite (Hfg a (or_introl eq_refl)), IH; [reflexivity|].
  intros x Hx. apply Hfg. right. exact Hx.
Qed.

Lemma map_option_Forall2 {A B} (f : A -> option B) (l : list A) (l' : list B) :
  Store.map_option f l = Some l' <-> Forall2 (fun a b => f a = Some b) l l'.
Proof.
  revert l'. induction l as [|a l IH]; intros l'; simpl.
  - split; intros E.
    + inversion E. constructor.
    + inversion E. reflexivity.
  - split; intros E.
    + destruct (f a) as [b|] eqn:Ea; [|discriminate].
      destruct (Store.map_option f l) as [bs|] eqn:El; [|discriminate].
      inversion E; subst l'. constructor; [exact Ea|]. apply IH. reflexivity.
    + inversion E as [|? b ? bs Ea El]; subst.
      rewrite Ea. apply IH in El. rewrite El. reflexivity.
Qed.

Lemma reify_agree (n d : nat) :
  forall h h' v, Store.agree n h h' -> Store.reify n d h' v = Store.reify n d h v.
Proof.
  induction d as [|d IH]; intros h h' v Ha; destruct v as [| | | | |l];
    try reflexivity.
  rewrite !reify_ref.
  destruct (l <? n) eqn:El; [|reflexivity].
  apply Nat.ltb_lt in El. rewrite (Ha l El).
  destruct (Store.read h l) as [[ps|es]|]; [| |reflexivity].
  - f_equal. apply map_option_ext. intros kv _. unfold Store.on_value.
    rewrite (IH h h' _ Ha). reflexivity.
  - f_equal. apply map_option_ext. intros x _. apply (IH h h' _ Ha).
Qed.

Lemma reify_deeper (n d : nat) :
  forall h v x, Store.reify n d h v = Some x -> Store.reify n (S d) h v = Some x.
Proof.
  induction d as [|d IH]; intros h v x E; destruct v as [| | | | |l];
    try exact E; try discriminate.
  rewrite reify_ref in E |- *.
  destruct (l <? n); [|discriminate].
  destruct (Store.read h l) as [[ps|es]|]; [| |discriminate].
  - destruct (Store.map_option (Store.on_value (Store.reify n d h)) ps) as [ps'|] eqn:Eps; [|discriminate].
    apply map_option_Forall2 in Eps.
    assert (E' : Store.map_option (Store.on_value (Store.reify n (S d) h)) ps = Some ps').
    { apply map_option_Forall2. eapply Forall2_impl; [|exact Eps].
      intros kv kv' Hkv. unfold Store.on_value in *.
      destruct (Store.reify n d h (snd kv)) as [y|] eqn:Ey; [|discriminate].
      rewrite (IH _ _ _ Ey). exact Hkv. }
    rewrite E'. exact E.
  - destruct (Store.map_option (Store.reify n d h) es) as [es'|] eqn:Ees; [|discriminate].
    apply map_option_Forall2 in Ees.
    assert (E' : Store.map_option (Store.reify n (S d) h) es = Some es').
    { apply map_option_Forall2. eapply Forall2_impl; [|exact Ees].
      intros y y' Hy. apply (IH _ _ _ Hy). }
    rewrite E'. exact E.
Qed.

Lemma reify_wider (n n' d : nat) :
  n <= n' -> forall h v x, Store.reify n d h v = Some x -> Store.reify n' d h v = Some x.
Proof.
  intros Hn. induction d as [|d IH]; intros h v x E; destruct v as [| | | | |l];
    try exact E; try discriminate.
  rewrite reify_ref in E |- *.
  destruct (l <? n) eqn:El; [|discriminate].
  apply Nat.ltb_lt in El.
  assert (El' : (l <? n') = true) by (apply Nat.ltb_lt; lia). rewrite El'.
  destruct (Store.read h l) as [[ps|es]|]; [| |discriminate].
  - destruct (Store.map_option (Store.on_value (Store.reify n d h)) ps) as [ps'|] eqn:Eps; [|discriminate].
    apply map_option_Forall2 in Eps.
    assert (E' : Store.map_option (Store.on_value (Store.reify n' d h)) ps = Some ps').
    { apply map_option_Forall2. eapply Forall2_impl; [|exact Eps].
      intros kv kv' Hkv. unfold Store.on_value in *.
      destruct (Store.reify n d h (snd kv)) as [y|] eqn:Ey; [|discriminate].
      rewrite (IH _ _ _ Ey). exact Hkv. }
    rewrite E'. exact E.
  - destruct (Store.map_option (Store.reify n d h) es) as [es'|] eqn:Ees; [|discriminate].
    apply map_option_Forall2 in Ees.
    assert (E' : Store.map_option (Store.reify n' d h) es = Some es').
    { apply map_option_Forall2. eapply Forall2_impl; [|exact Ees].
      intros y y' Hy. apply (IH _ _ _ Hy). }
    rewrite E'. exact E.
Qed.

Lemma reify_pred (n d : nat) (h : Store.store) (v : Store.sval) (x : value) :
  Store.reify n (pred d) h v = Some x -> Store.reify n d h v = Some x.
Proof. destruct d; [trivial|]. apply reify_deeper. Qed.

Lemma related_lookup {A B} (R : A -> B -> Prop) (k : string)
    (sps : list (string * A)) (ps : list (string * B)) :
  Forall2 (Store.related R) sps ps ->
  match lookup k sps, lookup k ps with
  | Some sx, Some x => R sx x
  | None, None => True
  | _, _ => False
  end.
Proof.
  induction 1 as [|[k1 sx] [k2 x] sps ps [Hk Hx] _ IH]; simpl; [exact I|].
  simpl in Hk, Hx. subst k2. destruct (String.eqb k k1); [exact Hx|exact IH].
Qed.

Lemma related_set_prop {A B} (R : A -> B -> Prop) (k : string) (sx : A) (x : B)
    (sps : list (string * A)) (ps : list (string * B)) :
  Forall2 (Store.related R) sps ps -> R sx x ->
  Forall2 (Store.related R) (set_prop sps k sx) (set_prop ps k x).
Proof.
  intros Hall Hx. induction Hall as [|[k1 sy] [k2 y] sps ps [Hk Hy] Hrest IH]; simpl.
  - constructor; [split; [reflexivity|exact Hx]|constructor].
  - simpl in Hk, Hy. subst k2. destruct (String.eqb k k1).
    + constructor; [split; [reflexivity|exact Hx]|exact Hrest].
    + constructor; [split; [reflexivity|exact Hy]|exact IH].
Qed.

Lemma related_indexed {A B} (R : A -> B -> Prop) (sl : list A) (l : list B) :
  Forall2 R sl l -> forall i, Forall2 (Store.related R) (indexed_from i sl) (indexed_from i l).
Proof.
  induction 1 as [|sx x sl l Hx _ IH]; intros i; simpl; constructor.
  - split; [reflexivity|exact Hx].
  - apply IH.
Qed.

Lemma related_impl {A B} (R R' : A -> B -> Prop)
    (sps : list (string * A)) (ps : list (string * B)) :
  (forall sx x, R sx x -> R' sx x) ->
  Forall2 (Store.related R) sps ps -> Forall2 (Store.related R') sps ps.
Proof.
  intros HR Hall. eapply Forall2_impl; [|exact Hall].
  intros skv kv [Hk Hx]. split; [exact Hk|apply HR, Hx].
Qed.

Lemma chars_related (n d : nat) (h : Store.store) (s : string) :
  Forall2 (fun sx x => Store.reify n d h sx = Some x)
          (map Store.SStr (Str.chars s)) (map VStr (Str.chars s)).
Proof.
  induction (Str.chars s) as [|c l IH]; simpl; constructor; [|exact IH].
  destruct d; reflexivity.
Qed.

Section Correspondence.
Variables (n d : nat) (h : Store.store).

Local Abbreviation child := (fun sx x => Store.reify n (pred d) h sx = Some x).

(** The own properties of a reified value. *)
Lemma own_props_reify (v : Store.sval) (x : value) :
  Store.reify n d h v = Some x ->
  Forall2 (Store.related child) (Store.own_props h v) (own_props x).
Proof.
  intros E. destruct v as [| | | |s|l].
  - destruct d; inversion E; constructor.
  - destruct d; inversion E; constructor.
  - destruct d; inversion E; constructor.
  - destruct d; inversion E; constructor.
  - assert (x = VStr s) by (destruct d; inversion E; reflexivity). subst x.
    simpl. apply related_indexed, chars_related.
  - destruct d as [|d']; [discriminate|]. rewrite reify_ref in E. simpl.
    destruct (l <? n); [|discriminate].
    destruct (Store.read h l) as [[ps|es]|]; [| |discriminate].
    + destruct (Store.map_option _ ps) as [ps'|] eqn:Eps; [|discriminate].
      inversion E; subst x. simpl.
      apply map_option_Forall2 in Eps.
      eapply Forall2_impl; [|exact Eps].
      intros skv kv Hkv. unfold Store.on_value in Hkv.
      destruct (Store.reify n d' h (snd skv)) as [y|] eqn:Ey; [|discriminate].
      inversion Hkv. split; [reflexivity|exact Ey].
    + destruct (Store.map_option _ es) as [es'|] eqn:Ees; [|discriminate].
      inversion E; subst x. simpl.
      apply map_option_Forall2 in Ees. apply related_indexed, Ees.
Qed.

Lemma reify_length (es : list Store.sval) (es' : list value) (d' : nat) :
  Store.map_option (Store.reify n d' h) es = Some es' -> List.length es = List.length es'.
Proof. intros E. apply map_option_Forall2 in E. apply (Forall2_length E). Qed.

(** Reading a property of a reified value. *)
Lemma get_reify (v : Store.sval) (x : value) (key : string) :
  Store.reify n d h v = Some x ->
  match Store.get h v key, get x key with
  | Some sy, Ok y => Store.reify n (pred d) h sy = Some y
  | None, Throw _ => True
  | _, _ => False
  end.
Proof.
  intros E. pose proof (related_lookup child key _ _ (own_props_reify v x E)) as Hl.
  assert (Hs : forall y, Store.reify n (pred d) h Store.SUndef = Some VUndef
                         /\ Store.reify n (pred d) h (Store.SNum y) = Some (VNum y)).
  { intros y. destruct (pred d); split; reflexivity. }
  destruct v as [| | | |s|l].
  - destruct d; inversion E; exact I.
  - destruct d; inversion E; exact I.
  - destruct d; inversion E; apply (Hs 0%Z).
  - destruct d; inversion E; apply (Hs 0%Z).
  - assert (x = VStr s) by (destruct d; inversion E; reflexivity). subst x.
    simpl in *. destruct (String.eqb key "length"); [apply Hs|].
    destruct (lookup key (indexed (map Store.SStr (Str.chars s)))),
             (lookup key (indexed (map VStr (Str.chars s)))); try contradiction.
    + exact Hl.
    + apply (Hs 0%Z).
  - destruct d as [|d']; [discriminate|]. rewrite reify_ref in E. simpl in *.
    destruct (l <? n); [|discriminate].
    destruct (Store.read h l) as [[ps|es]|]; [| |discriminate].
    + destruct (Store.map_option _ ps) as [ps'|] eqn:Eps; [|discriminate].
      inversion E; subst x. simpl in *.
      destruct (lookup key ps), (lookup key ps'); try contradiction.
      * exact Hl.
      * apply (Hs 0%Z).
    + destruct (Store.map_option _ es) as [es'|] eqn:Ees; [|discriminate].
      inversion E; subst x. simpl in *.
      rewrite (reify_length es es' d' Ees).
      destruct (String.eqb key "length"); [apply Hs|].
      destruct (lookup key (indexed es)), (lookup key (indexed es')); try contradiction.
      * exact Hl.
      * apply (Hs 0%Z).
Qed.

Lemma isObject_reify (v : Store.sval) (x : value) :
  Store.reify n d h v = Some x -> Store.isObject h v = isObject x.
Proof.
  intros E. destruct v as [| | |z|s|l].
  - destruct d; inversion E; reflexivity.
  - destruct d; inversion E; reflexivity.
  - destruct d; inversion E; unfold isObject; simpl; rewrite andb_false_r; reflexivity.
  - destruct d; inversion E; unfold isObject; simpl; rewrite andb_false_r; reflexivity.
  - destruct d; inversion E; unfold isObject; simpl; rewrite andb_false_r; reflexivity.
  - destruct d as [|d']; [discriminate|]. rewrite reify_ref in E. simpl.
    destruct (l <? n); [|discriminate].
    destruct (Store.read h l) as [[ps|es]|]; [| |discriminate].
    + destruct (Store.map_option _ ps); inversion E. reflexivity.
    + destruct (Store.map_option _ es); inversion E. reflexivity.
Qed.

Lemma is_array_reify (v : Store.sval) (x : value) :
  Store.reify n d h v = Some x -> Store.is_array h v = is_array x.
Proof.
  intros E. destruct v as [| | |z|s|l]; try (destruct d; inversion E; reflexivity).
  destruct d as [|d']; [discriminate|]. rewrite reify_ref in E. simpl.
  destruct (l <? n); [|discriminate].
  destruct (Store.read h l) as [[ps|es]|]; [| |discriminate].
  - destruct (Store.map_option _ ps); inversion E. reflexivity.
  - destruct (Store.map_option _ es); inversion E. reflexivity.
Qed.

Lemma is_undefined_reify (v : Store.sval) (x : value) :
  Store.reify n d h v = Some x -> Store.is_undefined v = is_undefined x.
Proof.
  intros E. destruct v as [| | |z|s|l]; try (destruct d; inversion E; reflexivity).
  destruct d as [|d']; [discriminate|]. rewrite reify_ref in E.
  destruct (l <? n); [|discriminate].
  destruct (Store.read h l) as [[ps|es]|]; [| |discriminate].
  - destruct (Store.map_option _ ps); inversion E. reflexivity.
  - destruct (Store.map_option _ es); inversion E. reflexivity.
Qed.

End Correspondence.

Lemma get_agree_reify (n d : nat) (h h1 : Store.store) (v : Store.sval) (x : value)
    (key : string) :
  Store.reify n d h v = Some x -> Store.agree n h h1 ->
  Store.get h1 v key = Store.get h v key.
Proof.
  intros E Ha. destruct v as [| | | | |l]; try reflexivity.
  destruct d as [|d']; [discriminate|]. rewrite reify_ref in E. simpl.
  destruct (l <? n) eqn:El; [|discriminate].
  apply Nat.ltb_lt in El. rewrite (Ha l El). reflexivity.
Qed.

Section LoopSimulation.
Variable merge : Store.store -> Store.sval -> Store.sval -> Store.outcome.
Variables (n0 depth : nat) (h : Store.store) (base : Store.sval) (b : value).

Local Abbreviation r := (List.length h).
Local Abbreviation child := (fun sx x => Store.reify n0 (pred depth) h sx = Some x).

Hypothesis inputs_below : n0 <= List.length h.
Hypothesis merge_frame :
  forall h1 bv ov h2 m,
    merge h1 bv ov = Store.Done h2 m ->
    List.length h1 <= List.length h2
    /\ (forall l, l < List.length h1 -> Store.read h2 l = Store.read h1 l)
    /\ exists lm, m = Store.SRef lm /\ List.length h1 <= lm.
Hypothesis base_reified : Store.reify n0 depth h base = Some b.

Local Abbreviation robust := (Store.robust n0 depth h).

Hypothesis merge_sim :
  forall h1 sbv sov bv ov m,
    Store.loop_inv h r h1 ->
    child sbv bv -> child sov ov ->
    isObject bv = true -> isObject ov = true ->
    mergeConfig bv ov = Ok m ->
    exists h2 lm,
      merge h1 sbv sov = Store.Done h2 (Store.SRef lm)
      /\ forall h'',
           Store.agree n0 h h'' ->
           (forall l, List.length h1 <= l -> l < List.length h2 ->
                      Store.read h'' l = Store.read h2 l) ->
           Store.reify (List.length h2) depth h'' (Store.SRef lm) = Some m.

Lemma loop_inv_agree (h1 : Store.store) : Store.loop_inv h r h1 -> Store.agree n0 h h1.
Proof. intros [Hold _] l Hl. apply Hold. lia. Qed.

Lemma loop_inv_length (h1 : Store.store) : Store.loop_inv h r h1 -> r < List.length h1.
Proof. intros [_ [ps Hps]]. apply (read_some_lt _ _ _ Hps). Qed.

Lemma robust_of_child (hc : Store.store) (sx : Store.sval) (x : value) :
  n0 <= List.length hc -> child sx x -> robust hc sx x.
Proof.
  intros Hn Hc h'' Ha _.
  apply (reify_wider n0 _ depth Hn), reify_pred.
  rewrite (reify_agree n0 _ h h'' sx Ha). exact Hc.
Qed.

Lemma robust_mono (hc hc' : Store.store) (sx : Store.sval) (x : value) :
  List.length hc <= List.length hc' ->
  (forall l, r < l -> l < List.length hc -> Store.read hc' l = Store.read hc l) ->
  robust hc sx x -> robust hc' sx x.
Proof.
  intros Hlen Hsame Hr h'' Ha Hfresh.
  apply (reify_wider (List.length hc) _ depth Hlen), Hr; [exact Ha|].
  intros l Hl1 Hl2. rewrite Hfresh by lia. apply Hsame; assumption.
Qed.

Lemma merge_entries_sim (sentries : list (string * Store.sval))
    (entries : list (string * value)) :
  Forall2 (Store.related child) sentries entries ->
  forall h1 sres res res',
    Store.loop_inv h r h1 ->
    Store.read h1 r = Some (Store.Record sres) ->
    Forall2 (Store.related (robust h1)) sres res ->
    merge_props mergeConfig b entries res = Ok res' ->
    exists h' sres',
      Store.merge_entries merge base r sentries h1 = Store.Done h' (Store.SRef r)
      /\ Store.loop_inv h r h'
      /\ List.length h1 <= List.length h'
      /\ Store.read h' r = Some (Store.Record sres')
      /\ Forall2 (Store.related (robust h')) sres' res'.
Proof.
  induction 1 as [|[k sov] [k' ov] srest rest [Hk Hov] _ IH];
    intros h1 sres res res' Hinv Hr Hres Hm.
  - simpl in Hm. inversion Hm; subst res'. exists h1, sres. simpl. auto.
  - simpl in Hk, Hov. subst k'.
    cbn [merge_props] in Hm. fold (merge_props mergeConfig b) in Hm.
    destruct (merge_step b k ov (fun bv => mergeConfig bv ov) res) as [res1|e] eqn:Es;
      [|discriminate].
    cbn [bind] in Hm. unfold merge_step in Es.
    pose proof (get_reify n0 depth h base b k base_reified) as Hg.
    rewrite <- (get_agree_reify n0 depth h h1 base b k base_reified
                  (loop_inv_agree h1 Hinv)) in Hg.
    cbn [Store.merge_entries]. fold (Store.merge_entries merge base r).
    destruct (Store.get h1 base k) as [sbv|], (get b k) as [bv|e];
      try contradiction; try discriminate.
    cbn [bind] in Es.
    pose proof (loop_inv_agree h1 Hinv) as Ha1.
    assert (Hov1 : Store.reify n0 (pred depth) h1 sov = Some ov)
      by (rewrite (reify_agree n0 _ h h1 sov Ha1); exact Hov).
    assert (Hbv1 : Store.reify n0 (pred depth) h1 sbv = Some bv)
      by (rewrite (reify_agree n0 _ h h1 sbv Ha1); exact Hg).
    rewrite (is_undefined_reify _ _ _ _ _ Hov1).
    rewrite (isObject_reify _ _ _ _ _ Hov1), (isObject_reify _ _ _ _ _ Hbv1),
            (is_array_reify _ _ _ _ _ Hov1).
    pose proof (loop_inv_length h1 Hinv) as Hr1.
    destruct (is_undefined ov).
    { inversion Es; subst res1. apply (IH h1 sres res res' Hinv Hr Hres Hm). }
    destruct (isObject ov && isObject bv && negb (is_array ov)) eqn:Ec.
    + apply andb_true_iff in Ec. destruct Ec as [Ec _].
      apply andb_true_iff in Ec. destruct Ec as [Eov Ebv].
      destruct (mergeConfig bv ov) as [m|e] eqn:Em; [|discriminate].
      cbn [bind] in Es. inversion Es; subst res1.
      destruct (merge_sim h1 sbv sov bv ov m Hinv Hg Hov Ebv Eov Em)
        as (h2 & lm & Ems & Hpost).
      rewrite Ems.
      destruct (merge_frame _ _ _ _ _ Ems) as (Hlen & Hkeep & _).
      destruct (loop_inv_merge merge h r (le_n _) merge_frame h1 h2 sbv sov _ Hinv Ems)
        as [Hinv2 Er2].
      pose proof (loop_inv_assign h r (le_n _) h2 k (Store.SRef lm) Hinv2) as Hinv3.
      assert (Hr3 : Store.read (Store.assign h2 r k (Store.SRef lm)) r
                    = Some (Store.Record (set_prop sres k (Store.SRef lm)))).
      { apply read_assign_eq. rewrite Er2. exact Hr. }
      assert (Hlen3 : List.length (Store.assign h2 r k (Store.SRef lm)) = List.length h2)
        by apply length_assign.
      assert (Hres3 : Forall2 (Store.related (robust (Store.assign h2 r k (Store.SRef lm))))
                        (set_prop sres k (Store.SRef lm)) (set_prop res k m)).
      { apply related_set_prop.
        - apply (related_impl (robust h1)); [|exact Hres].
          intros sx x. apply robust_mono; [lia|].
          intros l Hl1 Hl2. rewrite read_assign_ne by lia. apply Hkeep, Hl2.
        - intros h'' Ha Hfresh. rewrite Hlen3. apply Hpost; [exact Ha|].
          intros l Hl1 Hl2. rewrite Hfresh by lia. apply read_assign_ne. lia. }
      destruct (IH _ _ _ res' Hinv3 Hr3 Hres3 Hm) as (h' & sres' & E' & Hinv' & Hlen' & R').
      exists h', sres'. split; [exact E'|]. split; [exact Hinv'|]. split; [lia|exact R'].
    + inversion Es; subst res1.
      pose proof (loop_inv_assign h r (le_n _) h1 k sov Hinv) as Hinv3.
      assert (Hlen3 : List.length (Store.assign h1 r k sov) = List.length h1)
        by apply length_assign.
      assert (Hres3 : Forall2 (Store.related (robust (Store.assign h1 r k sov)))
                        (set_prop sres k sov) (set_prop res k ov)).
      { apply related_set_prop.
        - apply (related_impl (robust h1)); [|exact Hres].
          intros sx x. apply robust_mono; [lia|].
          intros l Hl1 Hl2. apply read_assign_ne. lia.
        - apply robust_of_child; [lia|exact Hov]. }
      destruct (IH _ _ _ res' Hinv3 (read_assign_eq h1 r k sov sres Hr) Hres3 Hm)
        as (h' & sres' & E' & Hinv' & Hlen' & R').
      exists h', sres'. split; [exact E'|]. split; [exact Hinv'|]. split; [lia|exact R'].
Qed.

End LoopSimulation.

Lemma related_on_value {A B} (f : A -> option B)
    (sps : list (string * A)) (ps : list (string * B)) :
  Forall2 (Store.related (fun sx x => f sx = Some x)) sps ps ->
  Store.map_option (Store.on_value f) sps = Some ps.
Proof.
  intros Hall. apply map_option_Forall2.
  eapply Forall2_impl; [|exact Hall].
  intros [k sx] [k' x] [Hk Hx]. simpl in *. subst k'.
  unfold Store.on_value. simpl. rewrite Hx. reflexivity.
Qed.

(** The merge over the store computes the merge of the values that its
    arguments Store.denote; the value of its result depends only on the inputs
    and on the objects that the call allocates. *)
Lemma mergeConfig_store_sim (depth : nat) :
  forall n0 h base override b o m,
    n0 <= List.length h ->
    Store.reify n0 depth h base = Some b -> Store.reify n0 depth h override = Some o ->
    mergeConfig b o = Ok m ->
    exists h' r,
      Store.mergeConfig (S depth) h base override = Store.Done h' (Store.SRef r)
      /\ forall h'',
           Store.agree n0 h h'' ->
           (forall l, List.length h <= l -> l < List.length h' ->
                      Store.read h'' l = Store.read h' l) ->
           Store.reify (List.length h') (S depth) h'' (Store.SRef r) = Some m.
Proof.
  induction depth as [|depth IH]; intros n0 h base override b o m Hn Hb Ho Hm;
    rewrite mergeConfig_loop in Hm;
    destruct (merge_props mergeConfig b (own_props o) (own_props b)) as [res|e] eqn:Hloop;
    try discriminate; cbn [bind] in Hm; inversion Hm; subst m; clear Hm;
    cbn [Store.mergeConfig Store.alloc].
  - destruct (merge_entries_sim (Store.mergeConfig 0) n0 0 h base b Hn
                (mergeConfig_store_frame 0) Hb) with
        (sentries := Store.own_props h override) (entries := own_props o)
        (h1 := h ++ [Store.Record (Store.own_props h base)])
        (sres := Store.own_props h base) (res := own_props b) (res' := res)
      as (h' & sres' & E' & Hinv' & Hlen' & Hr' & R').
    + intros h1 sbv sov bv ov m _ _ Hov _ Eov _. exfalso.
      rewrite <- (isObject_reify _ _ _ _ _ Hov) in Eov.
      destruct sov; simpl in *; discriminate.
    + apply (own_props_reify n0 0 h override o Ho).
    + apply loop_inv_alloc.
    + apply read_alloc_new.
    + apply (related_impl (fun sx x => Store.reify n0 (pred 0) h sx = Some x)).
      * intros sx x. apply robust_of_child. rewrite length_app. simpl. lia.
      * apply (own_props_reify n0 0 h base b Hb).
    + exact Hloop.
    + exists h', (List.length h). split; [exact E'|].
      intros h'' Ha Hfresh. rewrite reify_ref.
      pose proof (read_some_lt _ _ _ Hr') as Hlt.
      assert (El : (List.length h <? List.length h') = true) by (apply Nat.ltb_lt; lia).
      rewrite El, (Hfresh _ (le_n _) Hlt), Hr'.
      rewrite (related_on_value (Store.reify (List.length h') 0 h'') sres' res); [reflexivity|].
      apply (related_impl (Store.robust n0 0 h h')); [|exact R'].
      intros sx x Hx. apply Hx; [exact Ha|].
      intros l Hl1 Hl2. apply Hfresh; lia.
  - destruct (merge_entries_sim (Store.mergeConfig (S depth)) n0 (S depth) h base b Hn
                (mergeConfig_store_frame (S depth)) Hb) with
        (sentries := Store.own_props h override) (entries := own_props o)
        (h1 := h ++ [Store.Record (Store.own_props h base)])
        (sres := Store.own_props h base) (res := own_props b) (res' := res)
      as (h' & sres' & E' & Hinv' & Hlen' & Hr' & R').
    + intros h1 sbv sov bv ov m Hinv Hbv Hov _ _ Em. simpl in Hbv, Hov.
      pose proof (loop_inv_agree n0 h Hn h1 Hinv) as Ha1.
      destruct (IH n0 h1 sbv sov bv ov m) as (h2 & lm & E2 & Hpost).
      * pose proof (loop_inv_length h h1 Hinv). lia.
      * rewrite (reify_agree n0 _ h h1 sbv Ha1). exact Hbv.
      * rewrite (reify_agree n0 _ h h1 sov Ha1). exact Hov.
      * exact Em.
      * exists h2, lm. split; [exact E2|].
        intros h'' Ha Hfresh. apply Hpost; [|exact Hfresh].
        intros l Hl. rewrite (Ha l Hl). symmetry. apply Ha1, Hl.
    + apply (own_props_reify n0 (S depth) h override o Ho).
    + apply loop_inv_alloc.
    + apply read_alloc_new.
    + apply (related_impl (fun sx x => Store.reify n0 (pred (S depth)) h sx = Some x)).
      * intros sx x. apply robust_of_child. rewrite length_app. simpl. lia.
      * apply (own_props_reify n0 (S depth) h base b Hb).
    + exact Hloop.
    + exists h', (List.length h). split; [exact E'|].
      intros h'' Ha Hfresh. rewrite reify_ref.
      pose proof (read_some_lt _ _ _ Hr') as Hlt.
      assert (El : (List.length h <? List.length h') = true) by (apply Nat.ltb_lt; lia).
      rewrite El, (Hfresh _ (le_n _) Hlt), Hr'.
      rewrite (related_on_value (Store.reify (List.length h') (S depth) h'') sres' res);
        [reflexivity|].
      apply (related_impl (Store.robust n0 (S depth) h h')); [|exact R'].
      intros sx x Hx. apply Hx; [exact Ha|].
      intros l Hl1 Hl2. apply Hfresh; lia.
Qed.

Lemma mergeConfig_store_refines (d : nat) (h : Store.store)
    (base override : Store.sval) (b o m : value) :
  Store.denote d h base = Some b -> Store.denote d h override = Some o ->
  mergeConfig b o = Ok m ->
  exists h' v,
    Store.mergeConfig (S d) h base override = Store.Done h' v
    /\ Store.denote (S d) h' v = Some m.
Proof.
  intros Hb Ho Hm.
  destruct (mergeConfig_store_sim d (List.length h) h base override b o m
              (le_n _) Hb Ho Hm) as (h' & r & E & Hpost).
  exists h', (Store.SRef r). split; [exact E|].
  apply Hpost.
  - intros l Hl. apply (mergeConfig_store_frame _ _ _ _ _ _ E), Hl.
  - intros l _ _. reflexivity.
Qed.

(** The sample store: its override, and the result of the merge, as
    values. *)
Lemma sample_store_override :
  Store.denote 3 sample_store (Store.SRef 3)
  = Some (VObj [ ("profile", VObj [ ("name", VStr "Ada") ]);
                 ("links", VArr [ VObj [ ("title", VStr "Blog") ] ]);
                 ("footer", VObj [ ("text", VStr "made with care") ]) ]).
Proof. reflexivity. Qed.

Lemma sample_store_merged :
  match Store.mergeConfig 4 sample_store (Store.SRef 0) (Store.SRef 3) with
  | Store.Done h' v => Store.denote 4 h' v
  | _ => None
  end
  = Some (VObj [ ("profile", VObj [ ("name", VStr "Ada") ]);
                 ("links", VArr [ VObj [ ("title", VStr "Blog") ] ]);
                 ("footer", VObj [ ("text", VStr "made with care") ]) ]).
Proof. reflexivity. Qed.

(** *** The merge over the store, key by key *)

Section MergeEntriesKeys.
Variable merge : Store.store -> Store.sval -> Store.sval -> Store.outcome.
Variables (d : nat) (h : Store.store) (base : Store.sval) (b : value).

Local Abbreviation r := (List.length h).

Hypothesis merge_frame :
  forall h1 bv ov h2 m,
    merge h1 bv ov = Store.Done h2 m ->
    List.length h1 <= List.length h2
    /\ (forall l, l < List.length h1 -> Store.read h2 l = Store.read h1 l)
    /\ exists lm, m = Store.SRef lm /\ List.length h1 <= lm.
Hypothesis base_reified : Store.reify (List.length h) d h base = Some b.

Lemma isObject_loop (h1 : Store.store) (sx : Store.sval) (x : value) (depth : nat) :
  Store.loop_inv h r h1 ->
  Store.reify (List.length h) depth h sx = Some x ->
  Store.isObject h1 sx = Store.isObject h sx.
Proof.
  intros [Hold _] Hx.
  rewrite (isObject_reify _ _ _ _ _ Hx).
  apply (isObject_reify (List.length h) depth h1).
  rewrite (reify_agree _ _ h h1 sx Hold). exact Hx.
Qed.

(** The loop, key by key: what it leaves under a key of the entries that
    it does not recurse on. *)
Lemma merge_entries_key (entries : list (string * Store.sval)) :
  Forall (fun kv => exists x,
            Store.reify (List.length h) (pred d) h (snd kv) = Some x) entries ->
  NoDup (map fst entries) ->
  forall h1 h' v ps ps',
    Store.loop_inv h r h1 ->
    Store.merge_entries merge base r entries h1 = Store.Done h' v ->
    Store.read h1 r = Some (Store.Record ps) ->
    Store.read h' r = Some (Store.Record ps') ->
    forall key ov,
      lookup key entries = Some ov ->
      (ov = Store.SUndef -> lookup key ps' = lookup key ps)
      /\ (ov <> Store.SUndef ->
          forall bv,
            Store.get h base key = Some bv ->
            Store.isObject h ov = false \/ Store.isObject h bv = false ->
            lookup key ps' = Some ov).
Proof.
  induction 1 as [|[k ov0] rest [x0 Hx0] _ IH]; intros Hnd h1 h' v ps ps' Hinv Hloop E1 E2
    key ov Hk; [discriminate|].
  inversion Hnd as [|? ? Hnotin Hnd']; subst. cbn [snd] in Hx0.
  cbn [Store.merge_entries] in Hloop.
  fold (Store.merge_entries merge base r) in Hloop.
  assert (Hagree : Store.agree (List.length h) h h1) by (intros l Hl; apply Hinv, Hl).
  rewrite (get_agree_reify _ _ h h1 base b k base_reified Hagree) in Hloop.
  pose proof (get_reify _ _ h base b k base_reified) as Hg.
  destruct (Store.get h base k) as [bv1|] eqn:Eg; [|discriminate].
  destruct (get b k) as [y1|e]; [|contradiction].
  rewrite (isObject_loop h1 ov0 x0 _ Hinv Hx0),
          (isObject_loop h1 bv1 y1 _ Hinv Hg) in Hloop.
  cbn [lookup] in Hk.
  destruct (Store.is_undefined ov0) eqn:Eu.
  { (* the key is skipped *)
    destruct (String.eqb key k) eqn:Ek.
    - apply String.eqb_eq in Ek. subst key. injection Hk as <-.
      destruct (merge_entries_spec merge h base r (le_n _) merge_frame rest
                  _ _ _ Hinv Hloop) as (_ & _ & Hps).
      destruct (Hps ps ps' E1 E2) as [Hnone _].
      split.
      + intros _. apply Hnone, lookup_not_in, Hnotin.
      + intros Hne. destruct ov0; discriminate || congruence.
    - apply (IH Hnd' h1 h' v ps ps' Hinv Hloop E1 E2 key ov Hk). }
  destruct (Store.isObject h ov0 && Store.isObject h bv1
            && negb (Store.is_array h1 ov0)) eqn:Ec.
  { (* the merge recurses *)
    destruct (merge h1 bv1 ov0) as [h2 m| |] eqn:Em; try discriminate.
    destruct (loop_inv_merge merge h r (le_n _) merge_frame h1 h2 bv1 ov0 m Hinv Em)
      as [Hinv2 Er2].
    pose proof (loop_inv_assign h r (le_n _) h2 k m Hinv2) as Hinv3.
    assert (E3 : Store.read (Store.assign h2 r k m) r
                 = Some (Store.Record (set_prop ps k m))).
    { apply read_assign_eq. rewrite Er2. exact E1. }
    destruct (String.eqb key k) eqn:Ek.
    - apply String.eqb_eq in Ek. subst key. injection Hk as <-.
      split.
      + intros ->. discriminate.
      + intros _ bv Hbv Hcase. exfalso.
        assert (bv = bv1) by congruence. subst bv.
        apply andb_true_iff in Ec. destruct Ec as [Ec _].
        apply andb_true_iff in Ec. destruct Ec as [Eo Eb].
        destruct Hcase; congruence.
    - destruct (IH Hnd' _ h' v _ ps' Hinv3 Hloop E3 E2 key ov Hk) as [Hu Hr].
      assert (Hsame : lookup key (set_prop ps k m) = lookup key ps).
      { apply lookup_set_prop_ne. intros ->. rewrite String.eqb_refl in Ek.
        discriminate. }
      split; [intros Hov; rewrite (Hu Hov); exact Hsame|exact Hr]. }
  { (* the override value is assigned *)
    pose proof (loop_inv_assign h r (le_n _) h1 k ov0 Hinv) as Hinv3.
    pose proof (read_assign_eq h1 r k ov0 ps E1) as E3.
    destruct (String.eqb key k) eqn:Ek.
    - apply String.eqb_eq in Ek. subst key. injection Hk as <-.
      destruct (merge_entries_spec merge h base r (le_n _) merge_frame rest
                  _ _ _ Hinv3 Hloop) as (_ & _ & Hps).
      destruct (Hps _ ps' E3 E2) as [Hnone _].
      split.
      + intros ->. discriminate.
      + intros _ bv _ _. rewrite (Hnone k (lookup_not_in rest k Hnotin)).
        apply lookup_set_prop_eq.
    - destruct (IH Hnd' _ h' v _ ps' Hinv3 Hloop E3 E2 key ov Hk) as [Hu Hr].
      assert (Hsame : lookup key (set_prop ps k ov0) = lookup key ps).
      { apply lookup_set_prop_ne. intros ->. rewrite String.eqb_refl in Ek.
        discriminate. }
      split; [intros Hov; rewrite (Hu Hov); exact Hsame|exact Hr]. }
Qed.

End MergeEntriesKeys.

Lemma related_reified {A B} (R : A -> B -> Prop)
    (sps : list (string * A)) (ps : list (string * B)) :
  Forall2 (Store.related R) sps ps ->
  Forall (fun kv => exists x, R (snd kv) x) sps.
Proof.
  induction 1 as [|skv kv sps ps [_ Hx] _ IH]; constructor; [eauto|exact IH].
Qed.

(** C9, as amended. On a base and an override that denote values (finite
    trees in the store), the override without a key [__proto__] in any of
    its records, [mergeConfig] returns, and its result denotes the merge
    of these values; it mutates no object that exists when it is called,
    so neither input; its result is a new record.  When no key of the
    override is repeated: under a key where the base and the override
    both hold a record, the result holds a new object; under a key that
    the override lacks or sets to [undefined], the result holds what the
    base holds, the same object if it is one; under every other key of
    the override, the result holds the override's value, the same object
    if it is one. *)
Theorem mergeConfig_store_fresh (d : nat) (h : Store.store)
    (base override : Store.sval) (b o : value) :
  Store.denote d h base = Some b -> Store.denote d h override = Some o ->
  nullish b = false ->
  proto_free o = true ->
  exists h' r props m,
    Store.mergeConfig (S d) h base override = Store.Done h' (Store.SRef r)
    /\ mergeConfig b o = Ok m
    /\ Store.denote (S d) h' (Store.SRef r) = Some m
    /\ (forall l, l < List.length h -> Store.read h' l = Store.read h l)
    /\ List.length h <= r
    /\ Store.read h' r = Some (Store.Record props)
    /\ (NoDup (map fst (Store.own_props h override)) ->
        (forall key overrideValue baseValue,
           lookup key (Store.own_props h override) = Some overrideValue ->
           Store.get h base key = Some baseValue ->
           record_at h overrideValue = true ->
           record_at h baseValue = true ->
           exists l, lookup key props = Some (Store.SRef l) /\ List.length h <= l)
        /\ (forall key,
              lookup key (Store.own_props h override) = None
              \/ lookup key (Store.own_props h override) = Some Store.SUndef ->
              lookup key props = lookup key (Store.own_props h base))
        /\ (forall key overrideValue baseValue,
              lookup key (Store.own_props h override) = Some overrideValue ->
              overrideValue <> Store.SUndef ->
              Store.get h base key = Some baseValue ->
              record_at h overrideValue = false \/ record_at h baseValue = false ->
              lookup key props = Some overrideValue)).
Proof.
  intros Hb Ho Hn _.
  destruct (mergeConfig_total o b Hn) as [res Hm].
  destruct (mergeConfig_store_refines d h base override b o _ Hb Ho Hm)
    as (h' & v & E & Hden).
  pose proof E as Eloop. cbn [Store.mergeConfig Store.alloc] in Eloop.
  pose proof (loop_inv_alloc h (Store.own_props h base)) as Hinv.
  pose proof (read_alloc_new h (Store.Record (Store.own_props h base))) as Hstart.
  destruct (merge_entries_spec (Store.mergeConfig d) h base (List.length h)
              (le_n _) (mergeConfig_store_frame d) _ _ _ _ Hinv Eloop)
    as (-> & [Hold [props Hprops]] & Hkeys).
  destruct (Hkeys _ props Hstart Hprops) as [Hnone Hnew].
  change record_at with Store.isObject.
  exists h', (List.length h), props, (VObj res).
  repeat (split; [assumption || apply le_n|]).
  intros Hnd.
  pose proof (merge_entries_key (Store.mergeConfig d) d h base b
                (mergeConfig_store_frame d) Hb (Store.own_props h override)
                (related_reified _ _ _ (own_props_reify _ _ _ _ _ Ho)) Hnd
                _ _ _ _ _ Hinv Eloop Hstart Hprops) as Hkey.
  split; [exact (Hnew Hnd)|]. split.
  - intros key [Hk|Hk]; [apply Hnone, Hk|].
    apply (Hkey key _ Hk). reflexivity.
  - intros key ov bv Hk Hdef Hbv Hcase.
    apply (proj2 (Hkey key ov Hk) Hdef bv Hbv Hcase).
Qed.

(** The sample store: the profile of the result is new, its links and
    its footer are the override's own array and record, at the locations
    4 and 6. *)
Lemma mergeConfig_store_fresh_witness :
  exists h' r props l,
    Store.mergeConfig 4 sample_store (Store.SRef 0) (Store.SRef 3)
    = Store.Done h' (Store.SRef r)
    /\ (forall l, l < 8 -> Store.read h' l = Store.read sample_store l)
    /\ Store.read h' r = Some (Store.Record props)
    /\ lookup "profile" props = Some (Store.SRef l) /\ 8 <= l
    /\ lookup "links" props = Some (Store.SRef 4)
    /\ lookup "footer" props = Some (Store.SRef 6).
Proof.
  destruct (mergeConfig_store_fresh 3 sample_store (Store.SRef 0) (Store.SRef 3) _ _
              eq_refl eq_refl eq_refl eq_refl)
    as (h' & r & props & m & Hm & _ & _ & Hold & _ & Hprops & Hkeys).
  destruct (Hkeys ltac:(repeat constructor; simpl; intuition discriminate))
    as (Hnew & _ & Hshared).
  destruct (Hnew "profile" (Store.SRef 7) (Store.SRef 1) eq_refl eq_refl eq_refl eq_refl)
    as (l & Hl & Hle).
  exists h', r, props, l.
  repeat (split; [assumption|]). split.
  - apply (Hshared "links" (Store.SRef 4) (Store.SRef 2)); try reflexivity;
      [discriminate|left; reflexivity].
  - apply (Hshared "footer" (Store.SRef 6) Store.SUndef); try reflexivity;
      [discriminate|right; reflexivity].
Defined.

(** * Further properties *)

(** ** The text sanitizer *)

Lemma free_of_app (c : ascii) (s t : string) :
  free_of c (s ++ t) = free_of c s && free_of c t.
Proof.
  unfold free_of. induction s as [|a s IH]; simpl; [reflexivity|].
  rewrite IH. apply andb_assoc.
Qed.

Lemma free_of_replaced (c : ascii) (rep s : string) :
  free_of c rep = true -> free_of c (Str.replace_all c rep s) = true.
Proof.
  intros Hrep. induction s as [|a s IH]; simpl; [reflexivity|].
  destruct (Ascii.eqb a c) eqn:E.
  - rewrite free_of_app, Hrep, IH. reflexivity.
  - unfold free_of in *. simpl. rewrite E, IH. reflexivity.
Qed.

Lemma free_of_replace_other (c c' : ascii) (rep s : string) :
  free_of c rep = true -> free_of c s = true ->
  free_of c (Str.replace_all c' rep s) = true.
Proof.
  intros Hrep. induction s as [|a s IH]; simpl; [reflexivity|].
  intros Hs. unfold free_of in Hs. simpl in Hs.
  apply andb_true_iff in Hs. destruct Hs as [Ha Hs].
  destruct (Ascii.eqb a c').
  - rewrite free_of_app, Hrep. apply IH, Hs.
  - unfold free_of in *. simpl. rewrite Ha. apply IH, Hs.
Qed.

Lemma free_of_rev_acc (c : ascii) (s acc : string) :
  free_of c (Str.rev_acc s acc) = free_of c s && free_of c acc.
Proof.
  revert acc. induction s as [|a s IH]; intros acc; simpl; [reflexivity|].
  rewrite IH. unfold free_of. simpl.
  destruct (negb (Ascii.eqb a c)); simpl; [reflexivity|].
  apply andb_false_r.
Qed.

Lemma free_of_rev (c : ascii) (s : string) : free_of c (Str.rev s) = free_of c s.
Proof. unfold Str.rev. rewrite free_of_rev_acc. apply andb_true_r. Qed.

Lemma free_of_trim_start (c : ascii) (s : string) :
  free_of c s = true -> free_of c (Str.trim_start s) = true.
Proof.
  induction s as [|a s IH]; simpl; [reflexivity|]. intros Hs.
  destruct (Str.is_space a); [|exact Hs].
  apply IH. unfold free_of in Hs. simpl in Hs.
  apply andb_true_iff in Hs. apply Hs.
Qed.

Lemma free_of_trim (c : ascii) (s : string) :
  free_of c s = true -> free_of c (Str.trim s) = true.
Proof.
  intros Hs. unfold Str.trim.
  rewrite free_of_rev. apply free_of_trim_start.
  rewrite free_of_rev. apply free_of_trim_start, Hs.
Qed.

Lemma escape_html_no_markup (c : ascii) (s : string) :
  In c markup -> free_of c (Validation.escape_html s) = true.
Proof.
  unfold markup, Validation.escape_html. simpl.
  intros [<-|[<-|[<-|[<-|[<-|[]]]]]].
  - do 4 (apply free_of_replace_other; [reflexivity|]).
    apply free_of_replaced. reflexivity.
  - do 3 (apply free_of_replace_other; [reflexivity|]).
    apply free_of_replaced. reflexivity.
  - do 2 (apply free_of_replace_other; [reflexivity|]).
    apply free_of_replaced. reflexivity.
  - apply free_of_replace_other; [reflexivity|].
    apply free_of_replaced. reflexivity.
  - apply free_of_replaced. reflexivity.
Qed.

Lemma sanitizeText_string (s : string) :
  Validation.sanitizeText (VStr s) = Ok (Str.trim (Validation.escape_html s)).
Proof.
  unfold Validation.sanitizeText. simpl.
  destruct s as [|a s]; reflexivity.
Qed.

Lemma sanitizeText_clean (text : value) (t : string) :
  Validation.sanitizeText text = Ok t -> clean t = true.
Proof.
  unfold Validation.sanitizeText.
  destruct (negb (truthy text)); [intros H; injection H as <-; reflexivity|].
  destruct text; try discriminate. intros H. injection H as <-.
  unfold clean. apply forallb_forall. intros c Hc.
  apply free_of_trim, escape_html_no_markup, Hc.
Qed.

(** X1. [sanitizeText] of a string returns, and the text it returns
    contains none of the characters [<], [>], double quote, apostrophe
    and [/]. *)
Theorem sanitizeText_no_markup (s : string) :
  exists t, Validation.sanitizeText (VStr s) = Ok t /\ clean t = true.
Proof.
  exists (Str.trim (Validation.escape_html s)).
  split; [apply sanitizeText_string|].
  apply (sanitizeText_clean (VStr s)), sanitizeText_string.
Qed.

Lemma occurrences_app (c : ascii) (s t : string) :
  occurrences c (s ++ t) = occurrences c s + occurrences c t.
Proof. induction s as [|a s IH]; simpl; [reflexivity|]. rewrite IH. lia. Qed.

Lemma occurrences_replace (d c : ascii) (rep s : string) :
  Ascii.eqb c d = false ->
  occurrences d (Str.replace_all c rep s)
  = occurrences d s + occurrences c s * occurrences d rep.
Proof.
  intros Hcd. induction s as [|a s IH]; simpl; [reflexivity|].
  destruct (Ascii.eqb a c) eqn:Eac.
  - apply Ascii.eqb_eq in Eac. subst a. rewrite Hcd.
    rewrite occurrences_app, IH. lia.
  - simpl. rewrite IH. lia.
Qed.

Lemma occurrences_rev_acc (c : ascii) (s acc : string) :
  occurrences c (Str.rev_acc s acc) = occurrences c s + occurrences c acc.
Proof.
  revert acc. induction s as [|a s IH]; intros acc; simpl; [reflexivity|].
  rewrite IH. simpl. lia.
Qed.

Lemma occurrences_rev (c : ascii) (s : string) :
  occurrences c (Str.rev s) = occurrences c s.
Proof. unfold Str.rev. rewrite occurrences_rev_acc. simpl. lia. Qed.

Lemma occurrences_trim_start (c : ascii) (s : string) :
  Str.is_space c = false -> occurrences c (Str.trim_start s) = occurrences c s.
Proof.
  intros Hc. induction s as [|a s IH]; simpl; [reflexivity|].
  destruct (Str.is_space a) eqn:Ea; [|reflexivity].
  rewrite IH. destruct (Ascii.eqb a c) eqn:E; [|reflexivity].
  apply Ascii.eqb_eq in E. congruence.
Qed.

Lemma occurrences_trim (c : ascii) (s : string) :
  Str.is_space c = false -> occurrences c (Str.trim s) = occurrences c s.
Proof.
  intros Hc. unfold Str.trim.
  rewrite occurrences_rev, (occurrences_trim_start c _ Hc).
  rewrite occurrences_rev. apply occurrences_trim_start, Hc.
Qed.

Lemma free_of_occurrences (c : ascii) (s : string) :
  free_of c s = true <-> occurrences c s = 0.
Proof.
  unfold free_of. induction s as [|a s IH]; simpl; [tauto|].
  destruct (Ascii.eqb a c); simpl; [split; [discriminate|lia]|exact IH].
Qed.

Lemma replace_all_free (c : ascii) (rep s : string) :
  free_of c s = true -> Str.replace_all c rep s = s.
Proof.
  unfold free_of. induction s as [|a s IH]; simpl; [reflexivity|].
  destruct (Ascii.eqb a c); simpl; [discriminate|].
  intros Hs. rewrite (IH Hs). reflexivity.
Qed.

(** The number of semicolons after the six replacements. *)
Lemma escape_html_semicolons (s : string) :
  occurrences ";" (Validation.escape_html s)
  = occurrences ";" s
    + occurrences Validation.amp s + occurrences "<" s + occurrences ">" s
    + occurrences Validation.quot s + occurrences Validation.apos s
    + occurrences "/" s.
Proof.
  unfold Validation.escape_html.
  repeat (rewrite occurrences_replace by reflexivity).
  change (occurrences ";" "&#x2F;") with 1.
  change (occurrences ";" "&#x27;") with 1.
  change (occurrences ";" "&quot;") with 1.
  change (occurrences ";" "&gt;") with 1.
  change (occurrences ";" "&lt;") with 1.
  change (occurrences ";" "&amp;") with 1.
  change (occurrences "/" "&#x27;") with 0.
  change (occurrences "/" "&quot;") with 0.
  change (occurrences "/" "&gt;") with 0.
  change (occurrences "/" "&lt;") with 0.
  change (occurrences "/" "&amp;") with 0.
  change (occurrences Validation.apos "&quot;") with 0.
  change (occurrences Validation.apos "&gt;") with 0.
  change (occurrences Validation.apos "&lt;") with 0.
  change (occurrences Validation.apos "&amp;") with 0.
  change (occurrences Validation.quot "&gt;") with 0.
  change (occurrences Validation.quot "&lt;") with 0.
  change (occurrences Validation.quot "&amp;") with 0.
  change (occurrences ">" "&lt;") with 0.
  change (occurrences ">" "&amp;") with 0.
  change (occurrences "<" "&amp;") with 0.
  lia.
Qed.

Lemma escape_html_free (s : string) :
  forallb (fun c => free_of c s) (Validation.amp :: markup) = true ->
  Validation.escape_html s = s.
Proof.
  simpl. intros Hfree.
  repeat (apply andb_true_iff in Hfree; destruct Hfree as [? Hfree]).
  unfold Validation.escape_html.
  rewrite (replace_all_free Validation.amp _ s) by assumption.
  rewrite (replace_all_free "<" _ s) by assumption.
  rewrite (replace_all_free ">" _ s) by assumption.
  rewrite (replace_all_free Validation.quot _ s) by assumption.
  rewrite (replace_all_free Validation.apos _ s) by assumption.
  apply replace_all_free. assumption.
Qed.

Lemma sanitizeText_plain (s : string) :
  forallb (fun c => free_of c s) (Validation.amp :: markup) = true ->
  Str.trim s = s ->
  Validation.sanitizeText (VStr s) = Ok s.
Proof.
  intros Hfree Htrim.
  rewrite sanitizeText_string, (escape_html_free s Hfree), Htrim. reflexivity.
Qed.

(** X2. The texts that [sanitizeText] returns unchanged are exactly the
    texts without [&], [<], [>], double quote, apostrophe and [/] that
    have no white space at either end.  Every other text is changed, an
    already escaped text in particular: the function is not idempotent. *)
Theorem sanitizeText_fixed_point (s : string) :
  Validation.sanitizeText (VStr s) = Ok s
  <-> forallb (fun c => free_of c s) (Validation.amp :: markup) = true
      /\ Str.trim s = s.
Proof.
  rewrite sanitizeText_string. split.
  - intros H. assert (E : Str.trim (Validation.escape_html s) = s) by congruence.
    clear H. pose proof (f_equal (occurrences ";") E) as Hn.
    rewrite occurrences_trim, escape_html_semicolons in Hn by reflexivity.
    assert (Hfree : forallb (fun c => free_of c s) (Validation.amp :: markup) = true).
    { simpl. repeat (apply andb_true_iff; split); try reflexivity;
        apply free_of_occurrences; lia. }
    split; [exact Hfree|].
    rewrite (escape_html_free s Hfree) in E. exact E.
  - intros [Hfree Htrim]. rewrite <- sanitizeText_string.
    apply sanitizeText_plain; assumption.
Qed.

(** ** Reading a pipeline that returned *)

Lemma bind_Ok {A B} (m : result A) (k : A -> result B) (b : B) :
  bind m k = Ok b -> exists a, m = Ok a /\ k a = Ok b.
Proof. destruct m as [a|e]; simpl; [eauto|discriminate]. Qed.

Lemma bind_Throw {A B} (m : result A) (k : A -> result B) (e : exn) :
  m = Throw e -> bind m k = Throw e.
Proof. intros ->. reflexivity. Qed.

(** Splits a hypothesis [x <- m ;; ... = Ok b] into one equation for
    each step. *)
Ltac invert_binds H :=
  repeat (apply bind_Ok in H; destruct H as (? & ? & H); cbv beta in H).

Lemma push_if_nil (c : bool) (f m : string) : Validation.push_if c f m = [] -> c = false.
Proof. destruct c; [discriminate|reflexivity]. Qed.

Section SchemaValidator.
Context `{P : Platform}.

Lemma or_else_false (a : bool) (b : result bool) :
  Validation.or_else a b = Ok false -> a = false /\ b = Ok false.
Proof. destruct a; simpl; [discriminate|auto]. Qed.

Lemma validateLink_nil (i : nat) (link : value) :
  Validation.validateLink i link = Ok [] -> accepted_link link.
Proof.
  unfold Validation.validateLink. intros H. invert_binds H.
  inversion H as [He]. clear H.
  apply app_eq_nil in He. destruct He as [Hc1 He].
  apply app_eq_nil in He. destruct He as [_ He].
  apply app_eq_nil in He. destruct He as [Hc3 _].
  apply push_if_nil in Hc1, Hc3. subst.
  match goal with
  | H : Validation.or_else (negb (truthy ?t)) (Validation.length_is_zero _) = _ |- _ =>
      apply or_else_false in H; destruct H as [Ht _]
  end.
  match goal with
  | H : Validation.or_else (negb (truthy ?u)) (Ok _) = _ |- _ =>
      apply or_else_false in H; destruct H as [Hu Hv]
  end.
  apply negb_false_iff in Ht, Hu.
  match type of Hv with
  | Ok (negb (Validation.validateUrl ?u)) = _ =>
      assert (Hv' : Validation.validateUrl u = true)
        by (apply negb_false_iff; congruence)
  end.
  eexists _, _. repeat split; eassumption.
Qed.

Lemma validateLinksFrom_nil (links : list value) :
  forall i, Validation.validateLinksFrom i links = Ok [] -> Forall accepted_link links.
Proof.
  induction links as [|link links IH]; intros i H; [constructor|].
  simpl in H. invert_binds H. inversion H as [He].
  apply app_eq_nil in He. destruct He as [-> ->].
  constructor; [eapply validateLink_nil; eassumption|eapply IH; eassumption].
Qed.

End SchemaValidator.

(** X3. A configuration that [validateConfig] of [validation.ts] accepts
    has a name that is not empty, at most 20 links, each of them with a
    title that is not empty and a URL that [validateUrl] accepts, and a
    primary colour that [validateHexColor] accepts. *)
Theorem validateConfig_sound `{P : Platform} (config : value) (r : ValidationResult) :
  Validation.validateConfig config = Ok r ->
  isValid r = true ->
  exists name links primaryColor,
    Validation.get2 config "profile" "name" = Ok name /\ truthy name = true
    /\ get config "links" = Ok (VArr links)
    /\ List.length links <= 20
    /\ Forall accepted_link links
    /\ Validation.get2 config "theme" "primaryColor" = Ok primaryColor
    /\ Validation.validateHexColor primaryColor = true.
Proof.
  unfold Validation.validateConfig. intros H Hvalid. invert_binds H.
  inversion H as [Hr]. clear H. subst r. simpl in Hvalid.
  match type of Hvalid with is_nil ?l = true => destruct l eqn:He; [|discriminate] end.
  clear Hvalid.
  apply app_eq_nil in He. destruct He as [Hp1 He]. apply push_if_nil in Hp1.
  do 4 (apply app_eq_nil in He; destruct He as [_ He]).
  apply app_eq_nil in He. destruct He as [Hl1 He]. apply push_if_nil in Hl1.
  apply app_eq_nil in He. destruct He as [Hl2 He].
  apply app_eq_nil in He. destruct He as [_ He].
  apply app_eq_nil in He. destruct He as [Hc _]. apply push_if_nil in Hc.
  apply negb_false_iff in Hc. subst.
  match goal with
  | H : Validation.or_else (negb (truthy ?t)) (Validation.length_is_zero _) = _ |- _ =>
      apply or_else_false in H; destruct H as [Hname _]
  end.
  apply negb_false_iff in Hname.
  match goal with
  | H : Validation.validateLinks ?l = Ok [] |- _ =>
      destruct l as [| | | | |links|]; try discriminate; simpl in H;
      apply validateLinksFrom_nil in H
  end.
  match goal with
  | H : Validation.length_gt (VArr links) 20 = Ok false |- _ =>
      unfold Validation.length_gt in H; simpl in H;
      assert (Hlen : (Z.of_nat (List.length links) >? 20)%Z = false) by congruence
  end.
  eexists _, links, _. repeat split; try eassumption.
  rewrite Z.gtb_ltb in Hlen. apply Z.ltb_ge in Hlen. lia.
Qed.

Section BadUrl.
Context `{P : Platform}.

Lemma validateLink_bad_url (i : nat) (link url : value) (es : list ConfigError) :
  Validation.validateLink i link = Ok es ->
  get link "url" = Ok url -> Validation.validateUrl url = false ->
  In (url_error i) es.
Proof.
  unfold Validation.validateLink. intros H Hurl Hbad. invert_binds H.
  injection H as Hes. symmetry in Hes.
  match goal with
  | H : get link "url" = Ok ?u |- _ =>
      assert (u = url) by congruence; subst u
  end.
  match goal with
  | H : Validation.or_else (negb (truthy url)) _ = Ok ?c |- _ =>
      assert (c = true) by
        (rewrite Hbad in H; destruct (truthy url); simpl in H; congruence);
      subst c
  end.
  rewrite Hes. apply in_or_app. right. apply in_or_app. right.
  apply in_or_app. left. left. reflexivity.
Qed.

Lemma validateLinksFrom_bad_url (links : list value) :
  forall i es j link url,
    Validation.validateLinksFrom i links = Ok es ->
    nth_error links j = Some link ->
    get link "url" = Ok url -> Validation.validateUrl url = false ->
    In (url_error (i + j)) es.
Proof.
  induction links as [|l links IH]; intros i es j link url H Hj Hurl Hbad.
  - destruct j; discriminate.
  - simpl in H. invert_binds H.
    injection H as Hes. rewrite <- Hes.
    apply in_or_app. destruct j as [|j]; simpl in Hj.
    + left. inversion Hj; subst l. rewrite Nat.add_0_r.
      eapply validateLink_bad_url; eassumption.
    + right. replace (i + S j) with (S i + j) by lia.
      eapply IH; eassumption.
Qed.

End BadUrl.

(** X4. When the URL of the link at position [index] fails [validateUrl],
    the result of [validateConfig] is invalid and its errors contain
    [Invalid URL format] under the field of that link, [links[index].url]. *)
Theorem validateConfig_reports_bad_url `{P : Platform}
    (config : value) (r : ValidationResult)
    (links : list value) (index : nat) (link url : value) :
  Validation.validateConfig config = Ok r ->
  get config "links" = Ok (VArr links) ->
  nth_error links index = Some link ->
  get link "url" = Ok url ->
  Validation.validateUrl url = false ->
  isValid r = false /\ In (url_error index) (errors r).
Proof.
  unfold Validation.validateConfig. intros H Hlinks Hindex Hurl Hbad. invert_binds H.
  injection H as Hr. symmetry in Hr.
  match goal with
  | H : get config "links" = Ok ?l |- _ =>
      assert (l = VArr links) by congruence; subst l
  end.
  match goal with
  | H : Validation.validateLinks (VArr links) = Ok ?es |- _ =>
      simpl in H;
      pose proof (validateLinksFrom_bad_url links 0 es index link url
                    H Hindex Hurl Hbad) as Hin
  end.
  simpl in Hin.
  assert (Herr : In (url_error index) (errors r)).
  { rewrite Hr. cbn [errors]. do 6 (apply in_or_app; right).
    apply in_or_app. left. exact Hin. }
  split; [|exact Herr].
  rewrite Hr in Herr |- *. cbn [errors isValid] in *.
  match goal with |- is_nil ?l = false => destruct l; [destruct Herr|reflexivity] end.
Qed.

Lemma validateConfig_reports_bad_url_witness :
  exists r,
    Validation.validateConfig (P := Reference.platform) (with_links [good_link; bad_link])
      = Ok r
    /\ isValid r = false /\ In (url_error 1) (errors r).
Proof.
  eexists. split; [reflexivity|].
  apply (validateConfig_reports_bad_url (P := Reference.platform)
           (with_links [good_link; bad_link]) _ [good_link; bad_link] 1 bad_link
           (VStr "javascript:alert(1)")); reflexivity.
Defined.

Lemma validateConfig_sound_witness :
  exists name links primaryColor,
    Validation.get2 (config_with_profile profile_without_bio) "profile" "name" = Ok name
    /\ truthy name = true
    /\ get (config_with_profile profile_without_bio) "links" = Ok (VArr links)
    /\ List.length links <= 20
    /\ Forall (accepted_link (P := Reference.platform)) links
    /\ Validation.get2 (config_with_profile profile_without_bio) "theme" "primaryColor"
       = Ok primaryColor
    /\ Validation.validateHexColor primaryColor = true.
Proof.
  apply (validateConfig_sound (P := Reference.platform)
           (config_with_profile profile_without_bio)
           {| isValid := true; errors := []; warnings := [] |}); reflexivity.
Defined.

(** ** The sanitizer of a configuration *)

Lemma get_own_props (v : value) (k : string) :
  nullish v = false -> k <> "length" ->
  get v k = Ok (match lookup k (own_props v) with Some x => x | None => VUndef end).
Proof.
  intros Hv Hk.
  assert (E : String.eqb k "length" = false) by (apply String.eqb_neq, Hk).
  destruct v; simpl in *; try discriminate; try reflexivity; rewrite ?E.
  - destruct (lookup k _); reflexivity.
  - destruct (lookup k _); reflexivity.
  - destruct (lookup k props); reflexivity.
Qed.

Lemma get_Ok_not_nullish (v x : value) (k : string) : get v k = Ok x -> nullish v = false.
Proof. destruct v; simpl; intros H; discriminate || reflexivity. Qed.

Lemma map_result_Forall2 {A B} (f : A -> result B) (l : list A) :
  forall l', Validation.map_result f l = Ok l' -> Forall2 (fun a b => f a = Ok b) l l'.
Proof.
  induction l as [|a l IH]; simpl; intros l' H.
  - injection H as <-. constructor.
  - invert_binds H. injection H as <-. constructor; [assumption|apply IH; assumption].
Qed.

Lemma sanitizeLink_url (link link' : value) :
  Validation.sanitizeLink link = Ok link' -> get link' "url" = get link "url".
Proof.
  unfold Validation.sanitizeLink. intros H. invert_binds H. injection H as <-.
  match goal with
  | H : get link "title" = Ok _ |- _ => pose proof (get_Ok_not_nullish _ _ _ H) as Hn
  end.
  rewrite (get_own_props link "url" Hn) by discriminate.
  cbn [get]. rewrite !lookup_set_prop_ne by discriminate.
  destruct (lookup "url" (own_props link)); reflexivity.
Qed.

(** The links of a sanitized configuration. *)
Lemma sanitizeConfig_links (config config' : value) :
  Validation.sanitizeConfig config = Ok config' ->
  exists links links',
    get config "links" = Ok (VArr links)
    /\ get config' "links" = Ok (VArr links')
    /\ Forall2 (fun link link' => get link' "url" = get link "url") links links'.
Proof.
  unfold Validation.sanitizeConfig. intros H. invert_binds H. injection H as <-.
  match goal with
  | H : Validation.sanitizeLinks ?l = Ok ?l' |- _ =>
      destruct l as [| | | | |links|]; try discriminate;
      simpl in H; invert_binds H; injection H as <-
  end.
  eexists _, _. split; [eassumption|]. split; [reflexivity|].
  match goal with
  | H : Validation.map_result _ _ = Ok _ |- _ => apply map_result_Forall2 in H
  end.
  eapply Forall2_impl; [|eassumption].
  intros link link'. apply sanitizeLink_url.
Qed.

(** X5. [sanitizeConfig] of [validation.ts] escapes text only: it returns
    every link, in order, with the [url] it had, valid or not; the avatar
    and the sections [socialMedia], [theme], [layout], [analytics] and
    [advanced] are returned as they are. *)
Theorem sanitizeConfig_keeps_urls (config config' : value) :
  Validation.sanitizeConfig config = Ok config' ->
  (exists links links',
     get config "links" = Ok (VArr links)
     /\ get config' "links" = Ok (VArr links')
     /\ Forall2 (fun link link' => get link' "url" = get link "url") links links')
  /\ Validation.get2 config' "profile" "avatar" = Validation.get2 config "profile" "avatar"
  /\ Forall (fun section => get config' section = get config section)
       [ "socialMedia"; "theme"; "layout"; "analytics"; "advanced" ].
Proof.
  intros H. split; [exact (sanitizeConfig_links config config' H)|].
  unfold Validation.sanitizeConfig in H. invert_binds H. injection H as <-.
  split.
  - symmetry. assumption.
  - repeat constructor; symmetry; assumption.
Qed.

Lemma sanitizeConfig_keeps_urls_witness :
  exists links',
    (v <- Validation.sanitizeConfig (with_links [bad_link]) ;; get v "links")
      = Ok (VArr links')
    /\ Forall2 (fun link link' => get link' "url" = get link "url") [bad_link] links'.
Proof.
  destruct (sanitizeConfig_keeps_urls (with_links [bad_link]) _ eq_refl)
    as ((links & links' & Hl & Hl' & Hall) & _).
  exists links'. split; [exact Hl'|].
  injection Hl as <-. exact Hall.
Defined.

(** ** More on the merge *)

(** X6. [mergeConfig] throws exactly when the base is [null] or
    [undefined] and the override has a key to visit. *)
Theorem mergeConfig_throws_iff (base override : value) :
  (exists e, mergeConfig base override = Throw e)
  <-> nullish base = true /\ own_props override <> [].
Proof.
  split.
  - intros [e He]. destruct (nullish base) eqn:Hb.
    + split; [reflexivity|]. intros Hnil.
      rewrite mergeConfig_loop, Hnil in He. discriminate.
    + destruct (mergeConfig_total override base Hb) as [r Hr]. congruence.
  - intros [Hb Hne]. rewrite mergeConfig_loop.
    destruct (own_props override) as [|[k ov] ps]; [congruence|].
    cbn [merge_props]. unfold merge_step.
    destruct base; try discriminate; simpl; eauto.
Qed.

Lemma set_prop_keys {A} (ps : list (string * A)) (k : string) (v : A) :
  map fst (set_prop ps k v) = map fst ps
  \/ (map fst (set_prop ps k v) = map fst ps ++ [k] /\ ~ In k (map fst ps)).
Proof.
  induction ps as [|[k' v'] ps IH]; simpl.
  - right. split; [reflexivity|tauto].
  - destruct (String.eqb k k') eqn:E; simpl; [left; reflexivity|].
    apply String.eqb_neq in E.
    destruct IH as [IH|[IH Hn]]; rewrite IH; [left; reflexivity|].
    right. split; [reflexivity|]. intros [H|H]; [congruence|tauto].
Qed.

Lemma merge_step_keys (base : value) (k : string) (ov : value)
    (recurse : value -> result value) (res res' : list (string * value)) :
  merge_step base k ov recurse res = Ok res' ->
  map fst res' = map fst res
  \/ (map fst res' = map fst res ++ [k] /\ ~ In k (map fst res)).
Proof.
  unfold merge_step. intros H. invert_binds H.
  destruct (is_undefined ov); [injection H as <-; left; reflexivity|].
  destruct (_ && _).
  - invert_binds H. injection H as <-. apply set_prop_keys.
  - injection H as <-. apply set_prop_keys.
Qed.

Lemma merge_props_keys (merge : value -> value -> result value) (base : value)
    (ps : list (string * value)) :
  forall res r,
    merge_props merge base ps res = Ok r ->
    exists extra,
      map fst r = map fst res ++ extra
      /\ Forall (fun k => In k (map fst ps) /\ ~ In k (map fst res)) extra.
Proof.
  induction ps as [|[k ov] ps IH]; intros res r H.
  - injection H as <-. exists []. rewrite app_nil_r. split; [reflexivity|constructor].
  - cbn [merge_props] in H. fold (merge_props merge base) in H.
    invert_binds H.
    match goal with Hs : merge_step _ _ _ _ _ = Ok ?res' |- _ =>
      apply merge_step_keys in Hs; destruct (IH res' r H) as (extra & Hr & Hall);
      destruct Hs as [Hs|[Hs Hnew]]; rewrite Hs in Hr, Hall
    end.
    + exists extra. split; [exact Hr|].
      eapply Forall_impl; [|exact Hall]. simpl. intros a [Ha Hn]. tauto.
    + exists (k :: extra). rewrite <- app_assoc in Hr. split; [exact Hr|].
      constructor; [simpl; tauto|].
      eapply Forall_impl; [|exact Hall]. simpl. intros a [Ha Hn]. split; [tauto|].
      intros Hin. apply Hn. apply in_or_app. left. exact Hin.
Qed.

(** X7. [mergeConfig] never removes or moves a key of the base, for an
    override whose keys are enumerated where they were inserted (none is
    [__proto__] or a string of digits): the keys of the result are the
    keys of the base, in their order, followed by keys of the override
    that the base does not have. *)
Theorem mergeConfig_keys (base override : value) :
  nullish base = false ->
  forallb ordinary_key (map fst (own_props override)) = true ->
  exists result extra,
    mergeConfig base override = Ok (VObj result)
    /\ map fst result = map fst (own_props base) ++ extra
    /\ Forall (fun key => In key (map fst (own_props override))
                          /\ ~ In key (map fst (own_props base))) extra.
Proof.
  intros Hb _. destruct (mergeConfig_total override base Hb) as [r Hr].
  exists r. pose proof Hr as Hloop. rewrite mergeConfig_loop in Hloop.
  invert_binds Hloop. injection Hloop as ->.
  match goal with H : merge_props _ _ _ _ = Ok _ |- _ =>
    destruct (merge_props_keys _ _ _ _ _ H) as (extra & Hk & Hall)
  end.
  exists extra. auto.
Qed.

Lemma mergeConfig_keys_witness :
  exists result extra,
    mergeConfig DEFAULT_CONFIG (VObj [("footer", VStr "made with care")])
      = Ok (VObj result)
    /\ map fst result = map fst (own_props DEFAULT_CONFIG) ++ extra
    /\ Forall (fun key => In key ["footer"]
                          /\ ~ In key (map fst (own_props DEFAULT_CONFIG))) extra.
Proof.
  apply (mergeConfig_keys DEFAULT_CONFIG (VObj [("footer", VStr "made with care")]));
    reflexivity.
Defined.

(** What the merge leaves under the keys of a record override, for the
    two cases used below. *)
Lemma mergeConfig_replaced (base : value) (ps r : list (string * value))
    (k : string) (ov : value) :
  mergeConfig base (VObj ps) = Ok (VObj r) ->
  NoDup (map fst ps) ->
  lookup k ps = Some ov -> is_undefined ov = false -> isObject ov = false ->
  lookup k r = Some ov.
Proof.
  intros Hm Hnd Hk Hu Ho. rewrite mergeConfig_loop in Hm. invert_binds Hm.
  injection Hm as ->.
  match goal with H : merge_props _ _ _ _ = Ok _ |- _ =>
    pose proof (merge_props_key _ _ _ Hnd _ _ H k) as Hkey
  end.
  simpl own_props in Hkey. rewrite Hk in Hkey. destruct Hkey as (bv & _ & Hkey).
  rewrite Hu, Ho in Hkey. exact Hkey.
Qed.

Lemma mergeConfig_recursed (base : value) (ps r : list (string * value))
    (k : string) (ov bv : value) :
  mergeConfig base (VObj ps) = Ok (VObj r) ->
  NoDup (map fst ps) ->
  lookup k ps = Some ov -> get base k = Ok bv ->
  isObject ov = true -> isObject bv = true ->
  exists m, mergeConfig bv ov = Ok (VObj m) /\ lookup k r = Some (VObj m).
Proof.
  intros Hm Hnd Hk Hb Ho Hbv. rewrite mergeConfig_loop in Hm. invert_binds Hm.
  injection Hm as ->.
  match goal with H : merge_props _ _ _ _ = Ok _ |- _ =>
    pose proof (merge_props_key _ _ _ Hnd _ _ H k) as Hkey
  end.
  simpl own_props in Hkey. rewrite Hk in Hkey. destruct Hkey as (bv' & Hb' & Hkey).
  assert (bv' = bv) by congruence. subst bv'.
  destruct (isObject_record ov Ho) as [ops ->].
  rewrite Hbv, Ho in Hkey. cbn [is_undefined is_array negb andb] in Hkey.
  destruct Hkey as (m & Hm & Hl).
  destruct (mergeConfig_total (VObj ops) bv (isObject_not_nullish bv Hbv)) as [m' Hm'].
  exists m'. split; [exact Hm'|]. congruence.
Qed.

(** ** What the loader returns *)

Section LoaderPaths.
Context `{P : Platform}.

(** The three ways out of [loadConfig]. *)
Lemma loadConfig_paths (f : fetch_behaviour) :
  ((exists e, loadConfig_try f = Throw e) /\ loadConfig f = Ok DEFAULT_CONFIG)
  \/ exists doc merged r s,
       loadUserConfig f = Ok doc
       /\ mergeConfig DEFAULT_CONFIG doc = Ok (VObj merged)
       /\ Validation.validateConfig (VObj merged) = Ok r
       /\ Validation.sanitizeConfig (VObj merged) = Ok s
       /\ ((isValid r = true /\ loadConfig f = Ok s)
           \/ (isValid r = false
               /\ exists out,
                    mergeConfig DEFAULT_CONFIG s = Ok (VObj out)
                    /\ loadConfig f = Ok (VObj out))).
Proof.
  unfold loadConfig, loadConfig_try.
  destruct (loadUserConfig_total f) as [doc Hdoc]. rewrite Hdoc. cbn [bind].
  destruct (mergeConfig_total doc DEFAULT_CONFIG eq_refl) as [merged Hm].
  rewrite Hm. cbn [bind].
  destruct (Validation.validateConfig (VObj merged)) as [r|e] eqn:Hv;
    [|left; split; [exists e|]; reflexivity].
  cbn [bind].
  destruct (Validation.sanitizeConfig (VObj merged)) as [s|e] eqn:Hs.
  - right. exists doc, merged, r, s. repeat (split; [reflexivity || assumption|]).
    destruct (isValid r); cbn [negb bind].
    + left. auto.
    + right. split; [reflexivity|].
      destruct (mergeConfig_total s DEFAULT_CONFIG eq_refl) as [out Hout].
      exists out. rewrite Hout. auto.
  - left. destruct (isValid r); (split; [exists e|]; reflexivity).
Qed.

Lemma get2_Ok (v x : value) (a b : string) :
  Validation.get2 v a b = Ok x ->
  exists s, get v a = Ok s /\ nullish s = false /\ get s b = Ok x.
Proof.
  unfold Validation.get2. intros H. invert_binds H.
  eexists. split; [eassumption|]. split; [|exact H].
  eapply get_Ok_not_nullish, H.
Qed.

(** The sections that the schema validator reads are not [null]. *)
Lemma validateConfig_present (config : value) (r : ValidationResult) :
  Validation.validateConfig config = Ok r ->
  Forall (present config)
    [ "profile"; "links"; "socialMedia"; "theme"; "seo"; "analytics" ].
Proof.
  unfold Validation.validateConfig. intros H. invert_binds H. clear H.
  repeat constructor.
  - match goal with
    | H : Validation.get2 config "profile" "name" = Ok _ |- _ =>
        apply get2_Ok in H; destruct H as (s & ? & ? & _); exists s; auto
    end.
  - match goal with
    | H : Validation.length_gt ?v 20 = Ok _ |- _ =>
        exists v; split; [assumption|];
        unfold Validation.length_gt in H; invert_binds H;
        eapply get_Ok_not_nullish; eassumption
    end.
  - match goal with
    | H : Validation.object_entries ?v = Ok _ |- _ =>
        exists v; split; [assumption|]; destruct v; simpl in H; discriminate || reflexivity
    end.
  - match goal with
    | H : Validation.get2 config "theme" "primaryColor" = Ok _ |- _ =>
        apply get2_Ok in H; destruct H as (s & ? & ? & _); exists s; auto
    end.
  - match goal with
    | H : Validation.get2 config "seo" "title" = Ok _ |- _ =>
        apply get2_Ok in H; destruct H as (s & ? & ? & _); exists s; auto
    end.
  - match goal with
    | H : Validation.get2 config "analytics" "googleAnalyticsId" = Ok _ |- _ =>
        apply get2_Ok in H; destruct H as (s & ? & ? & _); exists s; auto
    end.
Qed.

End LoaderPaths.

Lemma sanitizeLink_title (link link' : value) :
  Validation.sanitizeLink link = Ok link' -> clean_field link' "title".
Proof.
  unfold Validation.sanitizeLink. intros H. invert_binds H. injection H as <-.
  eexists. cbn [get]. rewrite lookup_set_prop_ne by discriminate.
  rewrite lookup_set_prop_eq. split; [reflexivity|].
  eapply sanitizeText_clean. eassumption.
Qed.

Lemma Forall2_Forall_r {A B} (R : A -> B -> Prop) (Q : B -> Prop)
    (l : list A) (l' : list B) :
  Forall2 R l l' -> (forall a b, R a b -> Q b) -> Forall Q l'.
Proof. intros H HQ. induction H; constructor; eauto. Qed.

(** The form of a sanitized configuration. *)
Lemma sanitizeConfig_form (config s : value) :
  Validation.sanitizeConfig config = Ok s ->
  exists name bio avatar location links socialMedia theme layout
         title description keywords favicon analytics advanced,
    s = VObj [ ("profile", VObj [ ("name", VStr name); ("bio", VStr bio);
                                  ("avatar", avatar); ("location", location) ]);
               ("links", VArr links);
               ("socialMedia", socialMedia);
               ("theme", theme);
               ("layout", layout);
               ("seo", VObj [ ("title", VStr title); ("description", VStr description);
                              ("keywords", VStr keywords); ("favicon", favicon) ]);
               ("analytics", analytics);
               ("advanced", advanced) ]
    /\ Forall (fun text => clean text = true) [ name; bio; title; description; keywords ]
    /\ Forall (fun link => clean_field link "title") links
    /\ get config "socialMedia" = Ok socialMedia
    /\ get config "theme" = Ok theme
    /\ get config "layout" = Ok layout
    /\ get config "analytics" = Ok analytics
    /\ get config "advanced" = Ok advanced.
Proof.
  unfold Validation.sanitizeConfig. intros H. invert_binds H. injection H as <-.
  match goal with
  | H : Validation.sanitizeLinks ?l = Ok ?l' |- _ =>
      destruct l as [| | | | |links|]; try discriminate;
      simpl in H; invert_binds H; injection H as <-
  end.
  repeat match goal with
         | H : Validation.sanitizeText _ = Ok _ |- _ => apply sanitizeText_clean in H
         end.
  do 14 eexists. split; [reflexivity|].
  split; [repeat constructor; assumption|].
  split; [|repeat split; assumption].
  match goal with
  | H : Validation.map_result _ _ = Ok _ |- _ =>
      apply map_result_Forall2 in H;
      apply (Forall2_Forall_r _ _ _ _ H)
  end.
  intros link link'. apply sanitizeLink_title.
Qed.

Lemma sanitized_keys_NoDup :
  NoDup [ "profile"; "links"; "socialMedia"; "theme"; "layout"; "seo"; "analytics";
          "advanced" ].
Proof. repeat constructor; simpl; intuition discriminate. Qed.

(** A section of the override that is not [null] is not [null] in the
    merge with the defaults. *)
Lemma merge_default_present (ps out : list (string * value)) (k : string) (ov : value) :
  mergeConfig DEFAULT_CONFIG (VObj ps) = Ok (VObj out) ->
  NoDup (map fst ps) ->
  lookup k ps = Some ov -> nullish ov = false ->
  present (VObj out) k.
Proof.
  intros Hm Hnd Hk Hov. unfold present. cbn [get].
  destruct (get_not_nullish DEFAULT_CONFIG k eq_refl) as [bv Hbv].
  destruct (isObject ov && isObject bv) eqn:E.
  - apply andb_true_iff in E. destruct E as [Eo Eb].
    destruct (mergeConfig_recursed _ _ _ _ _ _ Hm Hnd Hk Hbv Eo Eb) as (m & _ & Hl).
    rewrite Hl. eauto.
  - assert (Hu : is_undefined ov = false) by (destruct ov; discriminate || reflexivity).
    rewrite mergeConfig_loop in Hm. invert_binds Hm. injection Hm as ->.
    match goal with H : merge_props _ _ _ _ = Ok _ |- _ =>
      pose proof (merge_props_key _ _ _ Hnd _ _ H k) as Hkey
    end.
    simpl own_props in Hkey. rewrite Hk in Hkey. destruct Hkey as (bv' & Hb' & Hkey).
    assert (bv' = bv) by congruence. subst bv'.
    rewrite Hu in Hkey.
    destruct (isObject ov) eqn:Eo; destruct (isObject bv) eqn:Eb; try discriminate;
      cbn [andb] in Hkey; rewrite Hkey; eauto.
Qed.

Lemma isObject_string (s : string) : isObject (VStr s) = false.
Proof. unfold isObject. simpl. rewrite andb_false_r. reflexivity. Qed.

Lemma default_well_shaped : well_shaped DEFAULT_CONFIG.
Proof.
  unfold well_shaped, clean_field, present.
  repeat split;
    try (eexists; repeat split; try reflexivity; eexists; split; reflexivity).
  eexists. split; [reflexivity|].
  repeat constructor; eexists; split; reflexivity.
Qed.

Section Shape.
Context `{P : Platform}.

Variables (config s : value) (r : ValidationResult).
Hypothesis validated : Validation.validateConfig config = Ok r.
Hypothesis sanitized : Validation.sanitizeConfig config = Ok s.

Lemma sanitized_well_shaped : well_shaped s.
Proof.
  destruct (sanitizeConfig_form config s sanitized)
    as (name & bio & avatar & location & links & socialMedia & theme & layout
        & title & description & keywords & favicon & analytics & advanced
        & -> & Hclean & Hlinks & Hsm & Hth & _ & Han & _).
  pose proof (validateConfig_present config r validated) as Hpresent.
  rewrite Forall_forall in Hpresent.
  destruct (Hpresent "socialMedia") as (sm & Hsm' & Nsm); [simpl; tauto|].
  destruct (Hpresent "theme") as (th & Hth' & Nth); [simpl; tauto|].
  destruct (Hpresent "analytics") as (an & Han' & Nan); [simpl; tauto|].
  clear Hpresent.
  assert (sm = socialMedia) by congruence.
  assert (th = theme) by congruence.
  assert (an = analytics) by congruence. subst.
  rewrite Forall_forall in Hclean.
  unfold well_shaped, clean_field, present. repeat split.
  - eexists. split; [reflexivity|]. split.
    + exists name. split; [reflexivity|apply Hclean; simpl; tauto].
    + exists bio. split; [reflexivity|apply Hclean; simpl; tauto].
  - eexists. split; [reflexivity|]. exact Hlinks.
  - eexists. split; [reflexivity|]. repeat split.
    + exists title. split; [reflexivity|apply Hclean; simpl; tauto].
    + exists description. split; [reflexivity|apply Hclean; simpl; tauto].
    + exists keywords. split; [reflexivity|apply Hclean; simpl; tauto].
  - eexists. split; [reflexivity|assumption].
  - eexists. split; [reflexivity|assumption].
  - eexists. split; [reflexivity|assumption].
Qed.

Lemma remerged_well_shaped (out : list (string * value)) :
  mergeConfig DEFAULT_CONFIG s = Ok (VObj out) -> well_shaped (VObj out).
Proof.
  intros Hout.
  destruct (sanitizeConfig_form config s sanitized)
    as (name & bio & avatar & location & links & socialMedia & theme & layout
        & title & description & keywords & favicon & analytics & advanced
        & Es & Hclean & Hlinks & Hsm & Hth & _ & Han & _).
  pose proof (validateConfig_present config r validated) as Hpresent.
  rewrite Forall_forall in Hpresent.
  destruct (Hpresent "socialMedia") as (sm & Hsm' & Nsm); [simpl; tauto|].
  destruct (Hpresent "theme") as (th & Hth' & Nth); [simpl; tauto|].
  destruct (Hpresent "analytics") as (an & Han' & Nan); [simpl; tauto|].
  clear Hpresent.
  assert (sm = socialMedia) by congruence.
  assert (th = theme) by congruence.
  assert (an = analytics) by congruence. subst sm th an.
  rewrite Es in Hout. clear Es. rewrite Forall_forall in Hclean.
  pose proof sanitized_keys_NoDup as Hnd.
  assert (Hnd4 : forall a b c d : value,
             NoDup (map fst [("name", a); ("bio", b); ("avatar", c); ("location", d)])).
  { intros. repeat constructor; simpl; intuition discriminate. }
  assert (Hnd4' : forall a b c d : value,
             NoDup (map fst [("title", a); ("description", b); ("keywords", c);
                             ("favicon", d)])).
  { intros. repeat constructor; simpl; intuition discriminate. }
  assert (Hfield : forall (m : list (string * value)) (key text : string),
             lookup key m = Some (VStr text) ->
             In text [name; bio; title; description; keywords] ->
             clean_field (VObj m) key).
  { intros m key text Hl Hin. exists text. cbn [get]. rewrite Hl.
    split; [reflexivity|apply Hclean, Hin]. }
  unfold well_shaped. repeat split.
  - destruct (mergeConfig_recursed _ _ _ "profile" _ _ Hout Hnd eq_refl eq_refl
                eq_refl eq_refl) as (m & Hm & Hl).
    exists (VObj m). split; [cbn [get]; rewrite Hl; reflexivity|]. split.
    + apply (Hfield m "name" name); [|simpl; tauto].
      apply (mergeConfig_replaced _ _ _ "name" _ Hm (Hnd4 _ _ _ _) eq_refl eq_refl
               (isObject_string _)).
    + apply (Hfield m "bio" bio); [|simpl; tauto].
      apply (mergeConfig_replaced _ _ _ "bio" _ Hm (Hnd4 _ _ _ _) eq_refl eq_refl
               (isObject_string _)).
  - exists links. split; [|exact Hlinks]. cbn [get].
    rewrite (mergeConfig_replaced _ _ _ "links" _ Hout Hnd eq_refl eq_refl eq_refl).
    reflexivity.
  - destruct (mergeConfig_recursed _ _ _ "seo" _ _ Hout Hnd eq_refl eq_refl
                eq_refl eq_refl) as (m & Hm & Hl).
    exists (VObj m). split; [cbn [get]; rewrite Hl; reflexivity|]. repeat split.
    + apply (Hfield m "title" title); [|simpl; tauto].
      apply (mergeConfig_replaced _ _ _ "title" _ Hm (Hnd4' _ _ _ _) eq_refl eq_refl
               (isObject_string _)).
    + apply (Hfield m "description" description); [|simpl; tauto].
      apply (mergeConfig_replaced _ _ _ "description" _ Hm (Hnd4' _ _ _ _) eq_refl
               eq_refl (isObject_string _)).
    + apply (Hfield m "keywords" keywords); [|simpl; tauto].
      apply (mergeConfig_replaced _ _ _ "keywords" _ Hm (Hnd4' _ _ _ _) eq_refl
               eq_refl (isObject_string _)).
  - apply (merge_default_present _ _ "socialMedia" socialMedia Hout Hnd eq_refl Nsm).
  - apply (merge_default_present _ _ "theme" theme Hout Hnd eq_refl Nth).
  - apply (merge_default_present _ _ "analytics" analytics Hout Hnd eq_refl Nan).
Qed.

End Shape.

(** X8. Whatever the request does, [loadConfig] returns a record whose
    [profile] has a [name] and a [bio], whose [links] is an array of
    records with a [title], whose [seo] has a [title], a [description]
    and [keywords], all of them strings without markup characters, and
    whose [socialMedia], [theme] and [analytics] are not [null]. *)
Theorem loadConfig_well_shaped `{P : Platform} (f : fetch_behaviour) :
  exists v, loadConfig f = Ok v /\ well_shaped v.
Proof.
  destruct (loadConfig_paths f)
    as [Hd|(doc & merged & r & s & _ & _ & Hv & Hs
            & [[_ Hl]|[_ (out & Hout & Hl)]])].
  - exists DEFAULT_CONFIG. split; [apply Hd|apply default_well_shaped].
  - exists s. split; [exact Hl|]. exact (sanitized_well_shaped _ _ _ Hv Hs).
  - exists (VObj out). split; [exact Hl|].
    exact (remerged_well_shaped _ _ _ Hv Hs out Hout).
Qed.

(** X9. A user document in which [profile], [links], [socialMedia],
    [theme], [seo] or [analytics] is [null] is discarded whole: the schema
    validator throws on the merged configuration and [loadConfig] returns
    [DEFAULT_CONFIG], whatever else the document sets. *)
Theorem loadConfig_null_section_discards `{P : Platform}
    (props : list (string * value)) (section : string) :
  NoDup (map fst props) ->
  In section [ "profile"; "links"; "socialMedia"; "theme"; "seo"; "analytics" ] ->
  lookup section props = Some VNull ->
  loadConfig (FetchJson (VObj props)) = Ok DEFAULT_CONFIG.
Proof.
  intros Hnd Hin Hnull.
  destruct (loadConfig_paths (FetchJson (VObj props)))
    as [Hd|(doc & merged & r & s & Hdoc & Hm & Hv & _)]; [apply Hd|].
  exfalso. injection Hdoc as <-.
  pose proof (mergeConfig_replaced _ _ _ section VNull Hm Hnd Hnull eq_refl eq_refl)
    as Hl.
  pose proof (validateConfig_present _ _ Hv) as Hpresent.
  rewrite Forall_forall in Hpresent.
  destruct (Hpresent section Hin) as (x & Hx & Nx).
  cbn [get] in Hx. rewrite Hl in Hx. injection Hx as <-. discriminate.
Qed.

Lemma loadConfig_null_section_discards_witness :
  loadConfig (P := Reference.platform)
    (FetchJson (VObj [ ("profile", VObj [ ("name", VStr "Ada") ]); ("theme", VNull) ]))
  = Ok DEFAULT_CONFIG.
Proof.
  apply (loadConfig_null_section_discards (P := Reference.platform)
           [ ("profile", VObj [ ("name", VStr "Ada") ]); ("theme", VNull) ] "theme").
  - repeat constructor; simpl; intuition discriminate.
  - simpl. tauto.
  - reflexivity.
Defined.

(** X10. A [null] under [layout] or [advanced] is never repaired: the
    configuration that [loadConfig] returns is [DEFAULT_CONFIG], when the
    request or a step of the pipeline throws, or else it has [null] under
    that key. *)
Theorem loadConfig_null_section_kept `{P : Platform}
    (props : list (string * value)) (section : string) :
  NoDup (map fst props) ->
  In section [ "layout"; "advanced" ] ->
  lookup section props = Some VNull ->
  exists v,
    loadConfig (FetchJson (VObj props)) = Ok v
    /\ (v = DEFAULT_CONFIG \/ get v section = Ok VNull).
Proof.
  intros Hnd Hin Hnull.
  destruct (loadConfig_paths (FetchJson (VObj props)))
    as [Hd|(doc & merged & r & s & Hdoc & Hm & Hv & Hs
            & [[_ Hl]|[_ (out & Hout & Hl)]])].
  - exists DEFAULT_CONFIG. split; [apply Hd|]. left. reflexivity.
  - exists s. split; [exact Hl|]. right.
    injection Hdoc as <-.
    pose proof (mergeConfig_replaced _ _ _ section VNull Hm Hnd Hnull eq_refl eq_refl)
      as Hmerged.
    destruct (sanitizeConfig_form _ _ Hs)
      as (name & bio & avatar & location & links & socialMedia & theme & layout
          & title & description & keywords & favicon & analytics & advanced
          & -> & _ & _ & _ & _ & Hlayout & _ & Hadvanced).
    cbn [get] in Hlayout, Hadvanced.
    destruct Hin as [<-|[<-|[]]].
    + rewrite Hmerged in Hlayout. injection Hlayout as <-. reflexivity.
    + rewrite Hmerged in Hadvanced. injection Hadvanced as <-. reflexivity.
  - exists (VObj out). split; [exact Hl|]. right.
    injection Hdoc as <-.
    pose proof (mergeConfig_replaced _ _ _ section VNull Hm Hnd Hnull eq_refl eq_refl)
      as Hmerged.
    destruct (sanitizeConfig_form _ _ Hs)
      as (name & bio & avatar & location & links & socialMedia & theme & layout
          & title & description & keywords & favicon & analytics & advanced
          & -> & _ & _ & _ & _ & Hlayout & _ & Hadvanced).
    cbn [get] in Hlayout, Hadvanced |- *.
    destruct Hin as [<-|[<-|[]]].
    + rewrite Hmerged in Hlayout. injection Hlayout as <-.
      rewrite (mergeConfig_replaced _ _ _ "layout" VNull Hout sanitized_keys_NoDup
                 eq_refl eq_refl eq_refl). reflexivity.
    + rewrite Hmerged in Hadvanced. injection Hadvanced as <-.
      rewrite (mergeConfig_replaced _ _ _ "advanced" VNull Hout sanitized_keys_NoDup
                 eq_refl eq_refl eq_refl). reflexivity.
Qed.

Lemma loadConfig_null_section_kept_witness :
  exists v,
    loadConfig (P := Reference.platform) (FetchJson (VObj [ ("layout", VNull) ])) = Ok v
    /\ get v "layout" = Ok VNull.
Proof.
  destruct (loadConfig_null_section_kept (P := Reference.platform)
              [ ("layout", VNull) ] "layout") as (v & Hv & [Hd|Hnull]).
  - repeat constructor; simpl; intuition discriminate.
  - simpl. tauto.
  - reflexivity.
  - rewrite Hd in Hv. vm_compute in Hv. discriminate Hv.
  - exists v. auto.
Defined.

(** ** The validator and the field filter of the loader *)

Lemma is_string_inv (v : value) : is_string v = true -> exists s, v = VStr s.
Proof. destruct v; try discriminate. eauto. Qed.

Lemma is_boolean_inv (v : value) : is_boolean v = true -> exists b, v = VBool b.
Proof. destruct v; try discriminate. eauto. Qed.

Lemma or_default_string (v : value) (d : string) :
  exists s, or_default is_string v (VStr d) = VStr s.
Proof.
  unfold or_default. destruct (is_string v) eqn:E; [|eauto].
  destruct (is_string_inv v E) as [s ->]. eauto.
Qed.

Lemma or_default_boolean (v : value) (d : bool) :
  exists b, or_default is_boolean v (VBool d) = VBool b.
Proof.
  unfold or_default. destruct (is_boolean v) eqn:E; [|eauto].
  destruct (is_boolean_inv v E) as [b ->]. eauto.
Qed.

Lemma rebuild_link_typed (l : value) :
  keep_link l = true -> exists l', rebuild_link l = Ok l' /\ typed_link l'.
Proof.
  unfold keep_link, rebuild_link. intros H.
  apply andb_true_iff in H. destruct H as [H Hfields].
  apply andb_true_iff in H. destruct H as [Ht _].
  assert (Hn : nullish l = false) by (destruct l; discriminate || reflexivity).
  destruct (get l "title") as [title|] eqn:Etitle; [|discriminate].
  destruct (get l "url") as [url|] eqn:Eurl; [|discriminate].
  apply andb_true_iff in Hfields. destruct Hfields as [Hs1 Hs2].
  destruct (is_string_inv _ Hs1) as [title' ->].
  destruct (is_string_inv _ Hs2) as [url' ->].
  destruct (get_not_nullish l "description" Hn) as [description ->].
  destruct (get_not_nullish l "icon" Hn) as [icon ->].
  destruct (get_not_nullish l "enabled" Hn) as [enabled ->].
  destruct (get_not_nullish l "newTab" Hn) as [newTab ->].
  destruct (get_not_nullish l "featured" Hn) as [featured ->].
  cbn [bind]. eexists. split; [reflexivity|].
  destruct (or_default_string description "") as [d ->].
  destruct (or_default_string icon "link") as [i ->].
  destruct (or_default_boolean enabled true) as [e ->].
  destruct (or_default_boolean newTab true) as [n ->].
  destruct (or_default_boolean featured false) as [f ->].
  exists title', url', d, i, e, n, f. reflexivity.
Qed.

Lemma rebuild_links_typed (l : list value) :
  exists l', Validation.map_result rebuild_link (filter keep_link l) = Ok l'
             /\ Forall typed_link l'.
Proof.
  induction l as [|a l (l' & IH & Hall)]; simpl; [eauto|].
  destruct (keep_link a) eqn:E; [|eauto].
  destruct (rebuild_link_typed a E) as (a' & Ha & Ht).
  simpl. rewrite Ha, IH. simpl. eauto.
Qed.

Lemma copy_if_string_total (source : value) (key : string)
    (target : list (string * value)) :
  nullish source = false -> exists t, copy_if_string source key target = Ok t.
Proof.
  intros Hn. unfold copy_if_string.
  destruct (get_not_nullish source key Hn) as [v ->]. simpl. eauto.
Qed.

Lemma truthy_not_nullish (v : value) : truthy v = true -> nullish v = false.
Proof. destruct v; discriminate || reflexivity. Qed.

(** X11. The field filter [sanitizeConfig] of [config-loader.ts] returns
    on every value whose [theme.primaryColor], the one value that it
    converts to a string, can be converted, and every link of its result
    has a string [title], [url], [description] and [icon] and a boolean
    [enabled], [newTab] and [featured]. *)
Theorem loader_sanitizeConfig_total (config : value) :
  (forall theme primaryColor,
     get config "theme" = Ok theme -> get theme "primaryColor" = Ok primaryColor ->
     printable primaryColor = true) ->
  exists v,
    ConfigLoader.sanitizeConfig config = Ok v
    /\ forall links, get v "links" = Ok (VArr links) -> Forall typed_link links.
Proof.
  intros _. unfold ConfigLoader.sanitizeConfig.
  destruct (negb (truthy config) || negb (typeof_object config)) eqn:E.
  { eexists. split; [reflexivity|]. simpl. discriminate. }
  apply orb_false_iff in E. destruct E as [Et _]. apply negb_false_iff in Et.
  pose proof (truthy_not_nullish _ Et) as Hn.
  destruct (get_not_nullish config "profile" Hn) as [profile ->]. cbn [bind].
  assert (Hs1 : exists s1,
             (if truthy profile && typeof_object profile
              then p1 <- copy_if_string profile "name" [] ;;
                   p2 <- copy_if_string profile "bio" p1 ;;
                   p3 <- copy_if_string profile "avatar" p2 ;;
                   p4 <- copy_if_string profile "location" p3 ;;
                   Ok [ ("profile", VObj p4) ]
              else Ok []) = Ok s1
             /\ lookup "links" s1 = None).
  { destruct (truthy profile && typeof_object profile) eqn:Ep; [|eauto].
    apply andb_true_iff in Ep. destruct Ep as [Ep _].
    pose proof (truthy_not_nullish _ Ep) as Hp.
    destruct (copy_if_string_total profile "name" [] Hp) as [p1 ->]. cbn [bind].
    destruct (copy_if_string_total profile "bio" p1 Hp) as [p2 ->]. cbn [bind].
    destruct (copy_if_string_total profile "avatar" p2 Hp) as [p3 ->]. cbn [bind].
    destruct (copy_if_string_total profile "location" p3 Hp) as [p4 ->]. cbn [bind].
    eauto. }
  destruct Hs1 as (s1 & -> & Hnone). cbn [bind].
  destruct (get_not_nullish config "links" Hn) as [links ->]. cbn [bind].
  assert (Hs2 : exists s2,
             match links with
             | VArr l =>
                 l' <- Validation.map_result rebuild_link (filter keep_link l) ;;
                 Ok (set_prop s1 "links" (VArr l'))
             | _ => Ok s1
             end = Ok s2
             /\ forall ls, lookup "links" s2 = Some (VArr ls) -> Forall typed_link ls).
  { destruct links as [| | | | |l|]; try (exists s1; split; [reflexivity|congruence]).
    destruct (rebuild_links_typed l) as (l' & -> & Hall). cbn [bind].
    eexists. split; [reflexivity|]. intros ls. rewrite lookup_set_prop_eq.
    intros Hls. injection Hls as <-. exact Hall. }
  destruct Hs2 as (s2 & -> & Htyped). cbn [bind].
  destruct (get_not_nullish config "theme" Hn) as [theme ->]. cbn [bind].
  destruct (truthy theme && typeof_object theme) eqn:Eth.
  - apply andb_true_iff in Eth. destruct Eth as [Eth _].
    pose proof (truthy_not_nullish _ Eth) as Hth.
    destruct (get_not_nullish theme "colorScheme" Hth) as [colorScheme ->]. cbn [bind].
    destruct (get_not_nullish theme "primaryColor" Hth) as [primaryColor ->]. cbn [bind].
    eexists. split; [reflexivity|]. intros ls. cbn [get].
    rewrite lookup_set_prop_ne by discriminate.
    destruct (lookup "links" s2) as [x|] eqn:Ex; [|discriminate].
    intros Hx. injection Hx as ->. apply Htyped. reflexivity.
  - cbn [bind]. eexists. split; [reflexivity|]. intros ls. cbn [get].
    destruct (lookup "links" s2) as [x|] eqn:Ex; [|discriminate].
    intros Hx. injection Hx as ->. apply Htyped. reflexivity.
Qed.

Lemma loader_sanitizeConfig_total_witness :
  exists v,
    ConfigLoader.sanitizeConfig DEFAULT_CONFIG = Ok v
    /\ forall links, get v "links" = Ok (VArr links) -> Forall typed_link links.
Proof.
  apply (loader_sanitizeConfig_total DEFAULT_CONFIG).
  intros theme primaryColor Htheme Hcolor.
  injection Htheme as <-. injection Hcolor as <-. reflexivity.
Defined.

Lemma missing_string_false (v : value) :
  missing_string v = false -> exists s, v = VStr s /\ s <> "".
Proof.
  unfold missing_string. intros H. apply orb_false_iff in H. destruct H as [Ht Hs].
  apply negb_false_iff in Ht, Hs. destruct (is_string_inv v Hs) as [s ->].
  exists s. split; [reflexivity|]. intros ->. discriminate.
Qed.

Lemma is_nil_app {A} (l l' : list A) : is_nil (l ++ l') = true -> l = [] /\ l' = [].
Proof. destruct l; simpl; [destruct l'; [auto|discriminate]|discriminate]. Qed.

Section LoaderValidator.
Context `{P : Platform}.

Lemma validateLoaderLink_nil (i : nat) (l : value) (ew : list ConfigError * list ConfigError) :
  validateLoaderLink i l = Ok ew -> fst ew = [] -> loader_accepted_link l.
Proof.
  unfold validateLoaderLink. intros H He. invert_binds H. injection H as <-.
  cbn [fst] in He. apply app_eq_nil in He. destruct He as [Ht Hu].
  apply push_if_nil in Ht. destruct (missing_string_false _ Ht) as (title & -> & Hne).
  split; [exists title; auto|].
  match type of Hu with
  | (if missing_string ?u then _ else _) = [] =>
      destruct (missing_string u) eqn:Em; [discriminate|];
      destruct (missing_string_false _ Em) as (url & -> & Hne')
  end.
  apply push_if_nil in Hu. apply negb_false_iff in Hu.
  exists url. auto.
Qed.

Lemma validateLoaderLinks_nil (links : list value) :
  forall i ew,
    validateLoaderLinks i links = Ok ew -> fst ew = [] ->
    Forall loader_accepted_link links.
Proof.
  induction links as [|l links IH]; intros i ew H He; [constructor|].
  simpl in H. invert_binds H. injection H as <-. cbn [fst] in He.
  apply app_eq_nil in He. destruct He as [He1 He2].
  constructor; [eapply validateLoaderLink_nil; eassumption|eapply IH; eassumption].
Qed.

End LoaderValidator.

(** X12. A configuration that [validateConfig] of [config-loader.ts]
    accepts has a profile whose [name], [bio] and [avatar] are strings
    that are not empty, an array of links whose titles are such strings
    and whose URLs are such strings that [validateUrl] accepts, a theme
    with one of the three colour schemes and a valid primary colour, and
    a [layout] and a [seo] section. *)
Theorem loader_validateConfig_sound `{P : Platform}
    (config : value) (r : ValidationResult) :
  ConfigLoader.validateConfig config = Ok r ->
  isValid r = true ->
  (exists profile,
     get config "profile" = Ok profile
     /\ nonempty_string_field profile "name"
     /\ nonempty_string_field profile "bio"
     /\ nonempty_string_field profile "avatar")
  /\ (exists links,
        get config "links" = Ok (VArr links) /\ Forall loader_accepted_link links)
  /\ (exists theme colorScheme primaryColor,
        get config "theme" = Ok theme
        /\ get theme "colorScheme" = Ok (VStr colorScheme)
        /\ In colorScheme validColorSchemes
        /\ get theme "primaryColor" = Ok primaryColor
        /\ Validation.validateHexColor primaryColor = true)
  /\ (exists layout, get config "layout" = Ok layout /\ truthy layout = true)
  /\ (exists seo, get config "seo" = Ok seo /\ truthy seo = true).
Proof.
  unfold ConfigLoader.validateConfig. intros H Hvalid. invert_binds H.
  injection H as <-. cbn [isValid] in Hvalid.
  apply is_nil_app in Hvalid. destruct Hvalid as [Hpe Hrest].
  apply app_eq_nil in Hrest. destruct Hrest as [Hle Hrest].
  apply app_eq_nil in Hrest. destruct Hrest as [Hte Hrest].
  apply app_eq_nil in Hrest. destruct Hrest as [Hlayout Hseo].
  apply push_if_nil in Hlayout, Hseo. apply negb_false_iff in Hlayout, Hseo.
  repeat split.
  - match goal with
    | Hp : get config "profile" = Ok ?p, H : (if negb (truthy ?p) then _ else _) = Ok _ |- _ =>
        exists p; split; [exact Hp|];
        destruct (truthy p); cbn [negb] in H;
        [|injection H as <-; discriminate];
        invert_binds H; injection H as <-; cbn [fst] in Hpe
    end.
    apply app_eq_nil in Hpe. destruct Hpe as [Hn Hpe].
    apply app_eq_nil in Hpe. destruct Hpe as [Hb Ha].
    apply push_if_nil in Hn, Hb, Ha.
    destruct (missing_string_false _ Hn) as (name & -> & ?).
    destruct (missing_string_false _ Hb) as (bio & -> & ?).
    destruct (missing_string_false _ Ha) as (avatar & -> & ?).
    repeat split; eexists; eauto.
  - match goal with
    | Hl : get config "links" = Ok ?l, H : match ?l with VArr _ => _ | _ => _ end = Ok _ |- _ =>
        destruct l as [| | | | |links|];
        try (injection H as <-; discriminate);
        exists links; split; [exact Hl|];
        eapply validateLoaderLinks_nil; eassumption
    end.
  - match goal with
    | Ht : get config "theme" = Ok ?t, H : (if negb (truthy ?t) then _ else _) = Ok _ |- _ =>
        exists t;
        destruct (truthy t); cbn [negb] in H;
        [|injection H as <-; discriminate];
        invert_binds H; injection H as <-
    end.
    apply app_eq_nil in Hte. destruct Hte as [Hcs Hpc].
    apply push_if_nil in Hcs, Hpc. apply negb_false_iff in Hcs, Hpc.
    match type of Hcs with
    | is_color_scheme ?c = true =>
        destruct c as [| | | |cs| |]; try discriminate; exists cs
    end.
    eexists. repeat split; try eassumption.
    unfold is_color_scheme in Hcs.
    apply existsb_exists in Hcs. destruct Hcs as (scheme & Hin & Ex).
    apply String.eqb_eq in Ex. subst scheme. exact Hin.
  - eexists. split; eassumption.
  - eexists. split; eassumption.
Qed.

Lemma loader_validateConfig_sound_witness :
  exists links,
    get DEFAULT_CONFIG "links" = Ok (VArr links)
    /\ Forall (loader_accepted_link (P := Reference.platform)) links.
Proof.
  exact (proj1 (proj2
           (loader_validateConfig_sound (P := Reference.platform) DEFAULT_CONFIG
              {| isValid := true; errors := []; warnings := [] |} eq_refl eq_refl))).
Defined.

(** ** The rate limiter *)

Module RateLimiterFacts.
Import RateLimiter.

Lemma lookup_delete_eq (key : string) (m : attempts) : lookup key (delete key m) = None.
Proof.
  induction m as [|[k record] m IH]; simpl; [reflexivity|].
  destruct (String.eqb key k) eqn:E; [exact IH|]. simpl. rewrite E. exact IH.
Qed.

Lemma lookup_delete_ne (key key' : string) (m : attempts) :
  key <> key' -> lookup key (delete key' m) = lookup key m.
Proof.
  intros Hne. induction m as [|[k record] m IH]; simpl; [reflexivity|].
  destruct (String.eqb key' k) eqn:E.
  - apply String.eqb_eq in E. subst k.
    destruct (String.eqb key key') eqn:E'; [|exact IH].
    apply String.eqb_eq in E'. congruence.
  - simpl. rewrite IH. reflexivity.
Qed.

(** A call for [key'] leaves the record of every other key as it is. *)
Lemma isAllowed_frame (key key' : string) (maxAttempts windowMs : option Z) (now : Z)
    (m : attempts) :
  key <> key' ->
  lookup key (snd (isAllowed key' maxAttempts windowMs now m)) = lookup key m.
Proof.
  intros Hne. assert (Hne' : key' <> key) by congruence.
  unfold isAllowed. destruct (lookup key' m) as [record|]; simpl.
  - destruct (now >? resetTime record)%Z; simpl;
      [apply lookup_set_prop_ne, Hne'|].
    destruct (count record >=? or_default maxAttempts 10)%Z; simpl;
      [reflexivity|apply lookup_set_prop_ne, Hne'].
  - apply lookup_set_prop_ne, Hne'.
Qed.

(** The answer for [key], and its record after the call, depend on the
    record of [key] alone. *)
Lemma isAllowed_local (key : string) (maxAttempts windowMs : option Z) (now : Z)
    (m m' : attempts) :
  lookup key m = lookup key m' ->
  fst (isAllowed key maxAttempts windowMs now m)
  = fst (isAllowed key maxAttempts windowMs now m')
  /\ lookup key (snd (isAllowed key maxAttempts windowMs now m))
     = lookup key (snd (isAllowed key maxAttempts windowMs now m')).
Proof.
  intros E. unfold isAllowed. rewrite <- E.
  destruct (lookup key m) as [record|] eqn:El; simpl.
  - destruct (now >? resetTime record)%Z; simpl;
      [rewrite !lookup_set_prop_eq; auto|].
    destruct (count record >=? or_default maxAttempts 10)%Z; simpl;
      [split; congruence|rewrite !lookup_set_prop_eq; auto].
  - rewrite !lookup_set_prop_eq. auto.
Qed.

Lemma answers_cons (key : string) (maxAttempts windowMs : option Z) (now : Z)
    (times : list Z) (m : attempts) :
  answers key maxAttempts windowMs (now :: times) m
  = (fst (isAllowed key maxAttempts windowMs now m)
       :: fst (answers key maxAttempts windowMs times
                 (snd (isAllowed key maxAttempts windowMs now m))),
     snd (answers key maxAttempts windowMs times
            (snd (isAllowed key maxAttempts windowMs now m)))).
Proof.
  cbn [answers]. destruct (isAllowed key maxAttempts windowMs now m) as [a m'].
  cbn [fst snd].
  destruct (answers key maxAttempts windowMs times m') as [l m'']. reflexivity.
Qed.

(** A call inside an open window. *)
Lemma isAllowed_open (key : string) (maxAttempts windowMs : option Z) (now : Z)
    (m : attempts) (c rt : Z) :
  lookup key m = Some {| count := c; resetTime := rt |} ->
  (now <= rt)%Z ->
  isAllowed key maxAttempts windowMs now m
  = if (c >=? or_default maxAttempts 10)%Z then (false, m)
    else (true, set_prop m key {| count := c + 1; resetTime := rt |}).
Proof.
  intros Hm Hnow. unfold isAllowed. rewrite Hm. cbn [count resetTime].
  assert (E : (now >? rt)%Z = false) by (rewrite Z.gtb_ltb; apply Z.ltb_ge; lia).
  rewrite E. reflexivity.
Qed.

(** Calls inside an open window: the call number [i] is allowed when
    the count it finds, [c + i], is below the limit. *)
Lemma answers_in_window (key : string) (maxAttempts windowMs : option Z)
    (times : list Z) :
  forall (m : attempts) (c rt : Z),
    lookup key m = Some {| count := c; resetTime := rt |} ->
    Forall (fun t => (t <= rt)%Z) times ->
    fst (answers key maxAttempts windowMs times m)
    = map (fun i => (c + Z.of_nat i <? or_default maxAttempts 10)%Z)
          (seq 0 (List.length times))
    /\ lookup key (snd (answers key maxAttempts windowMs times m))
       = Some {| count := Z.max c (Z.min (c + Z.of_nat (List.length times))
                                         (or_default maxAttempts 10));
                 resetTime := rt |}.
Proof.
  induction times as [|now times IH]; intros m c rt Hm Hall.
  - simpl. split; [reflexivity|]. rewrite Hm. do 2 f_equal. lia.
  - inversion Hall as [|? ? Hnow Hrest]; subst.
    rewrite answers_cons, (isAllowed_open _ _ _ _ _ _ _ Hm Hnow).
    cbn [List.length seq map].
    destruct (c >=? or_default maxAttempts 10)%Z eqn:Ec; cbn [fst snd].
    + rewrite Z.geb_leb in Ec. apply Z.leb_le in Ec.
      destruct (IH m c rt Hm Hrest) as [Ha Hl]. rewrite Ha, Hl. split.
      * f_equal; [symmetry; apply Z.ltb_ge; lia|].
        rewrite <- seq_shift, map_map. apply map_ext. intros i.
        transitivity false; [|symmetry]; apply Z.ltb_ge; lia.
      * do 2 f_equal. lia.
    + rewrite Z.geb_leb in Ec. apply Z.leb_gt in Ec.
      destruct (IH (set_prop m key {| count := c + 1; resetTime := rt |}) (c + 1)%Z rt
                  (lookup_set_prop_eq _ _ _) Hrest) as [Ha Hl].
      rewrite Ha, Hl. split.
      * f_equal; [symmetry; apply Z.ltb_lt; lia|].
        rewrite <- seq_shift, map_map. apply map_ext. intros i.
        f_equal. lia.
      * do 2 f_equal. lia.
Qed.

(** The call that finds no open window opens one. *)
Lemma isAllowed_restart (key : string) (maxAttempts windowMs : option Z) (now : Z)
    (m : attempts) :
  window_closed key now m ->
  isAllowed key maxAttempts windowMs now m
  = (true, set_prop m key {| count := 1;
                             resetTime := now + or_default windowMs 60000 |}).
Proof.
  unfold window_closed, isAllowed. destruct (lookup key m) as [record|]; [|reflexivity].
  intros H. assert (E : (now >? resetTime record)%Z = true)
    by (rewrite Z.gtb_ltb; apply Z.ltb_lt; exact H).
  rewrite E. reflexivity.
Qed.

(** The calls of one window, from the call that opens it. *)
Lemma answers_window (key : string) (maxAttempts windowMs : option Z)
    (now : Z) (times : list Z) (m : attempts) :
  window_closed key now m ->
  Forall (fun t => (t <= now + or_default windowMs 60000)%Z) times ->
  fst (answers key maxAttempts windowMs (now :: times) m)
  = map (fun i => (Z.of_nat i <? Z.max 1 (or_default maxAttempts 10))%Z)
        (seq 0 (S (List.length times)))
  /\ lookup key (snd (answers key maxAttempts windowMs (now :: times) m))
     = Some {| count := Z.max 1 (Z.min (Z.of_nat (S (List.length times)))
                                       (or_default maxAttempts 10));
               resetTime := now + or_default windowMs 60000 |}.
Proof.
  intros Hclosed Hall. rewrite answers_cons, (isAllowed_restart _ _ _ _ _ Hclosed).
  cbn [fst snd].
  destruct (answers_in_window key maxAttempts windowMs times
              (set_prop m key {| count := 1;
                                 resetTime := now + or_default windowMs 60000 |})
              1%Z _ (lookup_set_prop_eq _ _ _) Hall) as [Ha Hl].
  rewrite Ha, Hl. split.
  - cbn [seq map]. f_equal; [symmetry; apply Z.ltb_lt; lia|].
    rewrite <- seq_shift, map_map. apply map_ext. intros i.
    destruct (Z.ltb_spec (1 + Z.of_nat i) (or_default maxAttempts 10));
      symmetry; [apply Z.ltb_lt|apply Z.ltb_ge]; lia.
  - do 2 f_equal. lia.
Qed.

End RateLimiterFacts.

(** X13. From the call that opens a window, and as long as the clock is
    within the window, the call number [i] (from 0) is allowed exactly
    when [i < max(1, maxAttempts)]: at most [maxAttempts] calls in a
    window, and one even when [maxAttempts] is zero or negative. *)
Theorem isAllowed_window_limit (key : string) (maxAttempts windowMs : option Z)
    (now : Z) (times : list Z) (m : RateLimiter.attempts) :
  window_closed key now m ->
  Forall (fun t => (t <= now + RateLimiter.or_default windowMs 60000)%Z) times ->
  fst (RateLimiter.answers key maxAttempts windowMs (now :: times) m)
  = map (fun i => (Z.of_nat i <? Z.max 1 (RateLimiter.or_default maxAttempts 10))%Z)
        (seq 0 (S (List.length times))).
Proof. intros Hc Hall. apply RateLimiterFacts.answers_window; assumption. Qed.

Lemma isAllowed_window_limit_witness :
  fst (RateLimiter.answers "save" (Some 2%Z) None [1000; 1001; 61000; 1002]%Z
         RateLimiter.configUpdateRateLimit)
  = [true; true; false; false].
Proof.
  apply (isAllowed_window_limit "save" (Some 2%Z) None 1000%Z [1001; 61000; 1002]%Z
           RateLimiter.configUpdateRateLimit).
  - exact I.
  - repeat constructor; simpl; lia.
Defined.

(** X14. Once the clock has passed the reset time of a window, the next
    call is allowed and opens a new window with count 1, however many
    calls were made or refused before. *)
Theorem isAllowed_after_window (key : string) (maxAttempts windowMs : option Z)
    (now later : Z) (times : list Z) (m : RateLimiter.attempts) :
  window_closed key now m ->
  Forall (fun t => (t <= now + RateLimiter.or_default windowMs 60000)%Z) times ->
  (now + RateLimiter.or_default windowMs 60000 < later)%Z ->
  let m' := snd (RateLimiter.answers key maxAttempts windowMs (now :: times) m) in
  fst (RateLimiter.isAllowed key maxAttempts windowMs later m') = true
  /\ lookup key (snd (RateLimiter.isAllowed key maxAttempts windowMs later m'))
     = Some {| RateLimiter.count := 1;
               RateLimiter.resetTime := later + RateLimiter.or_default windowMs 60000 |}.
Proof.
  intros Hc Hall Hlater m'.
  destruct (RateLimiterFacts.answers_window key maxAttempts windowMs now times m Hc Hall)
    as [_ Hl].
  fold m' in Hl.
  rewrite (RateLimiterFacts.isAllowed_restart key maxAttempts windowMs later m').
  - cbn [fst snd]. rewrite lookup_set_prop_eq. auto.
  - unfold window_closed. rewrite Hl. exact Hlater.
Qed.

Lemma isAllowed_after_window_witness :
  fst (RateLimiter.isAllowed "save" (Some 1%Z) None 61001%Z
         (snd (RateLimiter.answers "save" (Some 1%Z) None [1000; 1001]%Z
                 RateLimiter.configUpdateRateLimit))) = true.
Proof.
  apply (isAllowed_after_window "save" (Some 1%Z) None 1000%Z 61001%Z [1001]%Z
           RateLimiter.configUpdateRateLimit).
  - exact I.
  - repeat constructor; simpl; lia.
  - simpl. lia.
Defined.

(** X15. The keys of the limiter are independent: a call of [isAllowed]
    or of [reset] for another key changes neither the answer of the next
    call for [key] nor the record that this call leaves. *)
Theorem isAllowed_other_key (key key' : string)
    (maxAttempts windowMs maxAttempts' windowMs' : option Z) (now now' : Z)
    (m : RateLimiter.attempts) :
  key <> key' ->
  same_answer key maxAttempts windowMs now m
    (snd (RateLimiter.isAllowed key' maxAttempts' windowMs' now' m))
  /\ same_answer key maxAttempts windowMs now m (RateLimiter.reset key' m).
Proof.
  intros Hne. split.
  - apply RateLimiterFacts.isAllowed_local, RateLimiterFacts.isAllowed_frame, Hne.
  - apply RateLimiterFacts.isAllowed_local, RateLimiterFacts.lookup_delete_ne, Hne.
Qed.

Lemma isAllowed_other_key_witness :
  same_answer "save" (Some 1%Z) None 1001%Z
    (snd (RateLimiter.isAllowed "save" (Some 1%Z) None 1000%Z []))
    (snd (RateLimiter.isAllowed "load" None None 1000%Z
            (snd (RateLimiter.isAllowed "save" (Some 1%Z) None 1000%Z []))))
  /\ same_answer "save" (Some 1%Z) None 1001%Z
       (snd (RateLimiter.isAllowed "save" (Some 1%Z) None 1000%Z []))
       (RateLimiter.reset "load"
          (snd (RateLimiter.isAllowed "save" (Some 1%Z) None 1000%Z []))).
Proof.
  apply (isAllowed_other_key "save" "load" (Some 1%Z) None None None 1001%Z 1000%Z
           (snd (RateLimiter.isAllowed "save" (Some 1%Z) None 1000%Z []))).
  discriminate.
Defined.

(** X16. After [reset(key)] the next call for [key] is allowed and opens
    a new window, whatever the record of [key] was. *)
Theorem isAllowed_after_reset (key : string) (maxAttempts windowMs : option Z) (now : Z)
    (m : RateLimiter.attempts) :
  fst (RateLimiter.isAllowed key maxAttempts windowMs now (RateLimiter.reset key m)) = true
  /\ lookup key
       (snd (RateLimiter.isAllowed key maxAttempts windowMs now (RateLimiter.reset key m)))
     = Some {| RateLimiter.count := 1;
               RateLimiter.resetTime := now + RateLimiter.or_default windowMs 60000 |}.
Proof.
  rewrite RateLimiterFacts.isAllowed_restart.
  - cbn [fst snd]. rewrite lookup_set_prop_eq. auto.
  - unfold window_closed, RateLimiter.reset.
    rewrite RateLimiterFacts.lookup_delete_eq. exact I.
Qed.

(** ** The theme applicators *)

Lemma hex_digit_range (c : ascii) :
  Str.is_hex c = true -> (0 <= Theme.hex_digit c <= 15)%Z.
Proof.
  intros H. destruct c as [[] [] [] [] [] [] [] []];
    vm_compute in H; try discriminate H;
    vm_compute; split; intro; discriminate.
Qed.

Lemma parseInt16_pair (a b : ascii) :
  Str.is_hex a = true -> Str.is_hex b = true ->
  channel (Theme.parseInt16 (String a (String b EmptyString))).
Proof.
  intros Ha Hb. apply hex_digit_range in Ha, Hb.
  unfold channel, Theme.parseInt16. cbn [Theme.parseInt16_acc]. lia.
Qed.

(** A value that cannot be converted to a string has a record in it,
    which the total rendering shows as [[object Object]]. *)
Lemma join_free (c : ascii) (sep : string) (l : list string) :
  free_of c (Str.join sep l) = true -> Forall (fun s => free_of c s = true) l.
Proof.
  induction l as [|x l IH]; [constructor|].
  destruct l as [|y l].
  - simpl. intros H. repeat constructor. exact H.
  - change (Str.join sep (x :: y :: l)) with (x ++ sep ++ Str.join sep (y :: l))%string.
    rewrite !free_of_app. intros H.
    apply andb_true_iff in H. destruct H as [Hx H].
    apply andb_true_iff in H. destruct H as [_ H].
    constructor; [exact Hx|apply IH, H].
Qed.

Lemma unprintable_bracket (v : value) :
  printable v = false -> free_of "[" (to_string v) = false.
Proof.
  induction v as [| | | | |l IH|ps _] using value_ind'; try discriminate.
  - cbn [printable to_string]. intros Hl.
    destruct (free_of "[" (Str.join "," _)) eqn:E; [|reflexivity].
    apply join_free in E. exfalso.
    induction IH as [|e l He _ IHl]; [discriminate|].
    cbn [forallb] in Hl. cbn [map] in E.
    inversion E as [|? ? Ee El]; subst.
    destruct (printable e) eqn:Ep.
    + apply IHl; assumption.
    + specialize (He eq_refl). destruct e; try discriminate; congruence.
  - reflexivity.
Qed.

Lemma hex_free_of_bracket (s : string) :
  Str.forallb Str.is_hex s = true -> free_of "[" s = true.
Proof.
  unfold free_of. induction s as [|a s IH]; simpl; [reflexivity|].
  intros H. apply andb_true_iff in H. destruct H as [Ha Hs].
  rewrite (IH Hs), andb_true_r.
  destruct (Ascii.eqb a "[") eqn:E; [|reflexivity].
  apply Ascii.eqb_eq in E. subst a. discriminate Ha.
Qed.

(** What [validateHexColor] accepts can be converted to a string. *)
Lemma validateHexColor_printable (color : value) :
  Validation.validateHexColor color = true -> printable color = true.
Proof.
  intros H. destruct (printable color) eqn:Ep; [reflexivity|].
  apply unprintable_bracket in Ep.
  unfold Validation.validateHexColor in H.
  destruct (to_string color) as [|c0 digits]; [discriminate|].
  apply andb_true_iff in H. destruct H as [H Hhex].
  apply andb_true_iff in H. destruct H as [Hc _].
  apply Ascii.eqb_eq in Hc. subst c0.
  apply hex_free_of_bracket in Hhex.
  unfold free_of in Ep, Hhex. simpl in Ep. congruence.
Qed.

Lemma ToString_printable (v : value) :
  printable v = true -> ToString v = Ok (to_string v).
Proof. unfold ToString. intros ->. reflexivity. Qed.

(** Every colour that [validateHexColor] accepts has its three channels
    read by [hexToRgb]. *)
Lemma hexToRgb_valid (color : value) :
  Validation.validateHexColor color = true ->
  exists c,
    Theme.hexToRgb color = Ok (Some c)
    /\ channel (Theme.r c) /\ channel (Theme.g c) /\ channel (Theme.b c).
Proof.
  intros H. unfold Theme.hexToRgb.
  rewrite (ToString_printable color (validateHexColor_printable color H)). cbn [bind].
  unfold Validation.validateHexColor in H. unfold Theme.hex_groups.
  destruct (to_string color) as [|c0 digits]; [discriminate|].
  apply andb_true_iff in H. destruct H as [H Hhex].
  apply andb_true_iff in H. destruct H as [Hc Hlen]. rewrite Hc.
  destruct digits as [|r1 [|r2 [|g1 [|g2 [|b1 [|b2 [|x rest]]]]]]]; try discriminate.
  rewrite Hhex. eexists. split; [reflexivity|].
  cbn [Str.forallb] in Hhex.
  repeat (apply andb_true_iff in Hhex; destruct Hhex as [? Hhex]).
  cbn [Theme.r Theme.g Theme.b]. repeat split; apply parseInt16_pair; assumption.
Qed.

(** The calls of [applyThemeVariables] on a theme whose colour is read:
    the two calls for the colour come first, whatever happens next, and
    nothing throws when the font family and the background image can be
    converted to a string. *)
Lemma applyThemeVariables_colour (theme primaryColor : value) (primaryRgb : option Theme.rgb) :
  get theme "primaryColor" = Ok primaryColor ->
  Theme.hexToRgb primaryColor = Ok primaryRgb ->
  exists rest,
    fst (Theme.applyThemeVariables theme)
    = [ Theme.SetProperty "--primary-color" primaryColor ]
      ++ match primaryRgb with
         | Some c => [ Theme.SetProperty "--primary-color-rgb" (Theme.rgb_text c) ]
         | None => []
         end
      ++ rest.
Proof.
  intros Hp Hc. unfold Theme.applyThemeVariables. rewrite Hp. cbn [bind].
  rewrite Hc. cbn [bind].
  destruct (fontFamily <- get theme "fontFamily" ;; ToString fontFamily) as [key|e].
  - match goal with
    | |- context [match ?m with Ok _ => _ | Throw _ => _ end] => destruct m as [call|e]
    end; cbn [fst].
    + eexists. rewrite <- !app_assoc. reflexivity.
    + eexists. rewrite <- !app_assoc. reflexivity.
  - cbn [fst]. exists []. rewrite app_nil_r. reflexivity.
Qed.

Lemma applyThemeVariables_returns (theme : value) :
  nullish theme = false -> theme_printable theme ->
  snd (Theme.applyThemeVariables theme) = None.
Proof.
  intros Hn Hprintable. unfold Theme.applyThemeVariables.
  destruct (get_not_nullish theme "primaryColor" Hn) as [primaryColor Hp].
  destruct (get_not_nullish theme "fontFamily" Hn) as [fontFamily Hf].
  destruct (get_not_nullish theme "backgroundStyle" Hn) as [backgroundStyle Hs].
  destruct (get_not_nullish theme "backgroundImage" Hn) as [backgroundImage Hi].
  rewrite Hp, Hf, Hs, Hi. cbn [bind]. unfold Theme.hexToRgb.
  rewrite (ToString_printable primaryColor
             (Hprintable "primaryColor" _ ltac:(simpl; tauto) Hp)).
  rewrite (ToString_printable fontFamily
             (Hprintable "fontFamily" _ ltac:(simpl; tauto) Hf)).
  rewrite (ToString_printable backgroundImage
             (Hprintable "backgroundImage" _ ltac:(simpl; tauto) Hi)).
  cbn [bind].
  destruct (Theme.is_the_string backgroundStyle "image" && truthy backgroundImage);
    reflexivity.
Qed.

(** X17. For a theme whose primary colour [validateHexColor] accepts,
    [hexToRgb] reads three channels between 0 and 255, and
    [applyThemeVariables] sets [--primary-color-rgb] to their decimal
    rendering, even if it throws afterwards; it returns without an
    exception when the font family and the background image of the theme
    can be converted to a string. *)
Theorem applyThemeVariables_rgb (theme primaryColor : value) :
  get theme "primaryColor" = Ok primaryColor ->
  Validation.validateHexColor primaryColor = true ->
  exists c,
    Theme.hexToRgb primaryColor = Ok (Some c)
    /\ channel (Theme.r c) /\ channel (Theme.g c) /\ channel (Theme.b c)
    /\ In (Theme.SetProperty "--primary-color-rgb" (Theme.rgb_text c))
         (fst (Theme.applyThemeVariables theme))
    /\ (theme_printable theme -> snd (Theme.applyThemeVariables theme) = None).
Proof.
  intros Hp Hvalid.
  destruct (hexToRgb_valid primaryColor Hvalid) as (c & Hc & Hr & Hg & Hb).
  exists c. split; [exact Hc|]. repeat (split; [assumption|]). split.
  - destruct (applyThemeVariables_colour theme primaryColor (Some c) Hp Hc)
      as [rest ->].
    right. left. reflexivity.
  - apply applyThemeVariables_returns. apply (get_Ok_not_nullish _ _ _ Hp).
Qed.

Lemma applyThemeVariables_rgb_witness :
  exists theme,
    get DEFAULT_CONFIG "theme" = Ok theme
    /\ In (Theme.SetProperty "--primary-color-rgb" (VStr "99, 102, 241"))
         (fst (Theme.applyThemeVariables theme))
    /\ snd (Theme.applyThemeVariables theme) = None.
Proof.
  eexists. split; [reflexivity|].
  destruct (applyThemeVariables_rgb
              (VObj [ ("colorScheme", VStr "auto"); ("primaryColor", VStr "#6366f1");
                      ("backgroundStyle", VStr "gradient"); ("backgroundImage", VStr "");
                      ("fontFamily", VStr "inter"); ("buttonStyle", VStr "rounded");
                      ("buttonAnimation", VStr "scale"); ("showBorder", VBool true) ])
              (VStr "#6366f1") eq_refl eq_refl)
    as (c & Hc & _ & _ & _ & Hin & Hreturns).
  injection Hc as <-. split; [exact Hin|].
  apply Hreturns. intros key x [<-|[<-|[<-|[]]]] Hx; injection Hx as <-; reflexivity.
Defined.

(** The class list *)

Lemma In_add (token t : string) (classList : list string) :
  In t (Theme.add token classList) <-> t = token \/ In t classList.
Proof.
  unfold Theme.add. destruct (existsb (String.eqb token) classList) eqn:E.
  - split; [auto|]. intros [->|H]; [|exact H].
    apply existsb_exists in E. destruct E as (x & Hx & Ex).
    apply String.eqb_eq in Ex. subst x. exact Hx.
  - rewrite in_app_iff. simpl. intuition.
Qed.

Lemma In_remove (token t : string) (classList : list string) :
  In t (Theme.remove token classList) <-> t <> token /\ In t classList.
Proof.
  unfold Theme.remove. rewrite filter_In, negb_true_iff, String.eqb_neq.
  intuition.
Qed.

Lemma add_idempotent (token : string) (classList : list string) :
  Theme.add token (Theme.add token classList) = Theme.add token classList.
Proof.
  unfold Theme.add at 1.
  assert (E : existsb (String.eqb token) (Theme.add token classList) = true).
  { apply existsb_exists. exists token. split; [|apply String.eqb_refl].
    apply In_add. left. reflexivity. }
  rewrite E. reflexivity.
Qed.

Lemma remove_idempotent (token : string) (classList : list string) :
  Theme.remove token (Theme.remove token classList) = Theme.remove token classList.
Proof.
  unfold Theme.remove. induction classList as [|t l IH]; simpl; [reflexivity|].
  destruct (negb (String.eqb token t)) eqn:E; simpl; [rewrite E, IH; reflexivity|exact IH].
Qed.

Lemma applyColorScheme_dark (prefersDark : bool) (colorScheme : value)
    (classList : list string) :
  In "dark" (Theme.applyColorScheme prefersDark colorScheme classList)
  <-> Theme.is_the_string (Theme.getEffectiveColorScheme prefersDark colorScheme) "dark"
      = true.
Proof.
  unfold Theme.applyColorScheme.
  destruct (Theme.is_the_string (Theme.getEffectiveColorScheme prefersDark colorScheme)
              "dark").
  - rewrite In_add. intuition.
  - rewrite In_remove. intuition discriminate.
Qed.

(** X18. After [applyColorScheme] the class list has the token [dark]
    exactly when the effective colour scheme is [dark]; every other token
    is kept, and applying the same scheme again changes nothing. *)
Theorem applyColorScheme_dark_class (prefersDark : bool) (colorScheme : value)
    (classList : list string) :
  let classList' := Theme.applyColorScheme prefersDark colorScheme classList in
  (In "dark" classList'
   <-> Theme.is_the_string (Theme.getEffectiveColorScheme prefersDark colorScheme) "dark"
       = true)
  /\ (forall token, token <> "dark" -> (In token classList' <-> In token classList))
  /\ Theme.applyColorScheme prefersDark colorScheme classList' = classList'.
Proof.
  cbn zeta. split; [apply applyColorScheme_dark|].
  unfold Theme.applyColorScheme.
  destruct (Theme.is_the_string (Theme.getEffectiveColorScheme prefersDark colorScheme)
              "dark").
  - split.
    + intros token Hne. rewrite In_add. intuition.
    + apply add_idempotent.
  - split.
    + intros token Hne. rewrite In_remove. intuition.
    + apply remove_idempotent.
Qed.

(** ** The provider *)

(** The private merge of the provider is the merge of the loader: the
    two functions have the same text. *)
Lemma mergeDeep_mergeConfig (target source : value) :
  ThemeProvider.mergeDeep target source = mergeConfig target source.
Proof. reflexivity. Qed.

(** The update of [toggleDarkMode] on a configuration with a theme: the
    new theme has the new colour scheme, and under every other key what
    the old theme had, or nothing. *)
Lemma mergeDeep_colorScheme (props : list (string * value)) (theme : value)
    (scheme : string) :
  get (VObj props) "theme" = Ok theme -> nullish theme = false ->
  exists theme',
    ThemeProvider.mergeDeep (VObj props)
      (VObj [ ("theme", VObj [ ("colorScheme", VStr scheme) ]) ])
    = Ok (VObj (set_prop props "theme" theme'))
    /\ nullish theme' = false
    /\ get theme' "colorScheme" = Ok (VStr scheme)
    /\ forall key, key <> "colorScheme" ->
                   get theme' key = get theme key \/ get theme' key = Ok VUndef.
Proof.
  intros Htheme Hn.
  cbn [ThemeProvider.mergeDeep ThemeProvider.deep_props].
  unfold ThemeProvider.deep_step at 1. rewrite Htheme.
  cbn [bind is_undefined own_props].
  destruct (ThemeProvider.isObject theme) eqn:Eo.
  - destruct (isObject_record theme Eo) as [tps ->].
    cbn [ThemeProvider.mergeDeep ThemeProvider.deep_props].
    unfold ThemeProvider.deep_step at 1.
    destruct (get_not_nullish (VObj tps) "colorScheme" eq_refl) as [old ->].
    change ThemeProvider.isObject with isObject.
    rewrite (isObject_string scheme).
    cbn [bind is_undefined andb own_props is_array negb isObject truthy typeof_object].
    eexists. split; [reflexivity|]. split; [reflexivity|].
    cbn [get]. rewrite lookup_set_prop_eq. split; [reflexivity|].
    intros key Hne. left. rewrite lookup_set_prop_ne by congruence. reflexivity.
  - change (ThemeProvider.isObject (VObj [("colorScheme", VStr scheme)])) with true.
    cbn [andb bind].
    eexists. split; [reflexivity|]. split; [reflexivity|]. split; [reflexivity|].
    intros key Hne. right. cbn [get lookup].
    destruct (String.eqb key "colorScheme") eqn:E; [|reflexivity].
    apply String.eqb_eq in E. congruence.
Qed.

(** X19. [toggleDarkMode] on a configuration whose theme can be read: the
    new configuration has the opposite value of [isDarkMode], whatever
    the media query answers, and every section but [theme] is as it was,
    even if applying the theme throws; when the handler raises no
    exception, the class list has [dark] exactly when the mode was not
    dark before; and it raises none when the colour, the font family and
    the background image of the theme can be converted to a string. *)
Theorem toggleDarkMode_flips (prefersDark prefersDark' prefersDark'' : bool)
    (props : list (string * value)) (d : ThemeProvider.document) (dark : bool) :
  ThemeProvider.isDarkMode prefersDark (VObj props) = Ok dark ->
  exists p raised,
    ThemeProvider.toggleDarkMode prefersDark' dark
      {| ThemeProvider.config := VObj props; ThemeProvider.dom := d |} = (p, raised)
    /\ ThemeProvider.isDarkMode prefersDark'' (ThemeProvider.config p) = Ok (negb dark)
    /\ (forall section, section <> "theme" ->
          get (ThemeProvider.config p) section = get (VObj props) section)
    /\ (raised = None ->
        (In "dark" (ThemeProvider.classList (ThemeProvider.dom p)) <-> dark = false))
    /\ ((forall theme, get (VObj props) "theme" = Ok theme -> theme_printable theme) ->
        raised = None).
Proof.
  unfold ThemeProvider.isDarkMode at 1. cbn [truthy negb]. intros H. invert_binds H.
  clear H.
  match goal with
  | Ht : get (VObj props) "theme" = Ok ?t, Hc : get ?t "colorScheme" = Ok _ |- _ =>
      rename t into theme;
      pose proof Ht as Htheme;
      pose proof (get_Ok_not_nullish _ _ _ Hc) as Hn;
      destruct (mergeDeep_colorScheme props theme (if dark then "light" else "dark")
                  Ht Hn) as (theme' & Hmerge & Hn' & Hscheme & Hkeys)
  end.
  unfold ThemeProvider.toggleDarkMode, ThemeProvider.updateConfig.
  cbn [ThemeProvider.config ThemeProvider.dom truthy negb].
  rewrite Hmerge. unfold ThemeProvider.apply_updates, ThemeProvider.apply_theme.
  cbn [get lookup String.eqb Ascii.eqb Bool.eqb truthy].
  rewrite lookup_set_prop_eq. rewrite Hscheme.
  destruct (Theme.applyThemeVariables theme') as [calls raised] eqn:Ecalls.
  assert (Hconfig :
            ThemeProvider.isDarkMode prefersDark'' (VObj (set_prop props "theme" theme'))
            = Ok (negb dark)
            /\ forall section, section <> "theme" ->
                  get (VObj (set_prop props "theme" theme')) section
                  = get (VObj props) section).
  { split.
    - unfold ThemeProvider.isDarkMode. cbn [truthy negb get].
      rewrite lookup_set_prop_eq. cbn [bind]. rewrite Hscheme. cbn [bind].
      destruct dark; reflexivity.
    - intros section Hne. cbn [get].
      rewrite lookup_set_prop_ne by congruence. reflexivity. }
  destruct Hconfig as [Hflip Hframe].
  assert (Hreturns : (forall t, get (VObj props) "theme" = Ok t -> theme_printable t) ->
                     raised = None).
  { intros Hprintable.
    change raised with (snd (calls, raised)). rewrite <- Ecalls.
    apply applyThemeVariables_returns; [exact Hn'|].
    intros key x Hin Hx.
    assert (Hne : key <> "colorScheme")
      by (destruct Hin as [<-|[<-|[<-|[]]]]; discriminate).
    destruct (Hkeys key Hne) as [Hsame|Hundef].
    - rewrite Hsame in Hx. apply (Hprintable theme Htheme key x Hin Hx).
    - rewrite Hundef in Hx. injection Hx as <-. reflexivity. }
  destruct raised as [e|].
  - eexists _, _. split; [reflexivity|].
    cbn [ThemeProvider.config ThemeProvider.dom ThemeProvider.classList].
    split; [exact Hflip|]. split; [exact Hframe|]. split; [discriminate|exact Hreturns].
  - eexists _, _. split; [reflexivity|].
    cbn [ThemeProvider.config ThemeProvider.dom ThemeProvider.classList].
    split; [exact Hflip|]. split; [exact Hframe|]. split; [|reflexivity].
    intros _. rewrite applyColorScheme_dark. destruct dark; simpl; intuition discriminate.
Qed.

Lemma toggleDarkMode_flips_witness :
  exists p,
    ThemeProvider.toggleDarkMode false true
      {| ThemeProvider.config := DEFAULT_CONFIG;
         ThemeProvider.dom := {| ThemeProvider.style := [];
                                 ThemeProvider.classList := ["dark"];
                                 ThemeProvider.seo := [] |} |} = (p, None)
    /\ ThemeProvider.isDarkMode true (ThemeProvider.config p) = Ok false
    /\ (In "dark" (ThemeProvider.classList (ThemeProvider.dom p)) <-> true = false).
Proof.
  destruct (toggleDarkMode_flips true false true (own_props DEFAULT_CONFIG)
              {| ThemeProvider.style := [];
                 ThemeProvider.classList := ["dark"];
                 ThemeProvider.seo := [] |} true eq_refl)
    as (p & raised & Hp & Hd & _ & Hc & Hreturns).
  assert (Hnone : raised = None).
  { apply Hreturns. intros theme Ht. injection Ht as <-.
    intros key x [<-|[<-|[<-|[]]]] Hx; injection Hx as <-; reflexivity. }
  subst raised. exists p. auto.
Defined.

(** ** The algebra of the merge *)

Lemma distinct_NoDup (keys : list string) : distinct keys = true -> NoDup keys.
Proof.
  induction keys as [|k keys IH]; simpl; intros H; constructor.
  - apply andb_true_iff in H. destruct H as [H _]. apply negb_true_iff in H.
    intros Hin. assert (E : existsb (String.eqb k) keys = true).
    { apply existsb_exists. exists k. split; [exact Hin|apply String.eqb_refl]. }
    congruence.
  - apply IH. apply andb_true_iff in H. apply H.
Qed.

Lemma set_prop_fresh {A} (ps : list (string * A)) (k : string) (v : A) :
  ~ In k (map fst ps) -> set_prop ps k v = ps ++ [(k, v)].
Proof.
  induction ps as [|[k' v'] ps IH]; simpl; intros Hn; [reflexivity|].
  destruct (String.eqb k k') eqn:E.
  - apply String.eqb_eq in E. subst k'. tauto.
  - rewrite IH by tauto. reflexivity.
Qed.

Lemma set_prop_same {A} (ps : list (string * A)) (k : string) (v : A) :
  lookup k ps = Some v -> set_prop ps k v = ps.
Proof.
  induction ps as [|[k' v'] ps IH]; simpl; [discriminate|].
  destruct (String.eqb k k') eqn:E.
  - intros H. injection H as ->. reflexivity.
  - intros H. rewrite (IH H). reflexivity.
Qed.

Lemma lookup_In {A} (ps : list (string * A)) (k : string) (v : A) :
  NoDup (map fst ps) -> In (k, v) ps -> lookup k ps = Some v.
Proof.
  induction ps as [|[k' v'] ps IH]; simpl; intros Hnd Hin; [contradiction|].
  inversion Hnd as [|? ? Hnot Hnd']; subst.
  destruct Hin as [E|Hin].
  - injection E as -> ->. rewrite String.eqb_refl. reflexivity.
  - destruct (String.eqb k k') eqn:E; [|apply IH; assumption].
    apply String.eqb_eq in E. subst k'. exfalso. apply Hnot.
    apply (in_map fst) in Hin. exact Hin.
Qed.

(** Merging into the empty record. *)
Lemma merge_props_empty_base (ps : list (string * value)) :
  NoDup (map fst ps) ->
  forall res,
    (forall k, In k (map fst ps) -> ~ In k (map fst res)) ->
    merge_props mergeConfig (VObj []) ps res = Ok (res ++ defined ps).
Proof.
  induction ps as [|[k ov] ps IH]; intros Hnd res Hfresh.
  - simpl. rewrite app_nil_r. reflexivity.
  - inversion Hnd as [|? ? Hnot Hnd']; subst.
    cbn [merge_props]. unfold merge_step at 1. cbn [get lookup bind].
    unfold defined. cbn [filter snd]. fold (defined ps).
    destruct (is_undefined ov) eqn:Eu; cbn [negb bind].
    + apply IH; [exact Hnd'|]. intros k' Hk'. apply Hfresh. right. exact Hk'.
    + replace (isObject ov && isObject VUndef && negb (is_array ov)) with false
        by (unfold isObject at 2; cbn [truthy andb];
            rewrite andb_false_r; reflexivity).
      cbn [bind]. rewrite set_prop_fresh by (apply Hfresh; left; reflexivity).
      rewrite IH; [rewrite <- app_assoc; reflexivity|exact Hnd'|].
      intros k' Hk'. rewrite map_app, in_app_iff. simpl.
      intros [Hin|[<-|[]]].
      * apply (Hfresh k'); [right; exact Hk'|exact Hin].
      * apply Hnot. exact Hk'.
Qed.

(** X20. Merging a record into the empty record returns its properties
    whose value is not [undefined], in order, nested values as they are,
    when no key of the record is repeated and each is enumerated where it
    was inserted (none is [__proto__] or a string of digits). *)
Theorem mergeConfig_empty_base (props : list (string * value)) :
  NoDup (map fst props) ->
  forallb ordinary_key (map fst props) = true ->
  mergeConfig (VObj []) (VObj props) = Ok (VObj (defined props)).
Proof.
  intros Hnd _. cbn [mergeConfig own_props].
  rewrite (merge_props_empty_base props Hnd []); [reflexivity|].
  intros k _ [].
Qed.

Lemma mergeConfig_empty_base_witness :
  mergeConfig (VObj []) (VObj sample_override)
  = Ok (VObj [ ("profile", VObj [ ("name", VStr "") ]); ("links", VArr [ good_link ]) ]).
Proof.
  apply (mergeConfig_empty_base sample_override); [|reflexivity].
  repeat constructor; simpl; intuition discriminate.
Defined.

(** One turn of the loop that assigns what the result already holds. *)
Lemma merge_step_same (base : value) (k : string) (ov : value)
    (recurse : value -> result value) (res : list (string * value)) (bv x : value) :
  get base k = Ok bv ->
  lookup k res = Some x ->
  (is_undefined ov = false ->
   if isObject ov && isObject bv && negb (is_array ov)
   then recurse bv = Ok x else x = ov) ->
  merge_step base k ov recurse res = Ok res.
Proof.
  intros Hb Hl Hcase. unfold merge_step. rewrite Hb. cbn [bind].
  destruct (is_undefined ov); [reflexivity|]. specialize (Hcase eq_refl).
  destruct (isObject ov && isObject bv && negb (is_array ov)).
  - rewrite Hcase. cbn [bind]. rewrite (set_prop_same res k x Hl). reflexivity.
  - subst x. rewrite (set_prop_same res k ov Hl). reflexivity.
Qed.

Lemma isObject_is_array (v : value) : isObject v = true -> is_array v = false.
Proof. intros H. destruct (isObject_record v H) as [ps ->]. reflexivity. Qed.

(** Merging a record with itself. *)
Lemma mergeConfig_self (v : value) :
  unique_keys v = true -> isObject v = true -> mergeConfig v v = Ok v.
Proof.
  induction v as [| | | | |l _|ps IH] using value_ind'; intros Hu Ho;
    try (destruct (isObject_record _ Ho) as [? E]; discriminate E).
  cbn [unique_keys] in Hu. apply andb_true_iff in Hu. destruct Hu as [Hd Hu].
  apply distinct_NoDup in Hd. rewrite forallb_forall in Hu. rewrite Forall_forall in IH.
  cbn [mergeConfig own_props].
  assert (Hloop : forall qs, incl qs ps ->
             merge_props mergeConfig (VObj ps) qs ps = Ok ps).
  { induction qs as [|[k x] qs IHq]; intros Hincl; [reflexivity|].
    cbn [merge_props].
    assert (Hin : In (k, x) ps) by (apply Hincl; left; reflexivity).
    pose proof (lookup_In ps k x Hd Hin) as Hl.
    rewrite (merge_step_same (VObj ps) k x _ ps x x).
    - cbn [bind]. apply IHq. intros kv Hkv. apply Hincl. right. exact Hkv.
    - cbn [get]. rewrite Hl. reflexivity.
    - exact Hl.
    - intros _. destruct (isObject x) eqn:Ex; cbn [andb]; [|reflexivity].
      rewrite (isObject_is_array x Ex). cbn [negb].
      apply (IH (k, x) Hin); [apply (Hu (k, x) Hin)|exact Ex]. }
  rewrite (Hloop ps (incl_refl ps)). reflexivity.
Qed.

(** Merging the same record override a second time. *)
Lemma mergeConfig_again (override : value) :
  forall base merged,
    unique_keys override = true ->
    mergeConfig base (VObj (own_props override)) = Ok merged ->
    isObject override = true ->
    mergeConfig merged override = Ok merged.
Proof.
  induction override as [| | | | |l _|ps IH] using value_ind'; intros base merged Hu Hm Ho;
    try (destruct (isObject_record _ Ho) as [? E]; discriminate E).
  cbn [own_props] in Hm.
  cbn [unique_keys] in Hu. apply andb_true_iff in Hu. destruct Hu as [Hd Hu].
  apply distinct_NoDup in Hd. rewrite forallb_forall in Hu. rewrite Forall_forall in IH.
  rewrite mergeConfig_loop in Hm. cbn [own_props] in Hm. invert_binds Hm.
  injection Hm as <-.
  match goal with H : merge_props _ _ _ _ = Ok ?r |- _ =>
    rename r into res; pose proof (merge_props_key _ _ _ Hd _ _ H) as Hkey
  end.
  cbn [mergeConfig own_props].
  assert (Hloop : forall qs, incl qs ps ->
             merge_props mergeConfig (VObj res) qs res = Ok res).
  { induction qs as [|[k ov] qs IHq]; intros Hincl; [reflexivity|].
    cbn [merge_props].
    assert (Hin : In (k, ov) ps) by (apply Hincl; left; reflexivity).
    specialize (Hkey k). rewrite (lookup_In ps k ov Hd Hin) in Hkey.
    destruct Hkey as (bv & Hbv & Hkey).
    assert (Hstep : merge_step (VObj res) k ov (fun t => mergeConfig t ov) res = Ok res).
    { unfold merge_step. cbn [get bind].
      destruct (is_undefined ov) eqn:Eu.
      - destruct (lookup k res); reflexivity.
      - destruct (isObject ov && isObject bv && negb (is_array ov)) eqn:Eboth.
        + destruct Hkey as (m & Hmk & Hl). rewrite Hl. cbn [bind].
          apply andb_true_iff in Eboth. destruct Eboth as [Eboth Earr].
          apply andb_true_iff in Eboth. destruct Eboth as [Eo Eb].
          destruct (mergeConfig_total ov bv (isObject_not_nullish bv Eb)) as [mr Hmr].
          assert (m = VObj mr) by congruence. subst m.
          rewrite Eo, Earr. cbn [andb isObject truthy typeof_object is_array negb].
          assert (Hown : VObj (own_props ov) = ov)
            by (destruct (isObject_record ov Eo) as [ops ->]; reflexivity).
          pose proof (IH (k, ov) Hin bv (VObj mr) (Hu (k, ov) Hin)) as Hagain.
          cbn [snd] in Hagain. rewrite Hown in Hagain.
          rewrite (Hagain Hmk Eo). cbn [bind].
          rewrite (set_prop_same res k (VObj mr) Hl). reflexivity.
        + rewrite Hkey. cbn [bind].
          destruct (isObject ov) eqn:Eo; cbn [andb].
          * rewrite (isObject_is_array ov Eo). cbn [negb].
            rewrite (mergeConfig_self ov (Hu (k, ov) Hin) Eo). cbn [bind].
            rewrite (set_prop_same res k ov Hkey). reflexivity.
          * rewrite (set_prop_same res k ov Hkey). reflexivity. }
    rewrite Hstep. cbn [bind]. apply IHq. intros kv Hkv. apply Hincl. right. exact Hkv. }
  rewrite (Hloop ps (incl_refl ps)). reflexivity.
Qed.

(** X21. Merging the same override a second time changes nothing:
    [mergeConfig(mergeConfig(base, o), o)] is [mergeConfig(base, o)], for
    every record [o] in which no key is repeated. *)
Theorem mergeConfig_twice (base override merged : value) :
  isObject override = true ->
  unique_keys override = true ->
  mergeConfig base override = Ok merged ->
  mergeConfig merged override = Ok merged.
Proof.
  intros Ho Hu Hm. apply (mergeConfig_again override base merged Hu); [|exact Ho].
  destruct (isObject_record override Ho) as [ps ->]. exact Hm.
Qed.

Lemma mergeConfig_twice_witness :
  exists merged,
    mergeConfig DEFAULT_CONFIG (VObj sample_override) = Ok merged
    /\ mergeConfig merged (VObj sample_override) = Ok merged.
Proof.
  eexists. split; [reflexivity|].
  apply (mergeConfig_twice DEFAULT_CONFIG (VObj sample_override)); reflexivity.
Defined.

(** ** When the schema validator returns *)

Section Returns.
Context `{P : Platform}.

Lemma too_long_returns (v : value) (n : Z) : exists b, Validation.too_long v n = Ok b.
Proof.
  unfold Validation.too_long, Validation.and_then, Validation.length_gt.
  destruct (truthy v) eqn:E; [|eauto].
  destruct (get_not_nullish v "length" (truthy_not_nullish v E)) as [l ->].
  simpl. eauto.
Qed.

Lemma required_returns (v : value) :
  exists b, Validation.or_else (negb (truthy v)) (Validation.length_is_zero v) = Ok b.
Proof.
  unfold Validation.or_else, Validation.length_is_zero.
  destruct (truthy v) eqn:E; simpl; [|eauto].
  destruct (get_not_nullish v "length" (truthy_not_nullish v E)) as [l ->].
  simpl. eauto.
Qed.

Lemma bad_image_returns (v : value) :
  string_or_falsy v -> exists b, Validation.bad_image v = Ok b.
Proof.
  unfold Validation.bad_image, Validation.and_then, Validation.validateImageUrl.
  intros [Hf|Hs]; [rewrite Hf; eauto|].
  destruct (truthy v); [|eauto].
  destruct v; try discriminate.
  destruct (negb (Validation.validateUrl (VStr s))); simpl; [eauto|].
  destruct (_ && _); simpl; eauto.
Qed.

Lemma validateLink_returns (i : nat) (link : value) :
  nullish link = false -> exists es, Validation.validateLink i link = Ok es.
Proof.
  intros Hn. unfold Validation.validateLink.
  destruct (get_not_nullish link "title" Hn) as [title ->]. cbn [bind].
  destruct (required_returns title) as [c1 ->]. cbn [bind].
  destruct (too_long_returns title 50) as [c2 ->]. cbn [bind].
  destruct (get_not_nullish link "url" Hn) as [url ->]. cbn [bind].
  assert (Hc3 : exists c3,
             Validation.or_else (negb (truthy url))
               (Ok (negb (Validation.validateUrl url))) = Ok c3)
    by (unfold Validation.or_else; destruct (negb (truthy url)); eauto).
  destruct Hc3 as [c3 ->]. cbn [bind].
  destruct (too_long_returns url 2048) as [c4 ->]. cbn [bind].
  destruct (get_not_nullish link "description" Hn) as [description ->]. cbn [bind].
  destruct (too_long_returns description 100) as [c5 ->]. cbn [bind].
  eauto.
Qed.

Lemma validateLinksFrom_returns (links : list value) :
  Forall (fun link => nullish link = false) links ->
  forall i, exists es, Validation.validateLinksFrom i links = Ok es.
Proof.
  induction 1 as [|link links Hn _ IH]; intros i; simpl; [eauto|].
  destruct (validateLink_returns i link Hn) as [e ->]. cbn [bind].
  destruct (IH (S i)) as [es ->]. cbn [bind]. eauto.
Qed.

Lemma get2_present (config : value) (a b : string) :
  present config a -> exists x, Validation.get2 config a b = Ok x.
Proof.
  intros (s & Hs & Hn). unfold Validation.get2. rewrite Hs. cbn [bind].
  apply get_not_nullish, Hn.
Qed.

End Returns.

(** X22. [validateConfig] of [validation.ts] returns a result, without
    throwing, on every configuration whose six sections it reads are not
    [null], whose [links] is an array without [null] entries, whose
    avatar, background image and favicon are strings or falsy, and in
    which no record, at any depth, has a key that names a member of
    [Object.prototype]: no platform of [socialMedia] finds an inherited
    function in the table of patterns, and no record hides [toString] or
    [valueOf], so every value can be converted where a pattern or a
    comparison converts it. *)
Theorem validateConfig_returns `{P : Platform} (config : value) :
  readable config -> plain config = true ->
  exists r, Validation.validateConfig config = Ok r.
Proof.
  intros (Hpresent & (links & Hlinks & Hall) & Himages) _.
  rewrite Forall_forall in Hpresent.
  assert (Hprofile : present config "profile") by (apply Hpresent; simpl; tauto).
  assert (Hsocial : present config "socialMedia") by (apply Hpresent; simpl; tauto).
  assert (Htheme : present config "theme") by (apply Hpresent; simpl; tauto).
  assert (Hseo : present config "seo") by (apply Hpresent; simpl; tauto).
  assert (Hanalytics : present config "analytics") by (apply Hpresent; simpl; tauto).
  inversion Himages as [|? ? (avatar & Havatar & Sa) Himages']; subst.
  inversion Himages' as [|? ? (image & Himage & Si) Himages'']; subst.
  inversion Himages'' as [|? ? (favicon & Hfavicon & Sf) _]; subst.
  cbn [fst snd] in Havatar, Himage, Hfavicon.
  unfold Validation.validateConfig.
  destruct (get2_present config "profile" "name" Hprofile) as [name ->]. cbn [bind].
  destruct (required_returns name) as [p1 ->]. cbn [bind].
  destruct (too_long_returns name 50) as [p2 ->]. cbn [bind].
  destruct (get2_present config "profile" "bio" Hprofile) as [bio ->]. cbn [bind].
  destruct (too_long_returns bio 160) as [p3 ->]. cbn [bind].
  rewrite Havatar. cbn [bind].
  destruct (bad_image_returns avatar Sa) as [p4 ->]. cbn [bind].
  destruct (get2_present config "profile" "location" Hprofile) as [location ->].
  cbn [bind].
  destruct (too_long_returns location 50) as [p5 ->]. cbn [bind].
  rewrite Hlinks. cbn [bind].
  unfold Validation.length_gt at 1. cbn [get String.eqb Ascii.eqb Bool.eqb bind].
  cbn [Validation.validateLinks].
  destruct (validateLinksFrom_returns links Hall 0) as [l2 ->]. cbn [bind].
  destruct Hsocial as (socialMedia & -> & Hn). cbn [bind].
  assert (He : Validation.object_entries socialMedia = Ok (own_props socialMedia))
    by (destruct socialMedia; discriminate || reflexivity).
  rewrite He. cbn [bind].
  destruct (get2_present config "theme" "primaryColor" Htheme) as [primaryColor ->].
  cbn [bind].
  rewrite Himage. cbn [bind].
  destruct (bad_image_returns image Si) as [t2 ->]. cbn [bind].
  destruct (get2_present config "seo" "title" Hseo) as [title ->]. cbn [bind].
  destruct (too_long_returns title 60) as [w1 ->]. cbn [bind].
  destruct (get2_present config "seo" "description" Hseo) as [description ->].
  cbn [bind].
  destruct (too_long_returns description 160) as [w2 ->]. cbn [bind].
  rewrite Hfavicon. cbn [bind].
  destruct (bad_image_returns favicon Sf) as [s3 ->]. cbn [bind].
  destruct (get2_present config "analytics" "googleAnalyticsId" Hanalytics) as [ga ->].
  cbn [bind].
  destruct (get2_present config "analytics" "facebookPixelId" Hanalytics) as [fb ->].
  cbn [bind].
  eauto.
Qed.

Lemma validateConfig_returns_witness :
  exists r, Validation.validateConfig (P := Reference.platform) DEFAULT_CONFIG = Ok r.
Proof.
  apply (validateConfig_returns (P := Reference.platform) DEFAULT_CONFIG);
    [|reflexivity].
  unfold readable, present, string_or_falsy. split; [|split].
  - repeat constructor; eexists; split; reflexivity.
  - eexists. split; [reflexivity|]. repeat constructor.
  - repeat constructor; eexists; (split; [reflexivity|]); auto.
Defined.

(** ** What reaches the output of the loader *)

(** The name and the bio of a sanitized configuration. *)
Lemma sanitizeConfig_profile_text (config s : value) (field text : string) :
  Validation.sanitizeConfig config = Ok s ->
  In field [ "name"; "bio" ] ->
  Validation.get2 config "profile" field = Ok (VStr text) ->
  Validation.get2 s "profile" field
  = Ok (VStr (Str.trim (Validation.escape_html text))).
Proof.
  unfold Validation.sanitizeConfig. intros H Hin Hfield. invert_binds H.
  injection H as <-.
  destruct Hin as [<-|[<-|[]]].
  - match goal with
    | Hg : Validation.get2 config "profile" "name" = Ok ?n,
      Hs : Validation.sanitizeText ?n = Ok ?t |- _ =>
        assert (n = VStr text) by congruence; subst n;
        rewrite sanitizeText_string in Hs; injection Hs as <-
    end.
    reflexivity.
  - match goal with
    | Hg : Validation.get2 config "profile" "bio" = Ok ?n,
      Hs : Validation.sanitizeText ?n = Ok ?t |- _ =>
        assert (n = VStr text) by congruence; subst n;
        rewrite sanitizeText_string in Hs; injection Hs as <-
    end.
    reflexivity.
Qed.

(** The second merge of the degraded path keeps the links, the name and
    the bio of the sanitized configuration. *)
Lemma remerged_kept (config s : value) (out : list (string * value)) :
  Validation.sanitizeConfig config = Ok s ->
  mergeConfig DEFAULT_CONFIG s = Ok (VObj out) ->
  (exists links, get s "links" = Ok (VArr links)
                 /\ get (VObj out) "links" = Ok (VArr links))
  /\ Forall (fun field =>
               Validation.get2 (VObj out) "profile" field
               = Validation.get2 s "profile" field)
       [ "name"; "bio" ].
Proof.
  intros Hs Hout.
  destruct (sanitizeConfig_form config s Hs)
    as (name & bio & avatar & location & links & socialMedia & theme & layout
        & title & description & keywords & favicon & analytics & advanced
        & -> & _).
  pose proof sanitized_keys_NoDup as Hnd.
  split.
  - exists links. split; [reflexivity|]. cbn [get].
    rewrite (mergeConfig_replaced _ _ _ "links" _ Hout Hnd eq_refl eq_refl eq_refl).
    reflexivity.
  - destruct (mergeConfig_recursed _ _ _ "profile" _ _ Hout Hnd eq_refl eq_refl
                eq_refl eq_refl) as (m & Hm & Hl).
    assert (Hnd4 : NoDup (map fst [("name", VStr name); ("bio", VStr bio);
                                   ("avatar", avatar); ("location", location)])).
    { repeat constructor; simpl; intuition discriminate. }
    unfold Validation.get2. cbn [get]. rewrite Hl. cbn [bind get lookup String.eqb
      Ascii.eqb Bool.eqb].
    repeat constructor.
    + rewrite (mergeConfig_replaced _ _ _ "name" _ Hm Hnd4 eq_refl eq_refl
                 (isObject_string _)). reflexivity.
    + rewrite (mergeConfig_replaced _ _ _ "bio" _ Hm Hnd4 eq_refl eq_refl
                 (isObject_string _)). reflexivity.
Qed.

(** X23. The name and the bio of the user document reach the output in
    escaped form only: the configuration that [loadConfig] returns is
    [DEFAULT_CONFIG], when the request or a step of the pipeline throws,
    or else it has, under [profile.name] (or [profile.bio]), the text of
    the user with its markup characters replaced and the white space at
    its ends removed. *)
Theorem loadConfig_escapes_profile_text `{P : Platform}
    (props profile : list (string * value)) (field text : string) :
  NoDup (map fst props) ->
  lookup "profile" props = Some (VObj profile) ->
  NoDup (map fst profile) ->
  In field [ "name"; "bio" ] ->
  lookup field profile = Some (VStr text) ->
  exists v,
    loadConfig (FetchJson (VObj props)) = Ok v
    /\ (v = DEFAULT_CONFIG
        \/ Validation.get2 v "profile" field
           = Ok (VStr (Str.trim (Validation.escape_html text)))).
Proof.
  intros Hnd Hprofile Hnd' Hin Hfield.
  destruct (loadConfig_paths (FetchJson (VObj props)))
    as [Hd|(doc & merged & r & s & Hdoc & Hm & Hv & Hs
            & [[_ Hl]|[_ (out & Hout & Hl)]])];
    [exists DEFAULT_CONFIG; split; [apply Hd|left; reflexivity]| |].
  all: injection Hdoc as <-.
  all: destruct (mergeConfig_recursed _ _ _ "profile" _ _ Hm Hnd Hprofile eq_refl
                   eq_refl eq_refl) as (m & Hmp & Hlp).
  all: assert (Hmerged : Validation.get2 (VObj merged) "profile" field
                         = Ok (VStr text))
    by (unfold Validation.get2; cbn [get]; rewrite Hlp; cbn [bind get];
        rewrite (mergeConfig_replaced _ _ _ field _ Hmp Hnd' Hfield eq_refl
                   (isObject_string _)); reflexivity).
  all: pose proof (sanitizeConfig_profile_text _ _ _ _ Hs Hin Hmerged) as Htext.
  - exists s. auto.
  - exists (VObj out). split; [exact Hl|]. right.
    destruct (remerged_kept _ _ _ Hs Hout) as [_ Hkept].
    rewrite Forall_forall in Hkept. rewrite (Hkept field Hin). exact Htext.
Qed.

Lemma loadConfig_escapes_profile_text_witness :
  exists v,
    loadConfig (P := Reference.platform)
      (FetchJson (VObj [ ("profile", VObj [ ("name", VStr "<b>Ada</b>") ]) ])) = Ok v
    /\ Validation.get2 v "profile" "name" = Ok (VStr "&lt;b&gt;Ada&lt;&#x2F;b&gt;").
Proof.
  destruct (loadConfig_escapes_profile_text (P := Reference.platform)
              [ ("profile", VObj [ ("name", VStr "<b>Ada</b>") ]) ]
              [ ("name", VStr "<b>Ada</b>") ] "name" "<b>Ada</b>")
    as (v & Hv & [Hd|Htext]).
  - repeat constructor; simpl; intuition discriminate.
  - reflexivity.
  - repeat constructor; simpl; intuition discriminate.
  - simpl. tauto.
  - reflexivity.
  - rewrite Hd in Hv. vm_compute in Hv. discriminate Hv.
  - exists v. auto.
Defined.

(** X24. The links of the user document reach the output without a check
    of their URLs: the configuration that [loadConfig] returns is
    [DEFAULT_CONFIG], when the request or a step of the pipeline throws,
    or else it has as many links as the document, in the same order, each
    with the [url] that the user gave it, whether [validateUrl] accepts it
    or not. *)
Theorem loadConfig_keeps_user_links `{P : Platform}
    (props : list (string * value)) (links : list value) :
  NoDup (map fst props) ->
  lookup "links" props = Some (VArr links) ->
  exists v,
    loadConfig (FetchJson (VObj props)) = Ok v
    /\ (v = DEFAULT_CONFIG
        \/ exists links',
             get v "links" = Ok (VArr links')
             /\ Forall2 (fun link link' => get link' "url" = get link "url")
                  links links').
Proof.
  intros Hnd Hlinks.
  destruct (loadConfig_paths (FetchJson (VObj props)))
    as [Hd|(doc & merged & r & s & Hdoc & Hm & Hv & Hs
            & [[_ Hl]|[_ (out & Hout & Hl)]])];
    [exists DEFAULT_CONFIG; split; [apply Hd|left; reflexivity]| |].
  all: injection Hdoc as <-.
  all: pose proof (mergeConfig_replaced _ _ _ "links" _ Hm Hnd Hlinks eq_refl eq_refl)
    as Hmerged.
  all: destruct (sanitizeConfig_links _ _ Hs) as (links0 & links' & Hl0 & Hl' & Hall).
  all: cbn [get] in Hl0; rewrite Hmerged in Hl0; injection Hl0 as <-.
  - exists s. split; [exact Hl|]. right. exists links'. auto.
  - exists (VObj out). split; [exact Hl|]. right. exists links'.
    split; [|exact Hall].
    destruct (remerged_kept _ _ _ Hs Hout) as [(links1 & Hs1 & Hout1) _].
    congruence.
Qed.

Lemma loadConfig_keeps_user_links_witness :
  exists v links',
    loadConfig (P := Reference.platform) (FetchJson mixed_links_document) = Ok v
    /\ get v "links" = Ok (VArr links')
    /\ Forall2 (fun link link' => get link' "url" = get link "url")
         [ bad_link; good_link ] links'.
Proof.
  destruct (loadConfig_keeps_user_links (P := Reference.platform)
              [ ("profile", VObj [ ("avatar", VStr valid_avatar) ]);
                ("links", VArr [ bad_link; good_link ]) ]
              [ bad_link; good_link ])
    as (v & Hv & [Hd|(links' & Hl & Hall)]).
  - repeat constructor; simpl; intuition discriminate.
  - reflexivity.
  - rewrite Hd in Hv. vm_compute in Hv. discriminate Hv.
  - exists v, links'. auto.
Defined.

(** ** Validated identifiers and the sanitizer *)

Lemma str_forallb_impl (f g : ascii -> bool) (s : string) :
  (forall c, f c = true -> g c = true) ->
  Str.forallb f s = true -> Str.forallb g s = true.
Proof.
  intros Hfg. induction s as [|a s IH]; simpl; [reflexivity|].
  intros H. apply andb_true_iff in H. destruct H as [Ha Hs].
  rewrite (Hfg a Ha), (IH Hs). reflexivity.
Qed.

Lemma starts_with_split (p s : string) :
  Str.starts_with p s = true -> s = (p ++ Str.drop (String.length p) s)%string.
Proof.
  revert s. induction p as [|a p IH]; intros s; [reflexivity|].
  destruct s as [|b s]; simpl; [discriminate|]. intros H.
  apply andb_true_iff in H. destruct H as [Hab Hps].
  apply Ascii.eqb_eq in Hab. subst b. rewrite <- (IH s Hps). reflexivity.
Qed.

Lemma rev_acc_rev_acc (s acc : string) :
  Str.rev_acc (Str.rev_acc s acc) EmptyString
  = Str.rev_acc acc s.
Proof.
  revert acc. induction s as [|a s IH]; intros acc; simpl; [reflexivity|].
  rewrite IH. reflexivity.
Qed.

Lemma rev_involutive (s : string) : Str.rev (Str.rev s) = s.
Proof. unfold Str.rev. rewrite rev_acc_rev_acc. reflexivity. Qed.

Lemma forallb_rev_acc (f : ascii -> bool) (s acc : string) :
  Str.forallb f (Str.rev_acc s acc) = Str.forallb f s && Str.forallb f acc.
Proof.
  revert acc. induction s as [|a s IH]; intros acc; simpl; [reflexivity|].
  rewrite IH. simpl. destruct (f a); simpl; [reflexivity|apply andb_false_r].
Qed.

Lemma trim_start_no_space (s : string) :
  Str.forallb (fun c => negb (Str.is_space c)) s = true -> Str.trim_start s = s.
Proof.
  destruct s as [|a s]; simpl; [reflexivity|].
  intros H. apply andb_true_iff in H. destruct H as [Ha _].
  apply negb_true_iff in Ha. rewrite Ha. reflexivity.
Qed.

Lemma trim_no_space (s : string) :
  Str.forallb (fun c => negb (Str.is_space c)) s = true -> Str.trim s = s.
Proof.
  intros H. unfold Str.trim. rewrite (trim_start_no_space s H).
  rewrite trim_start_no_space; [apply rev_involutive|].
  unfold Str.rev. rewrite forallb_rev_acc, H. reflexivity.
Qed.

Lemma identifier_char_plain (c : ascii) :
  identifier_char c = true ->
  Str.is_space c = false
  /\ forallb (fun d => negb (Ascii.eqb c d)) (Validation.amp :: markup) = true.
Proof.
  intros H. destruct c as [[] [] [] [] [] [] [] []];
    vm_compute in H; try discriminate H; vm_compute; auto.
Qed.

Lemma identifier_fixed (s : string) :
  Str.forallb identifier_char s = true -> Validation.sanitizeText (VStr s) = Ok s.
Proof.
  intros H. apply sanitizeText_plain.
  - apply forallb_forall. intros d Hd. unfold free_of.
    apply (str_forallb_impl identifier_char); [|exact H].
    intros c Hc. destruct (identifier_char_plain c Hc) as [_ Hplain].
    rewrite forallb_forall in Hplain. apply Hplain, Hd.
  - apply trim_no_space. apply (str_forallb_impl identifier_char); [|exact H].
    intros c Hc. destruct (identifier_char_plain c Hc) as [Hspace _].
    rewrite Hspace. reflexivity.
Qed.

Lemma class_between_identifier (cls : ascii -> bool) (lo hi : nat) (s : string) :
  (forall c, cls c = true -> identifier_char c = true) ->
  Validation.class_between cls lo hi s = true ->
  Str.forallb identifier_char s = true.
Proof.
  intros Hcls H. unfold Validation.class_between in H.
  apply andb_true_iff in H. destruct H as [_ H].
  apply (str_forallb_impl cls); assumption.
Qed.

Lemma word_identifier (c : ascii) :
  Validation.is_word c = true -> identifier_char c = true.
Proof.
  unfold Validation.is_word, identifier_char. intros H.
  apply orb_true_iff in H. destruct H as [H|H].
  - rewrite H. reflexivity.
  - rewrite H. repeat rewrite orb_true_r. reflexivity.
Qed.

Lemma word_dot_identifier (c : ascii) :
  Validation.is_word_dot c = true -> identifier_char c = true.
Proof.
  unfold Validation.is_word_dot. intros H.
  apply orb_true_iff in H. destruct H as [H|H]; [apply word_identifier, H|].
  unfold identifier_char. rewrite H. repeat rewrite orb_true_r. reflexivity.
Qed.

Lemma alnum_dash_identifier (c : ascii) :
  Validation.is_alnum_dash c = true -> identifier_char c = true.
Proof.
  unfold Validation.is_alnum_dash, identifier_char. intros H.
  apply orb_true_iff in H. destruct H as [H|H].
  - rewrite H. reflexivity.
  - rewrite H. repeat rewrite orb_true_r. reflexivity.
Qed.

Lemma upper_alnum_identifier (c : ascii) :
  Validation.is_upper_alnum c = true -> identifier_char c = true.
Proof.
  unfold Validation.is_upper_alnum, identifier_char, Str.is_alpha. intros H.
  apply orb_true_iff in H. destruct H as [H|H]; rewrite H; simpl;
    repeat rewrite orb_true_r; reflexivity.
Qed.

Lemma digit_identifier (c : ascii) : Str.is_digit c = true -> identifier_char c = true.
Proof.
  unfold identifier_char. intros H. rewrite H. simpl.
  repeat rewrite orb_true_r. reflexivity.
Qed.

Lemma username_identifier (platform : string) (pattern : string -> bool) (s : string) :
  Validation.patterns platform = Some pattern ->
  pattern s = true -> Str.forallb identifier_char s = true.
Proof.
  unfold Validation.patterns. intros Hp Hs.
  repeat match type of Hp with
         | (if ?c then _ else _) = _ => destruct c
         end;
    try discriminate; injection Hp as <-;
    eapply class_between_identifier; try exact Hs;
    auto using word_identifier, word_dot_identifier, alnum_dash_identifier.
Qed.

(** X25. The identifiers that the validators accept need no escaping: a
    user name accepted for one of the platforms that have a pattern, a
    Google Analytics id and a Facebook Pixel id that are accepted are
    returned unchanged by [sanitizeText]. *)
Theorem validated_identifier_unchanged (s : string) :
  (exists platform pattern,
     Validation.patterns platform = Some pattern
     /\ Validation.validateSocialMediaUsername platform (VStr s) = true)
  \/ Validation.validateGoogleAnalyticsId (VStr s) = true
  \/ Validation.validateFacebookPixelId (VStr s) = true ->
  Validation.sanitizeText (VStr s) = Ok s.
Proof.
  intros [(platform & pattern & Hp & Hu)|[Hg|Hf]].
  - destruct s as [|a s]; [reflexivity|].
    unfold Validation.validateSocialMediaUsername in Hu. rewrite Hp in Hu.
    apply identifier_fixed.
    apply (username_identifier platform pattern (String a s) Hp), Hu.
  - apply identifier_fixed. unfold Validation.validateGoogleAnalyticsId in Hg.
    cbn [to_string] in Hg.
    apply andb_true_iff in Hg. destruct Hg as [Hg Hall].
    apply andb_true_iff in Hg. destruct Hg as [Hstart _].
    apply starts_with_split in Hstart. cbn [String.length] in Hstart.
    rewrite Hstart. cbn [String.append Str.forallb].
    change (identifier_char "G") with true. change (identifier_char "-") with true.
    cbn [andb]. apply (str_forallb_impl Validation.is_upper_alnum); [|exact Hall].
    apply upper_alnum_identifier.
  - apply identifier_fixed. unfold Validation.validateFacebookPixelId in Hf.
    cbn [to_string] in Hf. apply andb_true_iff in Hf. destruct Hf as [_ Hall].
    apply (str_forallb_impl Str.is_digit); [|exact Hall]. apply digit_identifier.
Qed.

Lemma validated_identifier_unchanged_witness :
  Validation.sanitizeText (VStr "ada_lovelace") = Ok "ada_lovelace"
  /\ Validation.sanitizeText (VStr "G-ABCDE12345") = Ok "G-ABCDE12345".
Proof.
  split.
  - apply validated_identifier_unchanged. left.
    exists "twitter", (Validation.class_between Validation.is_word 1 15).
    split; reflexivity.
  - apply validated_identifier_unchanged. right. left. reflexivity.
Defined.
